(** * PostSnap: capture buffer, auth classifier and URL reconciliation

    A shallow embedding of the core of the PostSnap browser extension
    (src/utils/authDetector.ts, src/utils/urlMatcher.ts,
    src/background/requestCapture.ts, src/background/postmanApi.ts,
    src/background/storage.ts, the message handlers of
    src/background/index.ts and their popup side in
    src/utils/messaging.ts), followed by the properties of that code.

    Conventions of the embedding.
    - A JavaScript string is a [string]; a character is a code unit below
      256.  Header names, HTTP methods and serialized URL paths are ASCII on
      the wire, so this covers every string the program compares.
    - [undefined]/[null] are [None]; an exception is an [inl]/[None] result,
      stated next to each function.
    - Module-level mutable state (the capture buffer, the capture session)
      is a record threaded through a step function.
    - An object reached through a reference and mutated in place (a leaf of
      the fetched collection) is addressed by its path in the tree. *)

From Stdlib Require Import Bool Arith NArith List String Ascii DecimalString Lia.
From Stdlib Require Import Permutation Sorted.
From Stdlib Require QArith.
Import ListNotations.
Local Open Scope string_scope.
Local Open Scope list_scope.
Local Open Scope nat_scope.

Set Implicit Arguments.

(* ================================================================== *)
(** * Part I — the program *)
(* ================================================================== *)

(** ** JavaScript string primitives used by the code *)

Module Js.

Definition code (c : ascii) : nat := nat_of_ascii c.

Definition between (lo hi : nat) (c : ascii) : bool :=
  (lo <=? code c) && (code c <=? hi).

Definition isDigit (c : ascii) : bool := between 48 57 c.
Definition isUpperAscii (c : ascii) : bool := between 65 90 c.
Definition isLowerAscii (c : ascii) : bool := between 97 122 c.

(** [String.prototype.toLowerCase] on one code unit below 256: the ASCII
    capitals and the Latin-1 capitals U+00C0..U+00DE (U+00D7 is the
    multiplication sign) move up by 32. *)
Definition lowerChar (c : ascii) : ascii :=
  if isUpperAscii c || (between 192 222 c && negb (code c =? 215))
  then ascii_of_nat (code c + 32)
  else c.

Fixpoint toLowerCase (s : string) : string :=
  match s with
  | EmptyString => EmptyString
  | String c s' => String (lowerChar c) (toLowerCase s')
  end.

(** [String.prototype.toUpperCase] on one code unit below 256.  U+00DF
    (sharp s) becomes the two letters SS.  The capitals of U+00B5 and
    U+00FF lie above 255; the two characters stand for their own capitals
    here, which no other character below 256 shares. *)
Definition upperChar (c : ascii) : string :=
  if isLowerAscii c || (between 224 254 c && negb (code c =? 247))
  then String (ascii_of_nat (code c - 32)) EmptyString
  else if code c =? 223 then "SS"
  else String c EmptyString.

Fixpoint toUpperCase (s : string) : string :=
  match s with
  | EmptyString => EmptyString
  | String c s' => (upperChar c ++ toUpperCase s')%string
  end.

(** [s.startsWith(p)] *)
Fixpoint startsWith (p s : string) : bool :=
  match p, s with
  | EmptyString, _ => true
  | String a p', String b s' => Ascii.eqb a b && startsWith p' s'
  | String _ _, EmptyString => false
  end.

(** [s.endsWith(p)] *)
Fixpoint endsWith (p s : string) : bool :=
  String.eqb p s ||
  match s with
  | EmptyString => false
  | String _ s' => endsWith p s'
  end.

(** [s.includes(p)] *)
Fixpoint includes (p s : string) : bool :=
  startsWith p s ||
  match s with
  | EmptyString => false
  | String _ s' => includes p s'
  end.

(** [s.substring(n)] for [n >= 0]: the string without its first [n] code
    units (empty when [n] exceeds the length). *)
Fixpoint substringFrom (n : nat) (s : string) : string :=
  match n, s with
  | 0, _ => s
  | S n', String _ s' => substringFrom n' s'
  | S _, EmptyString => EmptyString
  end.

(** WhiteSpace and LineTerminator code units below 256 (ECMA-262 12.2,
    12.3): TAB, LF, VT, FF, CR, SP and NBSP. *)
Definition isWhiteSpace (c : ascii) : bool :=
  between 9 13 c || (code c =? 32) || (code c =? 160).

Fixpoint trimStart (s : string) : string :=
  match s with
  | EmptyString => EmptyString
  | String c s' => if isWhiteSpace c then trimStart s' else s
  end.

Fixpoint trimEnd (s : string) : string :=
  match s with
  | EmptyString => EmptyString
  | String c s' =>
      match trimEnd s' with
      | EmptyString => if isWhiteSpace c then EmptyString else String c EmptyString
      | t => String c t
      end
  end.

(** [s.trim()] *)
Definition trim (s : string) : string := trimEnd (trimStart s).

(** Every character, or some character, of the string is in the class. *)
Fixpoint allChars (p : ascii -> bool) (s : string) : bool :=
  match s with
  | EmptyString => true
  | String c s' => p c && allChars p s'
  end.

Fixpoint anyChar (p : ascii -> bool) (s : string) : bool :=
  match s with
  | EmptyString => false
  | String c s' => p c || anyChar p s'
  end.

(** The decimal digits of a natural number, as a template literal or
    string concatenation prints it. *)
Definition decimal (n : N) : string := NilZero.string_of_uint (N.to_uint n).

(** Truthiness of [s || d] on strings: the empty string is falsy. *)
Definition orElse (s d : string) : string :=
  match s with EmptyString => d | _ => s end.

End Js.

(** ** The regular expressions of the code

    Every pattern in the sources is a sequence of literal characters and
    character classes repeated either a fixed number of times or, as the
    last item of the pattern, at least [n] times.  A greedy last item takes
    the longest run, so matching needs no backtracking. *)

Module Regex.

Inductive Atom : Type :=
| Lit (c : ascii)                          (* the character itself *)
| LitI (c : ascii)                         (* the character, flag i *)
| Exactly (n : nat) (cls : ascii -> bool)  (* [cls]{n} *)
| AtLeast (n : nat) (cls : ascii -> bool). (* [cls]{n,}, last item only *)

Definition Pattern := list Atom.

(** Canonicalize of ECMA-262 22.2.5.6 without the u flag, on code units
    below 256 against an ASCII pattern character: ASCII letters compare by
    their capitals, no other character equals an ASCII one. *)
Definition asciiUpper (c : ascii) : ascii :=
  if Js.isLowerAscii c then ascii_of_nat (Js.code c - 32) else c.

Definition eqbI (a b : ascii) : bool := Ascii.eqb (asciiUpper a) (asciiUpper b).

(** [0-9a-f] with flag i *)
Definition hexDigit (c : ascii) : bool :=
  Js.isDigit c || Js.between 97 102 c || Js.between 65 70 c.

(** [a-z0-9_-] with flag i *)
Definition idChar (c : ascii) : bool :=
  Js.isLowerAscii c || Js.isUpperAscii c || Js.isDigit c ||
  (Js.code c =? 95) || (Js.code c =? 45).

(** Consume exactly [n] characters of the class. *)
Fixpoint takeExactly (n : nat) (cls : ascii -> bool) (s : string) : option string :=
  match n, s with
  | 0, _ => Some s
  | S n', String c s' => if cls c then takeExactly n' cls s' else None
  | S _, EmptyString => None
  end.

(** Length of the longest prefix of [s] inside the class. *)
Fixpoint runLength (cls : ascii -> bool) (s : string) : nat :=
  match s with
  | String c s' => if cls c then S (runLength cls s') else 0
  | EmptyString => 0
  end.

(** [matchHere p s]: the number of characters the pattern consumes when
    it matches at the start of [s]. *)
Fixpoint matchHere (p : Pattern) (s : string) : option nat :=
  match p with
  | [] => Some 0
  | Lit c :: p' =>
      match s with
      | String d s' => if Ascii.eqb c d then option_map S (matchHere p' s') else None
      | EmptyString => None
      end
  | LitI c :: p' =>
      match s with
      | String d s' => if eqbI c d then option_map S (matchHere p' s') else None
      | EmptyString => None
      end
  | Exactly n cls :: p' =>
      match takeExactly n cls s with
      | Some rest => option_map (Nat.add n) (matchHere p' rest)
      | None => None
      end
  | AtLeast n cls :: _ =>
      let k := runLength cls s in
      if n <=? k then Some k else None
  end.

(** [re.test(s)] for a pattern without anchors: a match at some position. *)
Fixpoint test (p : Pattern) (s : string) : bool :=
  match matchHere p s with
  | Some _ => true
  | None =>
      match s with
      | EmptyString => false
      | String _ s' => test p s'
      end
  end.

(** [s.replace(re, by)] with flag g for a pattern that never matches the
    empty string: matches are taken left to right and do not overlap.
    [skip] counts the characters of the current match still to be dropped. *)
Fixpoint replaceFrom (p : Pattern) (by_ : string) (skip : nat) (s : string) : string :=
  match s with
  | EmptyString => EmptyString
  | String c s' =>
      match skip with
      | S k => replaceFrom p by_ k s'
      | 0 =>
          match matchHere p s with
          | Some (S n) => (by_ ++ replaceFrom p by_ n s')%string
          | _ => String c (replaceFrom p by_ 0 s')
          end
      end
  end.

Definition replaceAll (p : Pattern) (by_ : string) (s : string) : string :=
  replaceFrom p by_ 0 s.

(** The literal characters of a string as a pattern, with flag i. *)
Fixpoint literalI (s : string) : Pattern :=
  match s with
  | EmptyString => []
  | String c s' => LitI c :: literalI s'
  end.

End Regex.

(** ** The platform's URL class

    [new URL(s)] parses [s] without a base URL and throws a TypeError when
    that fails.  The functions embedded here read two properties of the
    result: [host] and [pathname].  The parser belongs to the platform, not to the
    repository, so the program is embedded over any parser; general facts
    that need something of the parser say so as a hypothesis. *)

Module Url.

Record URL : Type := mkURL {
  protocol : string;   (* the scheme followed by ":" *)
  host : string;       (* host, and ":port" unless the port is the default *)
  pathname : string
}.

(** [parse s = None] stands for the TypeError of [new URL(s)]. *)
Class Parser : Type := parse : string -> option URL.

(** Without a base URL an input without a scheme does not parse; a string
    that begins with a slash, and the empty string, have none. *)
Definition RejectsRelative (P : Parser) : Prop :=
  parse EmptyString = None /\ forall s, parse (String "/" s) = None.

End Url.

(** ** A model of the WHATWG URL parser

    [Whatwg.parse] follows the basic URL parser of the URL Standard (no
    base URL, no state override) state by state, for the inputs it covers:
    every scheme but [file:], hosts that are ASCII domain names, ports,
    credentials, paths with dot segments and percent-encoding, opaque
    paths, IPv4 addresses.  It does not cover [file:] URLs nor hosts that
    need percent-decoding, IDNA or the IPv6 parser (a host with a
    character above 127, a %, a label beginning xn--, or a bracket): it
    answers [None] for them, and no statement below evaluates it there. *)

Module Whatwg.

Import Js.

Definition isC0OrSpace (c : ascii) : bool := code c <=? 32.
Definition isTabOrNewline (c : ascii) : bool :=
  (code c =? 9) || (code c =? 10) || (code c =? 13).

Fixpoint stripLeading (s : string) : string :=
  match s with
  | String c s' => if isC0OrSpace c then stripLeading s' else s
  | EmptyString => EmptyString
  end.

Fixpoint stripTrailing (s : string) : string :=
  match s with
  | EmptyString => EmptyString
  | String c s' =>
      match stripTrailing s' with
      | EmptyString => if isC0OrSpace c then EmptyString else String c EmptyString
      | t => String c t
      end
  end.

Fixpoint removeTabNewline (s : string) : string :=
  match s with
  | EmptyString => EmptyString
  | String c s' =>
      if isTabOrNewline c then removeTabNewline s' else String c (removeTabNewline s')
  end.

Definition isAlpha (c : ascii) : bool := isUpperAscii c || isLowerAscii c.

Definition isSchemeChar (c : ascii) : bool :=
  isAlpha c || isDigit c || (code c =? 43) || (code c =? 45) || (code c =? 46).

(** Scheme state: the scheme, lower-cased, and what follows the colon. *)
Fixpoint schemeState (s : string) : option (string * string) :=
  match s with
  | EmptyString => None
  | String c s' =>
      if Ascii.eqb c ":" then Some (EmptyString, s')
      else if isSchemeChar c then
        match schemeState s' with
        | Some (sch, rest) => Some (String (lowerChar c) sch, rest)
        | None => None
        end
      else None
  end.

(** Scheme start state; without a base URL the no-scheme state fails. *)
Definition schemeStartState (s : string) : option (string * string) :=
  match s with
  | String c _ => if isAlpha c then schemeState s else None
  | EmptyString => None
  end.

Definition defaultPort (scheme : string) : option N :=
  if String.eqb scheme "ftp" then Some 21%N
  else if String.eqb scheme "http" then Some 80%N
  else if String.eqb scheme "https" then Some 443%N
  else if String.eqb scheme "ws" then Some 80%N
  else if String.eqb scheme "wss" then Some 443%N
  else None.

Definition isSpecial (scheme : string) : bool :=
  String.eqb scheme "file" ||
  match defaultPort scheme with Some _ => true | None => false end.

(** The prefix of [s] before the first character in [stop], and the rest
    (which begins with that character, or is empty). *)
Fixpoint splitAt (stop : ascii -> bool) (s : string) : string * string :=
  match s with
  | EmptyString => (EmptyString, EmptyString)
  | String c s' =>
      if stop c then (EmptyString, s)
      else let (a, b) := splitAt stop s' in (String c a, b)
  end.

Definition isSlash (special : bool) (c : ascii) : bool :=
  Ascii.eqb c "/" || (special && Ascii.eqb c "\").

Definition endsAuthority (special : bool) (c : ascii) : bool :=
  isSlash special c || Ascii.eqb c "?" || Ascii.eqb c "#".

(** Special authority slashes / ignore slashes states. *)
Fixpoint skipSlashes (s : string) : string :=
  match s with
  | String c s' => if isSlash true c then skipSlashes s' else s
  | EmptyString => EmptyString
  end.

(** What follows the last "@" of the authority, when there is one. *)
Fixpoint afterLastAt (s : string) : option string :=
  match s with
  | EmptyString => None
  | String c s' =>
      match afterLastAt s' with
      | Some r => Some r
      | None => if Ascii.eqb c "@" then Some s' else None
      end
  end.

Definition hexChar (n : nat) : ascii :=
  ascii_of_nat (if n <? 10 then 48 + n else 55 + n).

Definition percentByte (n : nat) : string :=
  String "%" (String (hexChar (n / 16)) (String (hexChar (n mod 16)) EmptyString)).

(** UTF-8 percent-encoding of one code point below 256. *)
Definition percentEncode (c : ascii) : string :=
  if code c <? 128 then percentByte (code c)
  else (percentByte (192 + code c / 64) ++ percentByte (128 + code c mod 64))%string.

Definition inC0ControlSet (c : ascii) : bool := (code c <? 32) || (126 <? code c).

Definition memChar (c : ascii) (set : string) : bool := anyChar (Ascii.eqb c) set.

(** The path percent-encode set: the query set (C0 controls, above "~",
    space, double quote, #, <, >) and ?, ^, `, {, }. *)
Definition inPathSet (c : ascii) : bool :=
  inC0ControlSet c || (code c =? 32) || (code c =? 34) || memChar c "#<>?^`{}".

Fixpoint encodeWith (inSet : ascii -> bool) (s : string) : string :=
  match s with
  | EmptyString => EmptyString
  | String c s' =>
      ((if inSet c then percentEncode c else String c EmptyString)
         ++ encodeWith inSet s')%string
  end.

(** Forbidden host code points, and forbidden domain code points. *)
Definition forbiddenHost (c : ascii) : bool :=
  (code c =? 0) || isTabOrNewline c || (code c =? 32) || memChar c "#/:<>?@[\]^|".

Definition forbiddenDomain (c : ascii) : bool :=
  forbiddenHost c || (code c <? 32) || Ascii.eqb c "%" || (code c =? 127).

(** The labels of a host, split at the dots. *)
Fixpoint splitDots (acc s : string) : list string :=
  match s with
  | EmptyString => [acc]
  | String c s' =>
      if Ascii.eqb c "." then acc :: splitDots EmptyString s'
      else splitDots (acc ++ String c EmptyString)%string s'
  end.

(** The list without its last element when that is the empty string and
    not the only element. *)
Definition dropEmptyLast (parts : list string) : list string :=
  match rev parts with
  | EmptyString :: (_ :: _ as rest) => rev rest
  | _ => parts
  end.

Definition digitOf (radix : N) (c : ascii) : option N :=
  let n :=
    if isDigit c then Some (N.of_nat (code c - 48))
    else if between 97 102 c then Some (N.of_nat (code c - 87))
    else if between 65 70 c then Some (N.of_nat (code c - 55))
    else None in
  match n with
  | Some d => if (d <? radix)%N then Some d else None
  | None => None
  end.

Fixpoint numberIn (radix acc : N) (s : string) : option N :=
  match s with
  | EmptyString => Some acc
  | String c s' =>
      match digitOf radix c with
      | Some d => numberIn radix (acc * radix + d)%N s'
      | None => None
      end
  end.

(** IPv4 number parser. *)
Definition ipv4Number (input : string) : option N :=
  match input with
  | EmptyString => None
  | String _ EmptyString => numberIn 10 0 input
  | _ =>
      if startsWith "0x" (toLowerCase input) then numberIn 16 0 (substringFrom 2 input)
      else if startsWith "0" input then numberIn 8 0 (substringFrom 1 input)
      else numberIn 10 0 input
  end.

(** Ends-in-a-number checker. *)
Definition endsInNumber (h : string) : bool :=
  match splitDots EmptyString h with
  | [EmptyString] => false
  | parts =>
      let l := last (dropEmptyLast parts) EmptyString in
      match l with
      | EmptyString => false
      | _ => allChars isDigit l || match ipv4Number l with Some _ => true | None => false end
      end
  end.

Fixpoint ipv4Value (numbers : list N) (place : nat) : option N :=
  match numbers with
  | [] => None
  | [n] => if (n <? 256 ^ N.of_nat (S place))%N then Some n else None
  | n :: rest =>
      if (255 <? n)%N then None
      else match ipv4Value rest (pred place) with
           | Some v => Some (n * 256 ^ N.of_nat place + v)%N
           | None => None
           end
  end.

Fixpoint allSome {A : Type} (l : list (option A)) : option (list A) :=
  match l with
  | [] => Some []
  | Some a :: l' => option_map (cons a) (allSome l')
  | None :: _ => None
  end.

(** IPv4 parser followed by the IPv4 serializer. *)
Definition ipv4Parser (input : string) : option string :=
  let parts := dropEmptyLast (splitDots EmptyString input) in
  if 4 <? List.length parts then None
  else match allSome (map ipv4Number parts) with
       | None => None
       | Some numbers =>
           match ipv4Value numbers 3 with
           | None => None
           | Some v =>
               Some (decimal (v / 16777216) ++ "." ++ decimal ((v / 65536) mod 256) ++ "."
                     ++ decimal ((v / 256) mod 256) ++ "." ++ decimal (v mod 256))%string
           end
       end.

Fixpoint hasPunycodeLabel (atLabelStart : bool) (s : string) : bool :=
  (atLabelStart && startsWith "xn--" (toLowerCase s)) ||
  match s with
  | EmptyString => false
  | String c s' => hasPunycodeLabel (Ascii.eqb c ".") s'
  end.

(** Host parser.  A special scheme wants a domain; any other scheme takes
    an opaque host. *)
Definition hostParser (special : bool) (input : string) : option string :=
  if startsWith "[" input then None
  else if special then
    if anyChar (fun c => (127 <? code c) || Ascii.eqb c "%") input then None
    else if hasPunycodeLabel true input then None
    else if anyChar forbiddenDomain input then None
    else match input with
         | EmptyString => None
         | _ =>
             if endsInNumber (toLowerCase input) then ipv4Parser (toLowerCase input)
             else Some (toLowerCase input)
         end
  else if anyChar forbiddenHost input then None
  else Some (encodeWith inC0ControlSet input).

Fixpoint digitsValue (acc : N) (s : string) : N :=
  match s with
  | EmptyString => acc
  | String c s' => digitsValue (acc * 10 + N.of_nat (code c - 48))%N s'
  end.

(** Port state: the part of the serialized host after the host name. *)
Definition portState (scheme digits : string) : option string :=
  if negb (allChars isDigit digits) then None
  else match digits with
       | EmptyString => Some EmptyString
       | _ =>
           let p := digitsValue 0%N digits in
           if (65535 <? p)%N then None
           else match defaultPort scheme with
                | Some d => if (d =? p)%N then Some EmptyString
                            else Some (":" ++ decimal p)%string
                | None => Some (":" ++ decimal p)%string
                end
       end.

(** Authority, host and port states on the text of the authority. *)
Definition authorityState (scheme : string) (special : bool) (authority : string)
  : option string :=
  let hostport :=
    match afterLastAt authority with
    | Some r => match r with EmptyString => None | _ => Some r end
    | None => Some authority
    end in
  match hostport with
  | None => None
  | Some hp =>
      let (h, rest) := splitAt (Ascii.eqb ":") hp in
      match rest with
      | EmptyString =>
          hostParser special h
      | String _ digits =>
          match h with
          | EmptyString => None
          | _ =>
              match hostParser special h, portState scheme digits with
              | Some h', Some p => Some (h' ++ p)%string
              | _, _ => None
              end
          end
      end
  end.

Definition isSingleDot (seg : string) : bool :=
  String.eqb seg "." || String.eqb (toLowerCase seg) "%2e".

Definition isDoubleDot (seg : string) : bool :=
  let l := toLowerCase seg in
  String.eqb l ".." || String.eqb l ".%2e" || String.eqb l "%2e." || String.eqb l "%2e%2e".

(** Shorten a path kept in reverse order. *)
Definition shorten (revPath : list string) : list string := tl revPath.

(** Path state.  [revPath] holds the segments found so far, last first;
    [buffer] the current segment, already percent-encoded. *)
Fixpoint pathState (special : bool) (revPath : list string) (buffer : string)
    (s : string) : list string :=
  let close (sep : bool) :=
    if isDoubleDot buffer then
      if sep then shorten revPath else EmptyString :: shorten revPath
    else if isSingleDot buffer then
      if sep then revPath else EmptyString :: revPath
    else buffer :: revPath in
  match s with
  | EmptyString => rev (close false)
  | String c s' =>
      if isSlash special c then pathState special (close true) EmptyString s'
      else if Ascii.eqb c "?" || Ascii.eqb c "#" then rev (close false)
      else
        pathState special revPath
          (buffer ++ (if inPathSet c then percentEncode c else String c EmptyString))%string
          s'
  end.

(** URL path serializer of a list of segments. *)
Fixpoint serializePath (segments : list string) : string :=
  match segments with
  | [] => EmptyString
  | seg :: rest => ("/" ++ seg ++ serializePath rest)%string
  end.

(** Path start state, entered with [s] at a slash, "?", "#" or the end. *)
Definition pathStartState (special : bool) (s : string) : string :=
  match s with
  | String c s' =>
      if isSlash special c then serializePath (pathState special [] EmptyString s')
      else if special then serializePath (pathState special [] EmptyString s)
      else EmptyString
  | EmptyString =>
      if special then serializePath (pathState special [] EmptyString s)
      else EmptyString
  end.

(** Opaque path state: up to the query or the fragment. *)
Definition opaquePathState (s : string) : string :=
  encodeWith inC0ControlSet
    (fst (splitAt (fun c => Ascii.eqb c "?" || Ascii.eqb c "#") s)).

Definition parse (input : string) : option Url.URL :=
  let s := removeTabNewline (stripTrailing (stripLeading input)) in
  match schemeStartState s with
  | None => None
  | Some (scheme, rest) =>
      let proto := (scheme ++ ":")%string in
      if String.eqb scheme "file" then None
      else if isSpecial scheme then
        let (authority, after) := splitAt (endsAuthority true) (skipSlashes rest) in
        match authorityState scheme true authority with
        | Some h => Some (Url.mkURL proto h (pathStartState true after))
        | None => None
        end
      else if startsWith "//" rest then
        let (authority, after) :=
          splitAt (endsAuthority false) (substringFrom 2 rest) in
        match authorityState scheme false authority with
        | Some h => Some (Url.mkURL proto h (pathStartState false after))
        | None => None
        end
      else if startsWith "/" rest then
        Some (Url.mkURL proto EmptyString
                (serializePath (pathState false [] EmptyString (substringFrom 1 rest))))
      else Some (Url.mkURL proto EmptyString (opaquePathState rest))
  end.

End Whatwg.

#[global] Instance whatwg : Url.Parser := Whatwg.parse.

(** ** src/shared/types.ts *)

Inductive AuthType : Type := bearer | basic | apikey | cookie | none.

Definition AuthType_eqb (a b : AuthType) : bool :=
  match a, b with
  | bearer, bearer | basic, basic | apikey, apikey | cookie, cookie | none, none => true
  | _, _ => false
  end.

Record RequestHeader : Type := mkHeader { key : string; value : string }.

(** ** src/utils/authDetector.ts *)

(** [interface AuthInfo { type: AuthType; value?: string }] *)
Record AuthInfo : Type := mkAuthInfo { type : AuthType; authInfoValue : option string }.

(** The seven session-cookie patterns, each a literal with flag i. *)
Definition sessionPatterns : list Regex.Pattern :=
  map Regex.literalI
    [ "sessionid="; "session="; "sid="; "connect.sid=";
      "PHPSESSID="; "JSESSIONID="; "ASP.NET_SessionId=" ].

(** The body of the loop of [detectAuthType] for one header: [Some] when
    the body returns, [None] when the loop goes on to the next header. *)
Definition detectHeader (header : RequestHeader) : option AuthInfo :=
  let name := Js.toLowerCase (key header) in
  let value := value header in
  if String.eqb name "authorization" && Js.startsWith "Bearer " value then
    Some (mkAuthInfo bearer (Some (Js.trim (Js.substringFrom 7 value))))
  else if String.eqb name "authorization" && Js.startsWith "Basic " value then
    Some (mkAuthInfo basic (Some (Js.trim (Js.substringFrom 6 value))))
  else if String.eqb name "x-api-key" || String.eqb name "api-key" ||
          String.eqb name "apikey" || Js.includes "api-key" name ||
          Js.includes "apikey" name then
    Some (mkAuthInfo apikey (Some value))
  else if String.eqb name "cookie" &&
          existsb (fun pattern => Regex.test pattern value) sessionPatterns then
    Some (mkAuthInfo cookie (Some value))
  else None.

Fixpoint detectAuthType (headers : list RequestHeader) : AuthInfo :=
  match headers with
  | [] => mkAuthInfo none None
  | header :: rest =>
      match detectHeader header with
      | Some info => info
      | None => detectAuthType rest
      end
  end.

(** ** src/utils/urlMatcher.ts *)

Definition uuidPattern : Regex.Pattern :=
  [ Regex.Lit "/"; Regex.Exactly 8 Regex.hexDigit;
    Regex.Lit "-"; Regex.Exactly 4 Regex.hexDigit;
    Regex.Lit "-"; Regex.Exactly 4 Regex.hexDigit;
    Regex.Lit "-"; Regex.Exactly 4 Regex.hexDigit;
    Regex.Lit "-"; Regex.Exactly 12 Regex.hexDigit ].

Definition numericPattern : Regex.Pattern :=
  [ Regex.Lit "/"; Regex.AtLeast 1 Js.isDigit ].

Definition alphanumericPattern : Regex.Pattern :=
  [ Regex.Lit "/"; Regex.AtLeast 8 Regex.idChar ].

Definition objectIdPattern : Regex.Pattern :=
  [ Regex.Lit "/"; Regex.Exactly 24 Regex.hexDigit ].

(** The four [pathname.replace(..., '/:id')] statements, in order. *)
Definition replaceIds (pathname : string) : string :=
  let pathname := Regex.replaceAll uuidPattern "/:id" pathname in
  let pathname := Regex.replaceAll numericPattern "/:id" pathname in
  let pathname := Regex.replaceAll alphanumericPattern "/:id" pathname in
  let pathname := Regex.replaceAll objectIdPattern "/:id" pathname in
  pathname.

Section UrlMatcher.

Context {P : Url.Parser}.

Definition normalizeUrl (url : string) : string :=
  match Url.parse url with
  | Some urlObj => replaceIds (Url.pathname urlObj)
  | None => url           (* catch: return url *)
  end.

(** [normalizeUrl] applied to a value that may be [undefined]: the URL
    constructor reads [undefined] as the string "undefined", and the catch
    branch returns the argument itself. *)
Definition normalizeUrlValue (url : option string) : option string :=
  match url with
  | Some u => Some (normalizeUrl u)
  | None =>
      match Url.parse "undefined" with
      | Some urlObj => Some (replaceIds (Url.pathname urlObj))
      | None => None
      end
  end.

End UrlMatcher.

(** *** The remote collection as the code reads it

    The fetched collection is untyped JSON.  A node is an object the code
    probes for [item] (an array of children: a folder) and for [request];
    [request.url] is a string, an object with a [raw] property, or absent. *)

Inductive UrlField : Type :=
| UrlString (s : string)
| UrlObject (raw : option string)
| UrlMissing.

(** [request] of a PostmanRequest: method, header list and url; [body]
    and [auth] are carried along untouched by the operations below. *)
Record RequestDef : Type := mkRequestDef {
  method : option string;
  header : list RequestHeader;
  url : UrlField;
  body : option string;
  auth : option string
}.

#[local] Set Warnings "-register-all".

Inductive Item : Type :=
  mkItem (name : string) (item : option (list Item)) (request : option RequestDef).

Definition name (it : Item) : string := let (n, _, _) := it in n.
Definition item (it : Item) : option (list Item) := let (_, k, _) := it in k.
Definition request (it : Item) : option RequestDef := let (_, _, r) := it in r.

(** A reference to a node of the fetched tree: the positions to follow
    from the top-level array, outermost first, and the node found there. *)
Definition Path : Type := list nat.
Definition Ref : Type := (Path * Item)%type.

(** The first [Some] of [f i a], [a] running over the list from index [i]. *)
Definition firstFrom {A B : Type} (f : nat -> A -> option B) : nat -> list A -> option B :=
  fix loop (i : nat) (l : list A) : option B :=
    match l with
    | [] => None
    | a :: l' =>
        match f i a with
        | Some b => Some b
        | None => loop (S i) l'
        end
    end.

(** All results of [f i a], [a] running over the list from index [i]. *)
Definition allFrom {A B : Type} (f : nat -> A -> list B) : nat -> list A -> list B :=
  fix loop (i : nat) (l : list A) : list B :=
    match l with
    | [] => []
    | a :: l' => f i a ++ loop (S i) l'
    end.

Definition under (i : nat) (r : Ref) : Ref := (i :: fst r, snd r).

(** One turn of the loop shared by [findMatchingRequest] and the
    [searchRecursive] of [findMatchingRequestWithMethod]: the children
    first, when [item.item] is an array, then the node itself, when it has
    a [request] that passes [test]. *)
Fixpoint searchItem (test : RequestDef -> bool) (it : Item) : option Ref :=
  match it with
  | mkItem _ kids req =>
      match
        match kids with
        | Some l => firstFrom (fun i k => option_map (under i) (searchItem test k)) 0 l
        | None => None
        end
      with
      | Some m => Some m
      | None =>
          match req with
          | Some r => if test r then Some ([], it) else None
          | None => None
          end
      end
  end.

Definition searchRecursive (test : RequestDef -> bool) (items : list Item) : option Ref :=
  firstFrom (fun i k => option_map (under i) (searchItem test k)) 0 items.

(** The same loop when it pushes every match instead of returning the
    first ([findAllMatchingRequests], [findAllRequestsForHost]). *)
Fixpoint collectItem (test : RequestDef -> bool) (it : Item) : list Ref :=
  match it with
  | mkItem _ kids req =>
      match kids with
      | Some l => allFrom (fun i k => map (under i) (collectItem test k)) 0 l
      | None => []
      end
      ++
      match req with
      | Some r => if test r then [([], it)] else []
      | None => []
      end
  end.

Definition collectRecursive (test : RequestDef -> bool) (items : list Item) : list Ref :=
  allFrom (fun i k => map (under i) (collectItem test k)) 0 items.

(** The node has a [request], and the request passes [test]. *)
Definition passes (test : RequestDef -> bool) (it : Item) : bool :=
  match request it with
  | Some r => test r
  | None => false
  end.

(** A call that either returns or throws. *)
Inductive Completion (A : Type) : Type :=
| Returned (a : A)
| Threw.
Arguments Threw {A}.

(** [extractPostmanUrl]: reading [raw] of an absent [url] throws. *)
Definition extractPostmanUrl (r : RequestDef) : Completion (option string) :=
  match url r with
  | UrlString s => Returned (Some s)
  | UrlObject raw => Returned raw
  | UrlMissing => Threw
  end.

Definition optionStringEqb (a b : option string) : bool :=
  match a, b with
  | Some x, Some y => String.eqb x y
  | None, None => true
  | _, _ => false
  end.

Section Matcher.

Context {P : Url.Parser}.

(** The [try] block of [findMatchingRequest] on one request; the [catch]
    goes on with the next node. *)
Definition matchesPattern (capturedUrl : string) (r : RequestDef) : bool :=
  match extractPostmanUrl r with
  | Returned postmanUrl =>
      optionStringEqb (Some (normalizeUrl capturedUrl)) (normalizeUrlValue postmanUrl)
  | Threw => false
  end.

Definition findMatchingRequest (capturedUrl : string) (postmanRequests : list Item)
  : option Ref :=
  searchRecursive (matchesPattern capturedUrl) postmanRequests.

Definition findAllMatchingRequests (capturedUrl : string) (postmanRequests : list Item)
  : list Ref :=
  collectRecursive (matchesPattern capturedUrl) postmanRequests.

(** [item.request.method?.toUpperCase() || 'GET'] *)
Definition postmanMethod (r : RequestDef) : string :=
  match method r with
  | Some m => Js.orElse (Js.toUpperCase m) "GET"
  | None => "GET"
  end.

Definition matchesPatternAndMethod (capturedUrl method : string) (r : RequestDef) : bool :=
  match extractPostmanUrl r with
  | Returned postmanUrl =>
      optionStringEqb (Some (normalizeUrl capturedUrl)) (normalizeUrlValue postmanUrl)
      && String.eqb (Js.toUpperCase method) (postmanMethod r)
  | Threw => false
  end.

Definition findMatchingRequestWithMethod (capturedUrl method : string)
    (postmanRequests : list Item) : option Ref :=
  searchRecursive (matchesPatternAndMethod capturedUrl method) postmanRequests.

(** [new URL(postmanUrl).host === host]; the constructor throws on a
    string that does not parse, and reads [undefined] as "undefined". *)
Definition hasHost (host : string) (r : RequestDef) : bool :=
  match extractPostmanUrl r with
  | Returned postmanUrl =>
      let text := match postmanUrl with Some u => u | None => "undefined" end in
      match Url.parse text with
      | Some urlObj => String.eqb (Url.host urlObj) host
      | None => false
      end
  | Threw => false
  end.

Definition findAllRequestsForHost (host : string) (postmanRequests : list Item)
  : list Ref :=
  collectRecursive (hasHost host) postmanRequests.

End Matcher.

(** ** src/background/requestCapture.ts *)

Module CapturedRequest.
Record t : Type := mk {
  id : string;
  timestamp : N;
  method : string;
  url : string;
  headers : list RequestHeader;
  body : option string;
  authType : AuthType;
  authValue : option string
}.
End CapturedRequest.

Record HostInfo : Type := mkHostInfo {
  host : string;
  requestCount : nat;
  lastSeen : N;
  hasAuth : bool
}.

Record CaptureState : Type := mkCaptureState {
  isCapturing : bool;
  targetHost : option string;
  collectionId : option string;
  capturedCount : nat;
  syncedCount : nat
}.

(** The only function ever stored in [onCaptureCallback] is the closure
    that [handleStartCapture] builds over the collection id of its
    payload; the closure is represented by that id. *)
Inductive Callback : Type := UpsertInto (collectionId : string).

(** [details] of a webRequest event.  A header of the platform has a name
    and an optional value.  The request body is kept as the text the
    platform hands over: decoding and JSON parsing are not modelled. *)
Record Details : Type := mkDetails {
  requestId : string;
  detailsUrl : string;
  detailsMethod : string;
  detailsType : string;
  requestHeaders : option (list (string * option string));
  requestBody : option string
}.

(** A JavaScript [Map] with string keys: the entries in insertion order;
    [set] on a present key keeps its place. *)
Section JsMap.
Variable V : Type.

Definition JsMap : Type := list (string * V).

Fixpoint mapGet (k : string) (m : JsMap) : option V :=
  match m with
  | [] => None
  | (k', v) :: m' => if String.eqb k k' then Some v else mapGet k m'
  end.

Fixpoint mapSet (k : string) (v : V) (m : JsMap) : JsMap :=
  match m with
  | [] => [(k, v)]
  | (k', v') :: m' =>
      if String.eqb k k' then (k, v) :: m' else (k', v') :: mapSet k v m'
  end.

Fixpoint mapDelete (k : string) (m : JsMap) : JsMap :=
  match m with
  | [] => []
  | (k', v') :: m' =>
      if String.eqb k k' then m' else (k', v') :: mapDelete k m'
  end.

End JsMap.

(** The module-level variables of requestCapture.ts. *)
Record Capture : Type := mkCapture {
  capturedRequests : list CapturedRequest.t;
  requestBodies : JsMap string;
  hostMap : JsMap HostInfo;
  captureState : CaptureState;
  onCaptureCallback : option Callback
}.

Definition MAX_REQUESTS : nat := 100.

Definition idleState : CaptureState := mkCaptureState false None None 0 0.

(** The values of the module-level variables when the module is loaded. *)
Definition initialCapture : Capture := mkCapture [] [] [] idleState None.

Definition staticExtensions : list string :=
  [".png"; ".jpg"; ".jpeg"; ".gif"; ".svg"; ".ico"; ".woff"; ".woff2"; ".ttf"; ".eot"].

Definition shouldCaptureRequest (url : string) : bool :=
  if Js.startsWith "chrome://" url then false
  else if Js.startsWith "chrome-extension://" url then false
  else if Js.startsWith "edge://" url then false
  else if Js.startsWith "about:" url then false
  else if Js.startsWith "data:" url then false
  else if Js.startsWith "blob:" url then false
  else
    let urlLower := Js.toLowerCase url in
    if existsb (fun ext => Js.endsWith ext urlLower) staticExtensions then false
    else true.

Definition isApiRequestType (type : string) : bool :=
  String.eqb type "xmlhttprequest" || String.eqb type "fetch".

(** What a listener hands to the outside: an invocation of the stored
    callback on a captured request. *)
Inductive Effect : Type := Invoke (callback : Callback) (request : CapturedRequest.t).

(** [array.pop()] after [array.unshift(x)] *)
Definition limitTo (max : nat) (requests : list CapturedRequest.t) : list CapturedRequest.t :=
  if max <? List.length requests then removelast requests else requests.

Section RequestCapture.

Context {P : Url.Parser}.

(** Listener 1, [onBeforeRequest]. *)
Definition onBeforeRequest (details : Details) (st : Capture) : Capture :=
  if negb (shouldCaptureRequest (detailsUrl details)) then st
  else if negb (isApiRequestType (detailsType details)) then st
  else
    match requestBody details with
    | Some b =>
        mkCapture (capturedRequests st)
          (mapSet (requestId details) b (requestBodies st))
          (hostMap st) (captureState st) (onCaptureCallback st)
    | None => st
    end.

(** The captured request that listener 2 builds.  [now] is the reading of
    [Date.now()] and [random] the text of
    [Math.random().toString(36).substr(2, 9)] during the listener's run;
    the readings of the clock within one run are taken to be equal. *)
Definition buildRequest (now : N) (random : string) (details : Details) (st : Capture)
  : CapturedRequest.t :=
  let headers :=
    map (fun h => mkHeader (fst h) (match snd h with Some v => v | None => EmptyString end))
        (match requestHeaders details with Some hs => hs | None => [] end) in
  let authInfo := detectAuthType headers in
  CapturedRequest.mk
    (Js.decimal now ++ "-" ++ random)%string
    now (detailsMethod details) (detailsUrl details) headers
    (mapGet (requestId details) (requestBodies st))
    (type authInfo) (authInfoValue authInfo).

Definition targetsHost (cs : CaptureState) (callback : option Callback) (host : string)
  : option Callback :=
  if isCapturing cs &&
     match targetHost cs with Some t => String.eqb t host | None => false end
  then callback else None.

(** Listener 2, [onBeforeSendHeaders]. *)
Definition onBeforeSendHeaders (now : N) (random : string) (details : Details)
    (st : Capture) : Capture * list Effect :=
  if negb (shouldCaptureRequest (detailsUrl details)) then (st, [])
  else if negb (isApiRequestType (detailsType details)) then (st, [])
  else
    let capturedRequest := buildRequest now random details st in
    let bodies := mapDelete (requestId details) (requestBodies st) in
    let requests := limitTo MAX_REQUESTS (capturedRequest :: capturedRequests st) in
    match Url.parse (CapturedRequest.url capturedRequest) with
    | Some urlObj =>
        let host := Url.host urlObj in
        let existingHost := mapGet host (hostMap st) in
        let info :=
          mkHostInfo host
            (match existingHost with Some e => requestCount e | None => 0 end + 1)
            now
            (match existingHost with Some e => hasAuth e | None => false end
             || negb (AuthType_eqb (CapturedRequest.authType capturedRequest) none)) in
        let hosts := mapSet host info (hostMap st) in
        match targetsHost (captureState st) (onCaptureCallback st) host with
        | Some callback =>
            let cs := captureState st in
            (mkCapture requests bodies hosts
               (mkCaptureState (isCapturing cs) (targetHost cs) (collectionId cs)
                  (capturedCount cs + 1) (syncedCount cs))
               (onCaptureCallback st),
             [Invoke callback capturedRequest])
        | None =>
            (mkCapture requests bodies hosts (captureState st) (onCaptureCallback st), [])
        end
    | None =>           (* catch: invalid URL, skip host tracking *)
        (mkCapture requests bodies (hostMap st) (captureState st) (onCaptureCallback st), [])
    end.

Definition getCapturedRequests (st : Capture) : list CapturedRequest.t :=
  capturedRequests st.

Definition getCapturedRequest (id : string) (st : Capture) : option CapturedRequest.t :=
  find (fun req => String.eqb (CapturedRequest.id req) id) (capturedRequests st).

Definition clearCapturedRequests (st : Capture) : Capture :=
  mkCapture [] [] (hostMap st) (captureState st) (onCaptureCallback st).

Definition startCapture (host collectionId : string) (callback : Callback) (st : Capture)
  : Capture :=
  mkCapture (capturedRequests st) (requestBodies st) (hostMap st)
    (mkCaptureState true (Some host) (Some collectionId) 0 0)
    (Some callback).

(** [stopCapture] returns a copy of the state it replaces. *)
Definition stopCapture (st : Capture) : CaptureState * Capture :=
  (captureState st,
   mkCapture (capturedRequests st) (requestBodies st) (hostMap st) idleState None).

Definition getCaptureState (st : Capture) : CaptureState := captureState st.

Definition incrementSyncedCount (st : Capture) : Capture :=
  let cs := captureState st in
  mkCapture (capturedRequests st) (requestBodies st) (hostMap st)
    (mkCaptureState (isCapturing cs) (targetHost cs) (collectionId cs)
       (capturedCount cs) (syncedCount cs + 1))
    (onCaptureCallback st).

Definition getRequestsByHost (host : string) (st : Capture) : list CapturedRequest.t :=
  filter
    (fun req =>
       match Url.parse (CapturedRequest.url req) with
       | Some urlObj => String.eqb (Url.host urlObj) host
       | None => false
       end)
    (capturedRequests st).

Definition getMostRecentRequestWithAuth (host : string) (st : Capture)
  : option CapturedRequest.t :=
  find (fun req => negb (AuthType_eqb (CapturedRequest.authType req) none))
       (getRequestsByHost host st).

(** *** The service worker as a transition system (src/background/index.ts)

    The two listeners, the START_CAPTURE and STOP_CAPTURE messages, and
    the settling of an upsert that the capture callback started: the
    callback awaits [upsertRequestInCollection] and calls
    [incrementSyncedCount] only when it did not throw. *)
Inductive Event : Type :=
| BeforeRequest (details : Details)
| BeforeSendHeaders (now : N) (random : string) (details : Details)
| StartCapture (host collectionId : string)
| StopCapture
| UpsertSettled (succeeded : bool).

(** What a transition shows outside: callback invocations, and the state
    that STOP_CAPTURE answers with. *)
Inductive Output : Type :=
| Effects (effects : list Effect)
| FinalState (state : CaptureState).

Definition step (st : Capture) (e : Event) : Capture * Output :=
  match e with
  | BeforeRequest details => (onBeforeRequest details st, Effects [])
  | BeforeSendHeaders now random details =>
      let (st', effects) := onBeforeSendHeaders now random details st in
      (st', Effects effects)
  | StartCapture host collectionId =>
      (startCapture host collectionId (UpsertInto collectionId) st, Effects [])
  | StopCapture =>
      let (finalState, st') := stopCapture st in (st', FinalState finalState)
  | UpsertSettled true => (incrementSyncedCount st, Effects [])
  | UpsertSettled false => (st, Effects [])
  end.

Fixpoint run (st : Capture) (events : list Event) : Capture * list Output :=
  match events with
  | [] => (st, [])
  | e :: rest =>
      let (st', out) := step st e in
      let (st'', outs) := run st' rest in
      (st'', out :: outs)
  end.

End RequestCapture.

(** ** src/background/postmanApi.ts *)

(** An axios error as the code reads it: [error.response?.statusText] and
    [error.message]. *)
Record AxiosError : Type := mkAxiosError {
  statusText : option string;
  message : string
}.

(** [error.response?.statusText || error.message] *)
Definition describeAxios (e : AxiosError) : string :=
  match statusText e with
  | Some s => Js.orElse s (message e)
  | None => message e
  end.

(** What an operation throws: an axios error, or an [Error] with a message. *)
Inductive Thrown : Type :=
| AxiosThrown (e : AxiosError)
| ErrorThrown (message : string).

(** The collection document: its [item] array, when present, and the rest
    of the document, which no operation reads. *)
Record Collection : Type := mkCollection {
  collectionItem : option (list Item);
  collectionInfo : string
}.

(** The world outside the service worker: the stored API key and the
    answers of the Postman API to GET and PUT /collections/{id}. *)
Record Remote : Type := mkRemote {
  storedApiKey : option string;
  getResponse : string -> AxiosError + Collection;
  putResponse : string -> Collection -> option AxiosError
}.

(** The requests sent to the Postman API, in order. *)
Inductive RemoteCall : Type :=
| Get (collectionId : string)
| Put (collectionId : string) (collection : Collection).

(** An asynchronous operation: it extends the log of remote calls and
    either throws or returns. *)
Definition Task (A : Type) : Type := list RemoteCall -> (Thrown + A) * list RemoteCall.

Definition ret {A : Type} (a : A) : Task A := fun log => (inr a, log).

Definition throw {A : Type} (t : Thrown) : Task A := fun log => (inl t, log).

Definition bind {A B : Type} (m : Task A) (k : A -> Task B) : Task B :=
  fun log =>
    match m log with
    | (inr a, log') => k a log'
    | (inl t, log') => (inl t, log')
    end.

Definition tryCatch {A : Type} (m : Task A) (handler : Thrown -> Task A) : Task A :=
  fun log =>
    match m log with
    | (inl t, log') => handler t log'
    | (inr a, log') => (inr a, log')
    end.

Notation "x <- m ;; k" := (bind m (fun x => k))
  (at level 61, m at next level, right associativity).

(** [array.findIndex(p)], [None] for -1. *)
Fixpoint findIndex {A : Type} (p : A -> bool) (l : list A) : option nat :=
  match l with
  | [] => None
  | a :: l' => if p a then Some 0 else option_map S (findIndex p l')
  end.

(** The list with [f] applied to its element at index [i], when there is one. *)
Fixpoint updateNth {A : Type} (i : nat) (f : A -> A) (l : list A) : list A :=
  match l, i with
  | [], _ => []
  | a :: l', 0 => f a :: l'
  | a :: l', S i' => a :: updateNth i' f l'
  end.

(** The node a path leads to, from a node and from the top-level array. *)
Fixpoint getIn (p : Path) (it : Item) : option Item :=
  match p with
  | [] => Some it
  | i :: p' =>
      match it with
      | mkItem _ (Some kids) _ =>
          match nth_error kids i with
          | Some k => getIn p' k
          | None => None
          end
      | mkItem _ None _ => None
      end
  end.

Definition getAt (p : Path) (items : list Item) : option Item :=
  match p with
  | [] => None
  | i :: p' =>
      match nth_error items i with
      | Some k => getIn p' k
      | None => None
      end
  end.

(** The tree after the object a path leads to was mutated by [f]. *)
Fixpoint updateIn (p : Path) (f : Item -> Item) (it : Item) : Item :=
  match p with
  | [] => f it
  | i :: p' =>
      match it with
      | mkItem n (Some kids) r => mkItem n (Some (updateNth i (updateIn p' f) kids)) r
      | mkItem _ None _ => it
      end
  end.

Definition updateAt (p : Path) (f : Item -> Item) (items : list Item) : list Item :=
  match p with
  | [] => items
  | i :: p' => updateNth i (updateIn p' f) items
  end.

Definition isAuthorization (h : RequestHeader) : bool :=
  String.eqb (Js.toLowerCase (key h)) "authorization".

(** The two branches on [authHeaderIndex]: assign [value] of the header
    found, or push a new header. *)
Definition writeAuthorization (newAuthValue : string) (header : list RequestHeader)
  : list RequestHeader :=
  match findIndex isAuthorization header with
  | Some authHeaderIndex =>
      updateNth authHeaderIndex (fun h => mkHeader (key h) newAuthValue) header
  | None => header ++ [mkHeader "Authorization" newAuthValue]
  end.

(** The mutation of [matchedRequest.request.header].  Every reference the
    matcher returns has a [request]. *)
Definition withHeader (header : list RequestHeader) (r : RequestDef) : RequestDef :=
  mkRequestDef (method r) header (url r) (body r) (auth r).

(** The request with the Authorization header value written. *)
Definition withAuthorization (newAuthValue : string) (r : RequestDef) : RequestDef :=
  withHeader (writeAuthorization newAuthValue (header r)) r.

(** The node with [g] applied to its [request]. *)
Definition onRequest (g : RequestDef -> RequestDef) (it : Item) : Item :=
  match it with
  | mkItem n kids r => mkItem n kids (option_map g r)
  end.

Definition setAuthorization (newAuthValue : string) : Item -> Item :=
  onRequest (withAuthorization newAuthValue).

Definition doubleQuote : string := String (ascii_of_nat 34) EmptyString.

(** A template literal prints [undefined] as the word. *)
Definition interpolate (v : option string) : string :=
  match v with Some s => s | None => "undefined" end.

Record UpdateResult : Type := mkUpdateResult { success : bool; requestName : string }.

Record BulkTokenUpdateResult : Type := mkBulkResult {
  updatedCount : nat;
  totalMatched : nat;
  requestNames : list string
}.

Section PostmanApi.

Context {P : Url.Parser}.
Variable remote : Remote.

(** storage.ts: [result[KEY] || null] *)
Definition getPostmanApiKey : option string :=
  match storedApiKey remote with
  | Some EmptyString => None
  | k => k
  end.

(** The request headers, represented by the API key they carry. *)
Definition getApiHeaders : Task string :=
  match getPostmanApiKey with
  | Some apiKey => ret apiKey
  | None =>
      throw (ErrorThrown
               "Postman API key not configured. Please add your API key in Settings.")
  end.

Definition axiosGet (collectionId : string) : Task Collection :=
  fun log =>
    (match getResponse remote collectionId with
     | inr c => inr c
     | inl e => inl (AxiosThrown e)
     end,
     log ++ [Get collectionId]).

Definition axiosPut (collectionId : string) (collection : Collection) : Task unit :=
  fun log =>
    (match putResponse remote collectionId collection with
     | None => inr tt
     | Some e => inl (AxiosThrown e)
     end,
     log ++ [Put collectionId collection]).

Definition getCollection (collectionId : string) : Task Collection :=
  tryCatch
    (_ <- getApiHeaders ;;
     axiosGet collectionId)
    (fun error =>
       match error with
       | AxiosThrown e =>
           throw (ErrorThrown ("Failed to fetch collection: " ++ describeAxios e)%string)
       | _ => throw error
       end).

(** [collection.item || []] *)
Definition itemsOf (collection : Collection) : list Item :=
  match collectionItem collection with Some items => items | None => [] end.

(** The collection after the object at [ref] was mutated. *)
Definition mutateAt (ref : Ref) (f : Item -> Item) (collection : Collection) : Collection :=
  mkCollection (Some (updateAt (fst ref) f (itemsOf collection)))
    (collectionInfo collection).

Definition updateTokenInCollection (collectionId : string)
    (capturedRequest : CapturedRequest.t) : Task UpdateResult :=
  tryCatch
    (_ <- getApiHeaders ;;
     collection <- getCollection collectionId ;;
     match findMatchingRequest (CapturedRequest.url capturedRequest) (itemsOf collection) with
     | None =>
         throw (ErrorThrown
                  "No matching request found in collection. The URL pattern does not match any existing requests.")
     | Some matchedRequest =>
         let newAuthValue :=
           if AuthType_eqb (CapturedRequest.authType capturedRequest) bearer
           then ("Bearer " ++ interpolate (CapturedRequest.authValue capturedRequest))%string
           else match CapturedRequest.authValue capturedRequest with
                | Some v => v
                | None => EmptyString
                end in
         let collection := mutateAt matchedRequest (setAuthorization newAuthValue) collection in
         _ <- axiosPut collectionId collection ;;
         ret (mkUpdateResult true (name (snd matchedRequest)))
     end)
    (fun error =>
       match error with
       | AxiosThrown e =>
           throw (ErrorThrown ("Failed to update token: " ++ describeAxios e)%string)
       | _ => throw error
       end).

Definition updateTokenForHost (collectionId host authValue : string) (authType : AuthType)
  : Task BulkTokenUpdateResult :=
  tryCatch
    (_ <- getApiHeaders ;;
     collection <- getCollection collectionId ;;
     let matchingRequests := findAllRequestsForHost host (itemsOf collection) in
     match matchingRequests with
     | [] =>
         throw (ErrorThrown
                  ("No requests found for host " ++ doubleQuote ++ host ++ doubleQuote
                   ++ " in this collection.")%string)
     | _ =>
         let newAuthValue :=
           if AuthType_eqb authType bearer then ("Bearer " ++ authValue)%string
           else authValue in
         let collection :=
           fold_left (fun c request => mutateAt request (setAuthorization newAuthValue) c)
                     matchingRequests collection in
         let updatedNames := map (fun request => name (snd request)) matchingRequests in
         _ <- axiosPut collectionId collection ;;
         ret (mkBulkResult (List.length matchingRequests) (List.length matchingRequests)
                updatedNames)
     end)
    (fun error =>
       match error with
       | AxiosThrown e =>
           throw (ErrorThrown ("Failed to update tokens: " ++ describeAxios e)%string)
       | _ => throw error
       end).

(** *** The UPDATE_TOKEN handler of src/background/index.ts *)

(** [MessageResponse]; [data] is represented by its [message]. *)
Record MessageResponse : Type := mkResponse {
  responseSuccess : bool;
  responseData : option string;
  responseError : option string
}.

(** [error instanceof Error ? error.message : ...]; an axios error is an
    [Error] too. *)
Definition errorMessage (error : Thrown) : string :=
  match error with
  | ErrorThrown m => m
  | AxiosThrown e => message e
  end.

Definition handleUpdateToken (requestId collectionId : string) (st : Capture)
  : Task MessageResponse :=
  tryCatch
    (match getCapturedRequest requestId st with
     | None =>
         ret (mkResponse false None
                (Some "Request not found. It may have been cleared from the capture list."))
     | Some request =>
         result <- updateTokenInCollection collectionId request ;;
         ret (mkResponse true
                (Some ("Token updated in " ++ doubleQuote ++ requestName result
                       ++ doubleQuote ++ "!")%string)
                None)
     end)
    (fun error => ret (mkResponse false None (Some (errorMessage error)))).

End PostmanApi.

(** ** Vocabulary of the specification

    The words of the specification of the classifier (its section 4.1),
    written without the functions of the code: a prefix, a substring and a
    case-insensitive substring are existence statements on strings. *)

Definition StartsWith (p s : string) : Prop := exists r, s = (p ++ r)%string.

Definition Contains (p s : string) : Prop := exists a b, s = (a ++ p ++ b)%string.

Fixpoint asciiUpperString (s : string) : string :=
  match s with
  | EmptyString => EmptyString
  | String c s' => String (Regex.asciiUpper c) (asciiUpperString s')
  end.

(** [p] occurs in [s] up to the case of ASCII letters. *)
Definition ContainsI (p s : string) : Prop :=
  exists a m b, s = (a ++ m ++ b)%string /\ asciiUpperString m = asciiUpperString p.

(** The header name, compared without regard to case. *)
Definition Named (n : string) (h : RequestHeader) : Prop := Js.toLowerCase (key h) = n.

Definition sessionCookieNames : list string :=
  [ "sessionid="; "session="; "sid="; "connect.sid=";
    "PHPSESSID="; "JSESSIONID="; "ASP.NET_SessionId=" ].

(** The conditions of rules 1 to 4 on one header. *)
Definition BearerRule (h : RequestHeader) : Prop :=
  Named "authorization" h /\ StartsWith "Bearer " (value h).

Definition BasicRule (h : RequestHeader) : Prop :=
  Named "authorization" h /\ StartsWith "Basic " (value h).

Definition ApiKeyRule (h : RequestHeader) : Prop :=
  Contains "api-key" (Js.toLowerCase (key h)) \/ Contains "apikey" (Js.toLowerCase (key h)).

Definition CookieRule (h : RequestHeader) : Prop :=
  Named "cookie" h /\ exists n, In n sessionCookieNames /\ ContainsI n (value h).

(** Section 4.1 as a relation between a header list and a descriptor:
    headers are taken in order; the first header to which a rule applies
    decides, by the first rule that applies to it; rule 5 is the end of
    the list. *)
Inductive Classifies : list RequestHeader -> AuthInfo -> Prop :=
| ClassifiesBearer h rest r :
    Named "authorization" h -> value h = ("Bearer " ++ r)%string ->
    Classifies (h :: rest) (mkAuthInfo bearer (Some (Js.trim r)))
| ClassifiesBasic h rest r :
    ~ BearerRule h ->
    Named "authorization" h -> value h = ("Basic " ++ r)%string ->
    Classifies (h :: rest) (mkAuthInfo basic (Some (Js.trim r)))
| ClassifiesApiKey h rest :
    ~ BearerRule h -> ~ BasicRule h -> ApiKeyRule h ->
    Classifies (h :: rest) (mkAuthInfo apikey (Some (value h)))
| ClassifiesCookie h rest :
    ~ BearerRule h -> ~ BasicRule h -> ~ ApiKeyRule h -> CookieRule h ->
    Classifies (h :: rest) (mkAuthInfo cookie (Some (value h)))
| ClassifiesNext h rest info :
    ~ BearerRule h -> ~ BasicRule h -> ~ ApiKeyRule h -> ~ CookieRule h ->
    Classifies rest info ->
    Classifies (h :: rest) info
| ClassifiesNone :
    Classifies [] (mkAuthInfo none None).

(** The words of the specification of the normalizer (its section 4.2):
    a path is a sequence of segments, each behind a slash. *)
Fixpoint joinSegments (segments : list string) : string :=
  match segments with
  | [] => EmptyString
  | seg :: rest => String "/" (seg ++ joinSegments rest)
  end.

Definition notSlash (c : ascii) : bool := negb (Ascii.eqb c "/").

Definition slashFree (s : string) : bool := Js.allChars notSlash s.

(** A pattern that begins with a slash and accepts no other slash. *)
Definition rejectsSlash (a : Regex.Atom) : bool :=
  match a with
  | Regex.Lit c => notSlash c
  | Regex.LitI c => negb (Regex.eqbI c "/")
  | Regex.Exactly _ cls | Regex.AtLeast _ cls => negb (cls "/"%char)
  end.

Definition segmentPattern (p : Regex.Pattern) : bool :=
  match p with
  | Regex.Lit c :: q => Ascii.eqb c "/" && forallb rejectsSlash q
  | _ => false
  end.

(** What one replacement does to one segment: the part of the segment
    that the pattern matches behind the slash gives way to the
    replacement, :id in the normalizer. *)
Definition replaceInSegmentBy (p : Regex.Pattern) (b seg : string) : string :=
  match Regex.matchHere p (String "/" seg) with
  | Some (S n) => (b ++ Js.substringFrom n seg)%string
  | _ => seg
  end.

Definition replaceInSegment (p : Regex.Pattern) (seg : string) : string :=
  replaceInSegmentBy p ":id" seg.

(** A text that is empty or begins with a slash: what follows a segment. *)
Definition Boundary (R : string) : Prop := R = EmptyString \/ exists R', R = String "/" R'.

(** The four replacements on one segment, in order. *)
Definition normalizeSegment (seg : string) : string :=
  replaceInSegment objectIdPattern
    (replaceInSegment alphanumericPattern
       (replaceInSegment numericPattern
          (replaceInSegment uuidPattern seg))).

(** [n] characters of the class. *)
Definition Run (n : nat) (cls : ascii -> bool) (s : string) : Prop :=
  String.length s = n /\ Js.allChars cls s = true.

(** The canonical shape of a UUID: 8-4-4-4-12 hexadecimal digits. *)
Definition UuidShape (seg : string) : Prop :=
  exists a b c d e,
    seg = (a ++ "-" ++ b ++ "-" ++ c ++ "-" ++ d ++ "-" ++ e)%string
    /\ Run 8 Regex.hexDigit a /\ Run 4 Regex.hexDigit b /\ Run 4 Regex.hexDigit c
    /\ Run 4 Regex.hexDigit d /\ Run 12 Regex.hexDigit e.

(** The words of the specification of the matcher (its sections 3 and
    4.3).  A node with an [item] array is a folder, any other node a leaf;
    in a document every node is one or the other, so a folder carries no
    request of its own. *)
Fixpoint leavesOf (it : Item) : list Item :=
  match it with
  | mkItem _ (Some kids) _ => flat_map leavesOf kids
  | mkItem _ None _ => [it]
  end.

(** The leaves of a tree, depth first, children in their order. *)
Definition leaves (items : list Item) : list Item := flat_map leavesOf items.

Fixpoint folderOrLeaf (it : Item) : bool :=
  match it with
  | mkItem _ (Some kids) None => forallb folderOrLeaf kids
  | mkItem _ (Some _) (Some _) => false
  | mkItem _ None _ => true
  end.

Definition Document (items : list Item) : Prop := forallb folderOrLeaf items = true.

(** [result] is the first element of [l] with property [Q], or nothing
    when no element has it. *)
Definition FirstWhere {A : Type} (Q : A -> Prop) (l : list A) (result : option A) : Prop :=
  match result with
  | Some x => exists pre post, l = pre ++ x :: post /\ Q x /\ forall y, In y pre -> ~ Q y
  | None => forall y, In y l -> ~ Q y
  end.

Section MatcherVocabulary.

Context {P : Url.Parser}.

(** The URL of the leaf can be extracted, and its normalized form is the
    normalized captured URL. *)
Definition SamePattern (capturedUrl : string) (it : Item) : Prop :=
  exists r postmanUrl,
    request it = Some r /\ extractPostmanUrl r = Returned postmanUrl /\
    normalizeUrlValue postmanUrl = Some (normalizeUrl capturedUrl).

(** The methods are equal without regard to case; a leaf that states no
    method counts as GET. *)
Definition SameMethod (method : string) (it : Item) : Prop :=
  exists r, request it = Some r /\ Js.toUpperCase method = postmanMethod r.

End MatcherVocabulary.

(** *** Example documents *)

Definition getLeaf (name url : string) : Item :=
  mkItem name None (Some (mkRequestDef (Some "GET") [] (UrlString url) None None)).

Definition item42 : Item := getLeaf "Get item" "https://api.x.com/items/42".

(** A leaf that states no method, its URL in object form. *)
Definition listItems : Item :=
  mkItem "List items" None
    (Some (mkRequestDef None [] (UrlObject (Some "https://api.x.com/items/42")) None None)).

(** A folder holding a request without a url and the leaf [item42]. *)
Definition itemsTree : list Item :=
  [ mkItem "Items" (Some [ mkItem "Draft" None (Some (mkRequestDef None [] UrlMissing None None));
                           item42 ]) None ].


(** The words of the specification of the capture buffer and of the
    capture session (its sections 3 and 4.4). *)

(** The event passes the filters of the listeners. *)
Definition admitted (details : Details) : bool :=
  shouldCaptureRequest (detailsUrl details) && isApiRequestType (detailsType details).

(** Neither START_CAPTURE nor STOP_CAPTURE. *)
Definition isTraffic (e : Event) : bool :=
  match e with
  | StartCapture _ _ | StopCapture => false
  | _ => true
  end.

Definition syncSucceeded (e : Event) : bool :=
  match e with
  | UpsertSettled true => true
  | _ => false
  end.

Definition effectsOf (outputs : list Output) : list Effect :=
  flat_map (fun o => match o with Effects l => l | FinalState _ => [] end) outputs.

(** A session armed for [host], with its callback and its two counters. *)
Definition Armed (host collectionId : string) (callback : Callback)
    (captured synced : nat) (st : Capture) : Prop :=
  captureState st = mkCaptureState true (Some host) (Some collectionId) captured synced
  /\ onCaptureCallback st = Some callback.

Section CaptureVocabulary.

Context {P : Url.Parser}.

(** The requests recorded during a run, oldest first. *)
Fixpoint recorded (st : Capture) (events : list Event) : list CapturedRequest.t :=
  match events with
  | [] => []
  | e :: rest =>
      match e with
      | BeforeSendHeaders now random details =>
          if admitted details then [buildRequest now random details st] else []
      | _ => []
      end ++ recorded (fst (step st e)) rest
  end.

(** The URL of the request parses and its host is [h]. *)
Definition hasUrlHost (h : string) (req : CapturedRequest.t) : bool :=
  match Url.parse (CapturedRequest.url req) with
  | Some urlObj => String.eqb (Url.host urlObj) h
  | None => false
  end.

End CaptureVocabulary.

(** *** Example traffic *)

Definition fetchOf (url : string) : Details :=
  mkDetails "1" url "GET" "fetch" (Some [("Accept", Some "*/*")]) None.

(** [n] fetches of https://api.x.com/items/0, /1, ..., one per millisecond. *)
Definition fetches (n : nat) : list Event :=
  map (fun i => BeforeSendHeaders (N.of_nat i) "k3j9x0q1z"
                  (fetchOf ("https://api.x.com/items/" ++ Js.decimal (N.of_nat i))%string))
      (seq 0 n).

(** Three fetches to api.x.com and one to another host; two upserts
    succeed and one fails. *)
Definition sessionTraffic : list Event :=
  [ BeforeSendHeaders 1 "a" (fetchOf "https://api.x.com/items/1");
    BeforeSendHeaders 2 "b" (fetchOf "https://cdn.y.com/data.json");
    BeforeSendHeaders 3 "c" (fetchOf "https://api.x.com/items/2");
    UpsertSettled true;
    BeforeSendHeaders 4 "d" (fetchOf "https://api.x.com/items/3");
    UpsertSettled false;
    UpsertSettled true ].

(** The words of the specification of the orchestrator (its section 4.5). *)

(** [hs'] is [hs] with the value of its first Authorization header
    replaced by [v], or, when [hs] has no Authorization header, with a new
    one added at the end. *)
Definition AuthorizationSet (v : string) (hs hs' : list RequestHeader) : Prop :=
  (exists pre h post,
      hs = pre ++ h :: post /\ Named "authorization" h /\
      (forall x, In x pre -> ~ Named "authorization" x) /\
      hs' = pre ++ mkHeader (key h) v :: post)
  \/ ((forall x, In x hs -> ~ Named "authorization" x) /\
      hs' = hs ++ [mkHeader "Authorization" v]).

(** The authentication fields of the request are what the classifier
    makes of its headers; the capture path builds every request so. *)
Definition Classified (req : CapturedRequest.t) : Prop :=
  CapturedRequest.authType req = type (detectAuthType (CapturedRequest.headers req))
  /\ CapturedRequest.authValue req
     = authInfoValue (detectAuthType (CapturedRequest.headers req)).

(** The value that [updateTokenInCollection] writes: [newAuthValue]. *)
Definition newAuthValueOf (req : CapturedRequest.t) : string :=
  if AuthType_eqb (CapturedRequest.authType req) bearer
  then ("Bearer " ++ interpolate (CapturedRequest.authValue req))%string
  else match CapturedRequest.authValue req with Some v => v | None => EmptyString end.

(** The tree with [g] applied to every request that passes [test]; names,
    folders and the order of the nodes stay as they are. *)
Fixpoint updateRequests (test : RequestDef -> bool) (g : RequestDef -> RequestDef)
    (it : Item) : Item :=
  match it with
  | mkItem n kids r =>
      mkItem n
        (option_map (map (updateRequests test g)) kids)
        (option_map (fun r => if test r then g r else r) r)
  end.

(** *** An example collection and an example remote *)

Definition bearerLeaf (name url : string) : Item :=
  mkItem name None
    (Some (mkRequestDef (Some "GET") [mkHeader "authorization" "Bearer old"; mkHeader "Accept" "*/*"]
             (UrlString url) None None)).

(** Three leaves for api.h.com, one of them in a folder and one without an
    Authorization header, and one leaf for api.y.com. *)
Definition hostCollection : Collection :=
  mkCollection
    (Some [ bearerLeaf "List users" "https://api.h.com/users";
            mkItem "Orders"
              (Some [ bearerLeaf "Get order" "https://api.h.com/orders/17";
                      bearerLeaf "Other host" "https://api.y.com/orders/17" ])
              None;
            getLeaf "Ping" "https://api.h.com/ping" ])
    "info".

(** A captured request for api.h.com with a bearer token, and one
    without any credential. *)
Definition orderRequest : CapturedRequest.t :=
  CapturedRequest.mk "1-a" 1 "GET" "https://api.h.com/orders/99"
    [mkHeader "Authorization" "Bearer new"] None bearer (Some "new").

Definition anonymousRequest : CapturedRequest.t :=
  CapturedRequest.mk "2-b" 2 "GET" "https://api.h.com/ping"
    [mkHeader "Accept" "*/*"] None none None.

(** [hostCollection] with the credential of api.h.com set to Bearer new. *)
Definition rotatedLeaf (name url : string) : Item :=
  mkItem name None
    (Some (mkRequestDef (Some "GET") [mkHeader "authorization" "Bearer new"; mkHeader "Accept" "*/*"]
             (UrlString url) None None)).

Definition rotatedCollection : Collection :=
  mkCollection
    (Some [ rotatedLeaf "List users" "https://api.h.com/users";
            mkItem "Orders"
              (Some [ rotatedLeaf "Get order" "https://api.h.com/orders/17";
                      bearerLeaf "Other host" "https://api.y.com/orders/17" ])
              None;
            mkItem "Ping" None
              (Some (mkRequestDef (Some "GET") [mkHeader "Authorization" "Bearer new"]
                       (UrlString "https://api.h.com/ping") None None)) ])
    "info".

(** A remote that holds [collection] under every id and accepts every PUT. *)
Definition remoteHolding (collection : Collection) : Remote :=
  mkRemote (Some "PMAK-1") (fun _ => inr collection) (fun _ _ => None).

(** ** More of the program

    The functions of the same files that the sections above leave out. *)

(** *** src/utils/authDetector.ts: the display helper *)

(** [s.substring(start, end)] for [start <= end]. *)
Definition jsSubstring (start end_ : nat) (s : string) : string :=
  String.substring start (end_ - start) s.

Definition extractTokenForDisplay (authValue : string) (authType : AuthType) : string :=
  match authValue with
  | EmptyString => EmptyString       (* if (!authValue) return '' *)
  | _ =>
      match authType with
      | bearer | basic =>
          if 40 <? String.length authValue
          then (jsSubstring 0 20 authValue ++ "..."
                ++ Js.substringFrom (String.length authValue - 10) authValue)%string
          else authValue
      | apikey =>
          if 20 <? String.length authValue
          then (jsSubstring 0 15 authValue ++ "...")%string
          else authValue
      | cookie => "Session cookie"
      | none => EmptyString
      end
  end.

(** *** src/utils/urlMatcher.ts: the similarity score *)

(** [s.split(sep)] for a separator of one character. *)
Fixpoint split (sep : ascii) (s : string) : list string :=
  match s with
  | EmptyString => [EmptyString]
  | String c s' =>
      if Ascii.eqb c sep then EmptyString :: split sep s'
      else
        match split sep s' with
        | seg :: rest => String c seg :: rest
        | [] => [String c EmptyString]
        end
  end.

(** [s => s.length > 0] *)
Definition nonEmpty (s : string) : bool := 0 <? String.length s.

(** [normalized.split('/').filter(s => s.length > 0)] *)
Definition segmentsOf (normalized : string) : list string :=
  filter nonEmpty (split "/" normalized).

(** The loop over [i < minLength]: the positions at which the two lists
    hold the same segment. *)
Fixpoint countMatches (segments1 segments2 : list string) : nat :=
  match segments1, segments2 with
  | a :: rest1, b :: rest2 => (if String.eqb a b then 1 else 0) + countMatches rest1 rest2
  | _, _ => 0
  end.

(** The quotient [n / d] of two integers, [d] positive. *)
Definition ratio (n d : nat) : QArith_base.Q :=
  QArith_base.Qmake (BinInt.Z.of_nat n) (Pos.of_nat d).

Section UrlSimilarity.

Context {P : Url.Parser}.

(** The score is 1.0, 0 or the quotient of two small integers; it is kept
    as that quotient, of which the number returned is the nearest double. *)
Definition calculateUrlSimilarity (url1 url2 : string) : QArith_base.Q :=
  let normalized1 := normalizeUrl url1 in
  let normalized2 := normalizeUrl url2 in
  if String.eqb normalized1 normalized2 then ratio 1 1
  else
    let segments1 := segmentsOf normalized1 in
    let segments2 := segmentsOf normalized2 in
    let maxLength := Nat.max (List.length segments1) (List.length segments2) in
    if maxLength =? 0 then ratio 0 1
    else
      let matches := countMatches segments1 segments2 in
      ratio matches maxLength.

End UrlSimilarity.

(** *** src/background/requestCapture.ts: the host list *)

(** [Array.prototype.sort] with the comparator
    [(a, b) => b.lastSeen - a.lastSeen].  The sort is stable: the result
    is in descending order of [lastSeen], and entries with the same
    [lastSeen] keep their order. *)
Fixpoint insertByLastSeen (x : HostInfo) (sorted : list HostInfo) : list HostInfo :=
  match sorted with
  | [] => [x]
  | y :: rest =>
      if (lastSeen y <=? lastSeen x)%N then x :: sorted
      else y :: insertByLastSeen x rest
  end.

Definition sortByLastSeen (hosts : list HostInfo) : list HostInfo :=
  fold_right insertByLastSeen [] hosts.

(** [Array.from(hostMap.values())], sorted. *)
Definition getUniqueHosts (st : Capture) : list HostInfo :=
  sortByLastSeen (map snd (hostMap st)).

(** *** src/background/storage.ts *)

Definition savePostmanApiKey (apiKey : string) (remote : Remote) : Remote :=
  mkRemote (Some apiKey) (getResponse remote) (putResponse remote).

Definition removePostmanApiKey (remote : Remote) : Remote :=
  mkRemote None (getResponse remote) (putResponse remote).

(** [apiKey !== null && apiKey.length > 0] *)
Definition hasPostmanApiKey (remote : Remote) : bool :=
  match getPostmanApiKey remote with
  | Some apiKey => 0 <? String.length apiKey
  | None => false
  end.

(** *** src/background/postmanApi.ts: create and upsert *)

(** The [auth] block of a formatted request. *)
Inductive PostmanAuth : Type :=
| BearerAuth (token : string)     (* bearer: key token *)
| BasicAuth (password : string)   (* basic: key password *)
| ApiKeyAuth (value : string).    (* apikey: key Authorization, value *)

(** [if (request.authType !== 'none' && request.authValue)] and the
    [switch] below it, which has no case for cookie. *)
Definition formatAuth (request : CapturedRequest.t) : option PostmanAuth :=
  match CapturedRequest.authValue request with
  | None | Some EmptyString => None
  | Some authValue =>
      match CapturedRequest.authType request with
      | bearer => Some (BearerAuth authValue)
      | basic => Some (BasicAuth authValue)
      | apikey => Some (ApiKeyAuth authValue)
      | cookie | none => None
      end
  end.

(** What the formatting takes from the platform and from parts of the
    document that this development keeps as text: the message of the
    TypeError of [new URL], the body block made of a captured body, and
    the text of an auth block. *)
Class Formatter : Type := mkFormatter {
  invalidUrlMessage : string;
  formatBody : option string -> option string;
  renderAuth : PostmanAuth -> string
}.

Inductive UpsertAction : Type := created | updated.

Module UpsertResult.
Record t : Type := mk { action : UpsertAction; requestName : string }.
End UpsertResult.

(** [existingRequest.request = formattedRequest.request;
     existingRequest.name = formattedRequest.name] *)
Definition overwriteWith (formattedRequest existingRequest : Item) : Item :=
  mkItem (name formattedRequest) (item existingRequest) (request formattedRequest).

(** [if (!collection.item) collection.item = []; collection.item.push(x)] *)
Definition pushItem (x : Item) (collection : Collection) : Collection :=
  mkCollection (Some (itemsOf collection ++ [x])) (collectionInfo collection).

Section CreateAndUpsert.

Context {P : Url.Parser} {F : Formatter}.
Variable remote : Remote.

(** [formatRequestForPostman]: the name, the method, a copy of the
    headers, and the URL object, of which the matchers read [raw];
    [new URL(request.url)] throws on a URL that does not parse. *)
Definition formatRequestForPostman (request : CapturedRequest.t) : Thrown + Item :=
  match Url.parse (CapturedRequest.url request) with
  | None => inl (ErrorThrown invalidUrlMessage)
  | Some url =>
      inr (mkItem (CapturedRequest.method request ++ " " ++ Url.pathname url)%string None
             (Some (mkRequestDef
                      (Some (CapturedRequest.method request))
                      (map (fun h => mkHeader (key h) (value h))
                           (CapturedRequest.headers request))
                      (UrlObject (Some (CapturedRequest.url request)))
                      (formatBody (CapturedRequest.body request))
                      (option_map renderAuth (formatAuth request)))))
  end.

Definition createRequestInCollection (collectionId : string)
    (capturedRequest : CapturedRequest.t) : Task UpdateResult :=
  tryCatch
    (_ <- getApiHeaders remote ;;
     collection <- getCollection remote collectionId ;;
     match formatRequestForPostman capturedRequest with
     | inl error => throw error
     | inr newRequest =>
         let collection := pushItem newRequest collection in
         _ <- axiosPut remote collectionId collection ;;
         ret (mkUpdateResult true (name newRequest))
     end)
    (fun error =>
       match error with
       | AxiosThrown e =>
           throw (ErrorThrown ("Failed to create request: " ++ describeAxios e)%string)
       | _ => throw error
       end).

Definition upsertRequestInCollection (collectionId : string)
    (capturedRequest : CapturedRequest.t) : Task UpsertResult.t :=
  tryCatch
    (_ <- getApiHeaders remote ;;
     collection <- getCollection remote collectionId ;;
     let existingRequest :=
       findMatchingRequestWithMethod (CapturedRequest.url capturedRequest)
         (CapturedRequest.method capturedRequest) (itemsOf collection) in
     match formatRequestForPostman capturedRequest with
     | inl error => throw error
     | inr formattedRequest =>
         match existingRequest with
         | Some ref =>
             let collection := mutateAt ref (overwriteWith formattedRequest) collection in
             _ <- axiosPut remote collectionId collection ;;
             ret (UpsertResult.mk updated (name formattedRequest))
         | None =>
             let collection := pushItem formattedRequest collection in
             _ <- axiosPut remote collectionId collection ;;
             ret (UpsertResult.mk created (name formattedRequest))
         end
     end)
    (fun error =>
       match error with
       | AxiosThrown e =>
           throw (ErrorThrown ("Failed to upsert request: " ++ describeAxios e)%string)
       | _ => throw error
       end).

(** *** The SAVE_TO_POSTMAN and UPDATE_HOST_TOKEN handlers of
    src/background/index.ts *)

Definition handleSaveToPostman (requestId collectionId : string) (st : Capture)
  : Task MessageResponse :=
  tryCatch
    (match getCapturedRequest requestId st with
     | None =>
         ret (mkResponse false None
                (Some "Request not found. It may have been cleared from the capture list."))
     | Some request =>
         result <- createRequestInCollection collectionId request ;;
         ret (mkResponse true
                (Some ("Request " ++ doubleQuote ++ requestName result ++ doubleQuote
                       ++ " created successfully in Postman!")%string)
                None)
     end)
    (fun error => ret (mkResponse false None (Some (errorMessage error)))).

Definition handleUpdateHostToken (host collectionId : string) (st : Capture)
  : Task MessageResponse :=
  tryCatch
    (match getMostRecentRequestWithAuth host st with
     | None =>
         ret (mkResponse false None
                (Some ("No authenticated requests found for host " ++ doubleQuote ++ host
                       ++ doubleQuote)%string))
     | Some authRequest =>
         result <- updateTokenForHost remote collectionId host
                     (match CapturedRequest.authValue authRequest with
                      | Some v => v
                      | None => EmptyString
                      end)
                     (CapturedRequest.authType authRequest) ;;
         ret (mkResponse true
                (Some ("Updated token in " ++ Js.decimal (N.of_nat (updatedCount result))
                       ++ " requests")%string)
                None)
     end)
    (fun error => ret (mkResponse false None (Some (errorMessage error)))).

End CreateAndUpsert.

(** *** src/utils/messaging.ts: the popup side of two messages *)

(** What [chrome.runtime.sendMessage] hands to its callback:
    [chrome.runtime.lastError] set, no response, or the response. *)
Inductive Delivery : Type :=
| LastError (message : string)
| NoResponse
| Delivered (response : MessageResponse).

(** [sendMessage]: the promise resolves with the response or rejects. *)
Definition sendMessage (delivery : Delivery) : Thrown + MessageResponse :=
  match delivery with
  | LastError message => inl (ErrorThrown message)
  | NoResponse => inl (ErrorThrown "No response from background service")
  | Delivered response => inr response
  end.

(** The body shared by the wrappers: throw [response.error || fallback]
    unless the response succeeded, else return [response.data]. *)
Definition unwrapResponse (fallback : string) (delivery : Delivery)
  : Thrown + option string :=
  match sendMessage delivery with
  | inl error => inl error
  | inr response =>
      if negb (responseSuccess response)
      then inl (ErrorThrown
                  (match responseError response with
                   | Some error => Js.orElse error fallback
                   | None => fallback
                   end))
      else inr (responseData response)
  end.

(** [updateToken], [saveToPostman] and [updateHostToken] of the popup,
    given the delivery of their message. *)
Definition updateToken : Delivery -> Thrown + option string :=
  unwrapResponse "Failed to update token".

Definition saveToPostman : Delivery -> Thrown + option string :=
  unwrapResponse "Failed to save to Postman".

Definition updateHostToken : Delivery -> Thrown + option string :=
  unwrapResponse "Failed to update host token".

(** ** More vocabulary *)

Definition EndsWith (p s : string) : Prop := exists r, s = (r ++ p)%string.

(** The schemes of the pages and resources of the browser itself. *)
Definition internalPrefixes : list string :=
  [ "chrome://"; "chrome-extension://"; "edge://"; "about:"; "data:"; "blob:" ].

(** The request carries a credential that the classifier recognized. *)
Definition hasCredential (req : CapturedRequest.t) : bool :=
  negb (AuthType_eqb (CapturedRequest.authType req) none).

(** No capture session is running. *)
Definition Idle (st : Capture) : Prop :=
  isCapturing (captureState st) = false
  /\ targetHost (captureState st) = None
  /\ collectionId (captureState st) = None
  /\ capturedCount (captureState st) = 0
  /\ onCaptureCallback st = None.

(** The entry of the host map for [h] agrees with the requests [seen]
    that were recorded for that host. *)
Definition HostTally (h : string) (seen : list CapturedRequest.t) (entry : option HostInfo)
  : Prop :=
  match entry with
  | Some info =>
      host info = h
      /\ requestCount info = List.length seen
      /\ hasAuth info = existsb hasCredential seen
      /\ seen <> []
  | None => seen = []
  end.

(** A response that reports success carries data and no error; one that
    reports failure carries an error and no data. *)
Definition Answered (response : MessageResponse) : Prop :=
  (responseSuccess response = true
   /\ (exists data, responseData response = Some data)
   /\ responseError response = None)
  \/ (responseSuccess response = false
      /\ responseData response = None
      /\ exists error, responseError response = Some error).

(** The URL of the node can be extracted and parses, and its host is
    [h]. *)
Definition HasHost {P : Url.Parser} (h : string) (it : Item) : Prop :=
  exists r postmanUrl urlObj,
    request it = Some r /\ extractPostmanUrl r = Returned postmanUrl
    /\ Url.parse (match postmanUrl with Some u => u | None => "undefined" end) = Some urlObj
    /\ Url.host urlObj = h.

(** *** An example formatter *)

#[global] Instance exampleFormatter : Formatter :=
  mkFormatter "Invalid URL" (fun body => body)
    (fun auth =>
       match auth with
       | BearerAuth token => ("bearer " ++ token)%string
       | BasicAuth password => ("basic " ++ password)%string
       | ApiKeyAuth value => ("apikey " ++ value)%string
       end).

(* ================================================================== *)
(** * Part II — properties *)
(* ================================================================== *)

(** ** Strings *)

Lemma startsWith_iff (p s : string) : Js.startsWith p s = true <-> StartsWith p s.
Proof.
  revert s; induction p as [|a p IH]; intros s; simpl.
  - split; [intros _; exists s; reflexivity | reflexivity].
  - destruct s as [|b s].
    + split; [discriminate | intros [r H]; discriminate].
    + rewrite andb_true_iff, Ascii.eqb_eq, IH. split.
      * intros [-> [r ->]]. exists r. reflexivity.
      * intros [r H]. simpl in H. injection H as -> ->.
        split; [reflexivity | exists r; reflexivity].
Qed.

Lemma substringFrom_append (p r : string) :
  Js.substringFrom (String.length p) (p ++ r) = r.
Proof. induction p as [|a p IH]; simpl; [now destruct r | exact IH]. Qed.

Lemma includes_iff (p s : string) : Js.includes p s = true <-> Contains p s.
Proof.
  induction s as [|c s IH].
  - simpl. rewrite orb_false_r, startsWith_iff. split.
    + intros [r H]. exists EmptyString, r. exact H.
    + intros [a [b H]]. destruct a; [exists b; exact H | discriminate].
  - change (Js.includes p (String c s))
      with (Js.startsWith p (String c s) || Js.includes p s).
    rewrite orb_true_iff, startsWith_iff, IH. split.
    + intros [[r H] | [a [b H]]].
      * exists EmptyString, r. exact H.
      * exists (String c a), b. simpl. now rewrite H.
    + intros [a [b H]]. destruct a as [|x a].
      * left. exists b. exact H.
      * right. simpl in H. injection H as _ H. exists a, b. exact H.
Qed.

Lemma matchHere_literalI (p s : string) :
  (exists n, Regex.matchHere (Regex.literalI p) s = Some n) <->
  (exists m b, s = (m ++ b)%string /\ asciiUpperString m = asciiUpperString p).
Proof.
  revert s; induction p as [|c p IH]; intros s; simpl.
  - split.
    + intros _. exists EmptyString, s. split; reflexivity.
    + intros _. exists 0. reflexivity.
  - destruct s as [|d s].
    + split; [intros [n H]; discriminate |].
      intros [m [b [H1 H2]]]. destruct m; discriminate.
    + unfold Regex.eqbI. destruct (Ascii.eqb_spec (Regex.asciiUpper c) (Regex.asciiUpper d)) as [E|E].
      * split.
        -- intros [n H].
           destruct (Regex.matchHere (Regex.literalI p) s) as [k|] eqn:K; [|discriminate].
           destruct (proj1 (IH s) (ex_intro _ k K)) as [m [b [-> H2]]].
           exists (String d m), b. split; [reflexivity|]. simpl. now rewrite H2, E.
        -- intros [m [b [H1 H2]]]. destruct m as [|x m]; [discriminate|].
           simpl in H1, H2. injection H1 as -> ->. injection H2 as _ H2.
           destruct (proj2 (IH (m ++ b)%string)) as [k K].
           { exists m, b. split; [reflexivity | exact H2]. }
           rewrite K. exists (S k). reflexivity.
      * split; [intros [n H]; discriminate|].
        intros [m [b [H1 H2]]]. destruct m as [|x m]; [discriminate|].
        simpl in H1, H2. injection H1 as -> ->. injection H2 as H2 _.
        symmetry in H2. contradiction.
Qed.

Lemma test_literalI_iff (p s : string) :
  Regex.test (Regex.literalI p) s = true <-> ContainsI p s.
Proof.
  induction s as [|c s IH].
  - simpl. destruct (Regex.matchHere (Regex.literalI p) EmptyString) as [n|] eqn:M.
    + split; [intros _ | reflexivity].
      destruct (proj1 (matchHere_literalI p EmptyString) (ex_intro _ n M)) as [m [b [H1 H2]]].
      exists EmptyString, m, b. split; assumption.
    + split; [discriminate|]. intros [a [m [b [H1 H2]]]].
      destruct a; [|discriminate]. simpl in H1.
      destruct (proj2 (matchHere_literalI p EmptyString)) as [n N].
      { exists m, b. split; assumption. }
      congruence.
  - simpl. destruct (Regex.matchHere (Regex.literalI p) (String c s)) as [n|] eqn:M.
    + split; [intros _ | reflexivity].
      destruct (proj1 (matchHere_literalI p (String c s)) (ex_intro _ n M)) as [m [b [H1 H2]]].
      exists EmptyString, m, b. split; assumption.
    + rewrite IH. split.
      * intros [a [m [b [H1 H2]]]]. exists (String c a), m, b.
        split; [simpl; now rewrite H1 | exact H2].
      * intros [a [m [b [H1 H2]]]]. destruct a as [|x a].
        -- simpl in H1. destruct (proj2 (matchHere_literalI p (String c s))) as [n N].
           { exists m, b. split; assumption. }
           congruence.
        -- simpl in H1. injection H1 as _ H1. exists a, m, b. split; assumption.
Qed.

(** ** The auth classifier *)

Lemma apiKeyName_iff (n : string) :
  (String.eqb n "x-api-key" || String.eqb n "api-key" || String.eqb n "apikey"
   || Js.includes "api-key" n || Js.includes "apikey" n) = true
  <-> (Contains "api-key" n \/ Contains "apikey" n).
Proof.
  rewrite !orb_true_iff, !String.eqb_eq, !includes_iff. split.
  - intros [[[[-> | ->] | ->] | H] | H]; auto.
    + left. exists "x-", EmptyString. reflexivity.
    + left. exists EmptyString, EmptyString. reflexivity.
    + right. exists EmptyString, EmptyString. reflexivity.
  - intros [H | H]; auto.
Qed.

Lemma sessionPatterns_names : sessionPatterns = map Regex.literalI sessionCookieNames.
Proof. reflexivity. Qed.

Lemma sessionCookie_iff (v : string) :
  existsb (fun pattern => Regex.test pattern v) sessionPatterns = true
  <-> exists n, In n sessionCookieNames /\ ContainsI n v.
Proof.
  rewrite existsb_exists, sessionPatterns_names. split.
  - intros [p [Hin Ht]]. apply in_map_iff in Hin. destruct Hin as [n [<- Hin]].
    exists n. split; [exact Hin | now apply test_literalI_iff].
  - intros [n [Hin Hc]]. exists (Regex.literalI n).
    split; [now apply in_map | now apply test_literalI_iff].
Qed.

Lemma BearerRule_iff (h : RequestHeader) :
  (String.eqb (Js.toLowerCase (key h)) "authorization" && Js.startsWith "Bearer " (value h)) = true
  <-> BearerRule h.
Proof. unfold BearerRule, Named. now rewrite andb_true_iff, String.eqb_eq, startsWith_iff. Qed.

Lemma BasicRule_iff (h : RequestHeader) :
  (String.eqb (Js.toLowerCase (key h)) "authorization" && Js.startsWith "Basic " (value h)) = true
  <-> BasicRule h.
Proof. unfold BasicRule, Named. now rewrite andb_true_iff, String.eqb_eq, startsWith_iff. Qed.

Lemma CookieRule_iff (h : RequestHeader) :
  (String.eqb (Js.toLowerCase (key h)) "cookie"
   && existsb (fun pattern => Regex.test pattern (value h)) sessionPatterns) = true
  <-> CookieRule h.
Proof. unfold CookieRule, Named. now rewrite andb_true_iff, String.eqb_eq, sessionCookie_iff. Qed.

Lemma iff_false_not (b : bool) (Q : Prop) : (b = true <-> Q) -> b = false -> ~ Q.
Proof. intros H E q. apply H in q. congruence. Qed.

(** What the loop body does with one header, in the words of the rules. *)
Lemma detectHeader_rules (h : RequestHeader) :
  match detectHeader h with
  | Some info =>
      (exists r, Named "authorization" h /\ value h = ("Bearer " ++ r)%string /\
                 info = mkAuthInfo bearer (Some (Js.trim r)))
      \/ (~ BearerRule h /\
          exists r, Named "authorization" h /\ value h = ("Basic " ++ r)%string /\
                    info = mkAuthInfo basic (Some (Js.trim r)))
      \/ (~ BearerRule h /\ ~ BasicRule h /\ ApiKeyRule h /\
          info = mkAuthInfo apikey (Some (value h)))
      \/ (~ BearerRule h /\ ~ BasicRule h /\ ~ ApiKeyRule h /\ CookieRule h /\
          info = mkAuthInfo cookie (Some (value h)))
  | None => ~ BearerRule h /\ ~ BasicRule h /\ ~ ApiKeyRule h /\ ~ CookieRule h
  end.
Proof.
  unfold detectHeader.
  destruct (_ && Js.startsWith "Bearer " _) eqn:B1.
  { left. apply BearerRule_iff in B1. destruct B1 as [N [r V]].
    exists r. repeat split; try assumption.
    rewrite V. change 7 with (String.length "Bearer ").
    now rewrite substringFrom_append. }
  pose proof (iff_false_not (BearerRule_iff h) B1) as NB1.
  destruct (_ && Js.startsWith "Basic " _) eqn:B2.
  { right; left. split; [exact NB1|]. apply BasicRule_iff in B2. destruct B2 as [N [r V]].
    exists r. repeat split; try assumption.
    rewrite V. change 6 with (String.length "Basic ").
    now rewrite substringFrom_append. }
  pose proof (iff_false_not (BasicRule_iff h) B2) as NB2.
  destruct (_ || Js.includes "apikey" _) eqn:B3.
  { right; right; left. apply apiKeyName_iff in B3.
    split; [exact NB1 | split; [exact NB2 | split; [exact B3 | reflexivity]]]. }
  pose proof (iff_false_not (apiKeyName_iff _) B3) as NB3.
  destruct (_ && existsb _ _) eqn:B4.
  { right; right; right. apply CookieRule_iff in B4.
    split; [exact NB1 | split; [exact NB2 | split; [exact NB3 | split; [exact B4 | reflexivity]]]]. }
  pose proof (iff_false_not (CookieRule_iff h) B4) as NB4.
  repeat split; assumption.
Qed.

Lemma detectAuthType_Classifies (headers : list RequestHeader) :
  Classifies headers (detectAuthType headers).
Proof.
  induction headers as [|h rest IH]; simpl.
  - constructor.
  - pose proof (detectHeader_rules h) as R.
    destruct (detectHeader h) as [info|].
    + destruct R as [[r [N [V ->]]] | [[NB [r [N [V ->]]]] | [[NB [NB' [A ->]]] | [NB [NB' [NA [C ->]]]]]]].
      * now apply ClassifiesBearer.
      * now apply ClassifiesBasic.
      * now apply ClassifiesApiKey.
      * now apply ClassifiesCookie.
    + destruct R as [NB [NB' [NA NC]]]. now apply ClassifiesNext.
Qed.

Lemma append_inj_l (p a b : string) : (p ++ a)%string = (p ++ b)%string -> a = b.
Proof. induction p as [|c p IH]; simpl; [trivial | intros H; injection H; exact IH]. Qed.

Ltac rule_clash :=
  exfalso;
  match goal with
  | H : ~ _ |- _ =>
      apply H; solve [ assumption | split; [assumption | eexists; eassumption] ]
  end.

Lemma Classifies_functional (headers : list RequestHeader) (a b : AuthInfo) :
  Classifies headers a -> Classifies headers b -> a = b.
Proof.
  intros Ha; revert b.
  induction Ha as [h rest r N V | h rest r NB N V | h rest NB NB' A
                  | h rest NB NB' NA C | h rest info NB NB' NA NC Ha IH | ];
    intros b Hb; inversion Hb; subst;
    try reflexivity; try rule_clash.
  - match goal with H : value h = _ |- _ => rewrite V in H; apply append_inj_l in H end.
    now subst.
  - match goal with H : value h = _ |- _ => rewrite V in H; apply append_inj_l in H end.
    now subst.
  - now apply IH.
Qed.

(** The descriptor carries a value exactly when its type is not [none]. *)
Lemma detectAuthType_value (headers : list RequestHeader) :
  type (detectAuthType headers) = none <-> authInfoValue (detectAuthType headers) = None.
Proof.
  induction (detectAuthType_Classifies headers); simpl;
    try (split; discriminate); [assumption | split; reflexivity].
Qed.

Lemma apiKey_header_alone (k v : string) :
  ApiKeyRule (mkHeader k v) ->
  detectAuthType [mkHeader k v] = mkAuthInfo apikey (Some v).
Proof.
  intros A. simpl.
  pose proof (detectHeader_rules (mkHeader k v)) as R.
  assert (NA : ~ Named "authorization" (mkHeader k v)).
  { unfold Named, ApiKeyRule in *. simpl in *. intros E. rewrite E in A.
    destruct A as [A | A]; apply includes_iff in A; discriminate. }
  assert (NC : ~ Named "cookie" (mkHeader k v)).
  { unfold Named, ApiKeyRule in *. simpl in *. intros E. rewrite E in A.
    destruct A as [A | A]; apply includes_iff in A; discriminate. }
  destruct (detectHeader (mkHeader k v)) as [info|].
  - destruct R as [[r [N _]] | [[_ [r [N _]]] | [[_ [_ [_ ->]]] | [_ [_ [_ [[N _] _]]]]]]];
      try contradiction.
    reflexivity.
  - destruct R as [_ [_ [NK _]]]. contradiction.
Qed.

(** Without an Authorization header and without a session cookie, a list
    that holds an apikey-named header is classified apikey. *)
Lemma apiKey_without_authorization (headers : list RequestHeader) :
  (forall x, In x headers -> ~ Named "authorization" x) ->
  (forall x, In x headers -> ~ CookieRule x) ->
  (exists h, In h headers /\ ApiKeyRule h) ->
  type (detectAuthType headers) = apikey.
Proof.
  induction headers as [|h rest IH]; intros NA NC [x [Hx A]]; [destruct Hx|].
  simpl. pose proof (detectHeader_rules h) as R.
  destruct (detectHeader h) as [info|].
  - destruct R as [[r [N _]] | [[_ [r [N _]]] | [[_ [_ [_ ->]]] | [_ [_ [_ [C _]]]]]]].
    + exfalso. apply (NA h); [now left | exact N].
    + exfalso. apply (NA h); [now left | exact N].
    + reflexivity.
    + exfalso. apply (NC h); [now left | exact C].
  - destruct R as [_ [_ [NK _]]]. apply IH.
    + intros y Hy. apply NA. now right.
    + intros y Hy. apply NC. now right.
    + destruct Hx as [<- | Hx]; [contradiction | now exists x].
Qed.

(** C1.  For every header list the classifier returns the one descriptor
    that section 4.1 assigns to it: the headers are taken in capture
    order, and the first header to which a rule applies decides (Bearer,
    then Basic, on an Authorization header, with the trimmed remainder;
    then a name containing api-key or apikey, with the raw value; then a
    Cookie header holding a session-cookie pattern, with the raw value);
    when no header matches the result is none.  A value is present exactly
    when the type is not none.  The list Authorization: Bearer abc123,
    X-Api-Key: k gives bearer abc123; an apikey-named header alone gives
    apikey with its value, and so does any list that holds one and has
    neither an Authorization header nor a session cookie. *)
Theorem detectAuthType_first_match :
  (forall headers,
     Classifies headers (detectAuthType headers) /\
     (forall info, Classifies headers info -> info = detectAuthType headers) /\
     (type (detectAuthType headers) = none <-> authInfoValue (detectAuthType headers) = None))
  /\ detectAuthType [mkHeader "Authorization" "Bearer abc123"; mkHeader "X-Api-Key" "k"]
     = mkAuthInfo bearer (Some "abc123")
  /\ (forall k v, ApiKeyRule (mkHeader k v) ->
        detectAuthType [mkHeader k v] = mkAuthInfo apikey (Some v))
  /\ (forall headers,
        (forall x, In x headers -> ~ Named "authorization" x) ->
        (forall x, In x headers -> ~ CookieRule x) ->
        (exists h, In h headers /\ ApiKeyRule h) ->
        type (detectAuthType headers) = apikey).
Proof.
  split; [|split; [|split]].
  - intros headers. split; [|split].
    + apply detectAuthType_Classifies.
    + intros info H.
      exact (Classifies_functional H (detectAuthType_Classifies headers)).
    + apply detectAuthType_value.
  - reflexivity.
  - exact apiKey_header_alone.
  - exact apiKey_without_authorization.
Qed.

Lemma detectAuthType_first_match_witness :
  detectAuthType [mkHeader "X-Api-Key" "k"] = mkAuthInfo apikey (Some "k").
Proof.
  apply (proj1 (proj2 (proj2 detectAuthType_first_match)) "X-Api-Key" "k").
  left. exists "x-", EmptyString. reflexivity.
Defined.

(** ** The URL normalizer *)

Lemma string_app_cancel_r (a c : string) (x : ascii) :
  (a ++ String x EmptyString)%string = (c ++ String x EmptyString)%string -> a = c.
Proof.
  revert c. induction a as [|y a IH]; intros [|z c]; simpl; intros H.
  - reflexivity.
  - injection H as _ H. destruct c; discriminate.
  - injection H as _ H. destruct a; discriminate.
  - injection H as -> H. f_equal. now apply IH.
Qed.

Lemma whatwg_rejects_relative : Url.RejectsRelative whatwg.
Proof.
  split; [reflexivity|].
  intros s. unfold Url.parse, whatwg, Whatwg.parse.
  change (Whatwg.stripLeading (String "/" s)) with (String "/" s).
  assert (E : exists t, Whatwg.stripTrailing (String "/" s) = String "/" t).
  { simpl. destruct (Whatwg.stripTrailing s); eexists; reflexivity. }
  destruct E as [t ->]. reflexivity.
Qed.

Section Normalizer.

Context {P : Url.Parser}.

Lemma normalizeUrl_unparseable (url : string) :
  Url.parse url = None -> normalizeUrl url = url.
Proof. unfold normalizeUrl. now intros ->. Qed.

Lemma normalizeUrl_parsed (url : string) (urlObj : Url.URL) :
  Url.parse url = Some urlObj ->
  normalizeUrl url =
    Regex.replaceAll objectIdPattern "/:id"
      (Regex.replaceAll alphanumericPattern "/:id"
         (Regex.replaceAll numericPattern "/:id"
            (Regex.replaceAll uuidPattern "/:id" (Url.pathname urlObj)))).
Proof. unfold normalizeUrl. now intros ->. Qed.

End Normalizer.

(** A replacement that begins with a slash leaves a leading slash in place. *)
Lemma replaceAll_leading_slash (p : Regex.Pattern) (by_ s : string) :
  exists t, Regex.replaceAll p (String "/" by_) (String "/" s) = String "/" t.
Proof.
  unfold Regex.replaceAll. simpl.
  destruct (Regex.matchHere p (String "/" s)) as [[|n]|]; eexists; reflexivity.
Qed.

Lemma replaceIds_leading_slash (s : string) :
  exists t, replaceIds (String "/" s) = String "/" t.
Proof.
  unfold replaceIds.
  destruct (replaceAll_leading_slash uuidPattern ":id" s) as [t1 E1].
  change "/:id" with (String "/" ":id"). rewrite E1.
  destruct (replaceAll_leading_slash numericPattern ":id" t1) as [t2 E2]. rewrite E2.
  destruct (replaceAll_leading_slash alphanumericPattern ":id" t2) as [t3 E3]. rewrite E3.
  apply replaceAll_leading_slash.
Qed.

(** *** The replacements, segment by segment *)

Lemma string_app_assoc (a b c : string) : ((a ++ b) ++ c)%string = (a ++ b ++ c)%string.
Proof. induction a as [|x a IH]; simpl; [reflexivity | now rewrite IH]. Qed.

Lemma string_app_empty (a : string) : (a ++ EmptyString)%string = a.
Proof. induction a as [|x a IH]; simpl; [reflexivity | now rewrite IH]. Qed.

Lemma string_app_length (a c : string) :
  String.length (a ++ c) = String.length a + String.length c.
Proof. induction a as [|x a IH]; simpl; [reflexivity | now rewrite IH]. Qed.

Lemma joinSegments_Boundary (segs : list string) : Boundary (joinSegments segs).
Proof. destruct segs; [now left | right; eexists; reflexivity]. Qed.

Lemma takeExactly_local (cls : ascii -> bool) (R : string) :
  cls "/"%char = false -> Boundary R ->
  forall n s,
  Regex.takeExactly n cls (s ++ R)
  = match Regex.takeExactly n cls s with
    | Some rest => Some (rest ++ R)%string
    | None => None
    end.
Proof.
  intros C B. induction n as [|n IH]; intros s; [reflexivity|].
  destruct s as [|d s]; simpl.
  - destruct B as [-> | [R' ->]]; simpl; [reflexivity | now rewrite C].
  - destruct (cls d); [apply IH | reflexivity].
Qed.

Lemma takeExactly_rest (cls : ascii -> bool) :
  forall n s rest,
  Regex.takeExactly n cls s = Some rest ->
  String.length s = n + String.length rest /\ (slashFree s = true -> slashFree rest = true).
Proof.
  induction n as [|n IH]; intros s rest; simpl.
  - intros [= ->]. split; [reflexivity | trivial].
  - destruct s as [|d s]; [discriminate|]. destruct (cls d); [|discriminate].
    intros H. destruct (IH _ _ H) as [L F]. split; [simpl; now rewrite L|].
    unfold slashFree. simpl. intros W. apply andb_true_iff in W. now apply F.
Qed.

Lemma runLength_local (cls : ascii -> bool) (R : string) :
  cls "/"%char = false -> Boundary R ->
  forall s, Regex.runLength cls (s ++ R) = Regex.runLength cls s.
Proof.
  intros C B. induction s as [|d s IH]; simpl.
  - destruct B as [-> | [R' ->]]; simpl; [reflexivity | now rewrite C].
  - destruct (cls d); [now rewrite IH | reflexivity].
Qed.

Lemma runLength_le (cls : ascii -> bool) (s : string) :
  Regex.runLength cls s <= String.length s.
Proof. induction s as [|d s IH]; simpl; [lia | destruct (cls d); simpl; lia]. Qed.

(** A match of slash-free items inside a segment does not see what
    follows the segment, and does not reach beyond it. *)
Lemma matchHere_local (R : string) :
  Boundary R ->
  forall q s,
  forallb rejectsSlash q = true -> slashFree s = true ->
  Regex.matchHere q (s ++ R) = Regex.matchHere q s
  /\ forall n, Regex.matchHere q s = Some n -> n <= String.length s.
Proof.
  intros B. induction q as [|a q IH]; intros s Q W.
  - split; [reflexivity | intros n [= <-]; lia].
  - cbn [forallb] in Q. apply andb_true_iff in Q. destruct Q as [A Q].
    destruct a as [c | c | k cls | k cls]; cbn [rejectsSlash] in A.
    + (* a character *)
      destruct s as [|d s].
      * split; [|intros n; discriminate].
        destruct B as [-> | [R' ->]]; simpl; [reflexivity|].
        unfold notSlash in A. apply negb_true_iff in A. now rewrite A.
      * unfold slashFree in W. simpl in W. apply andb_true_iff in W. destruct W as [_ W].
        destruct (IH s Q W) as [E L]. simpl. destruct (Ascii.eqb c d).
        -- rewrite E. split; [reflexivity|].
           intros n. destruct (Regex.matchHere q s) as [m|]; [|discriminate].
           intros [= <-]. specialize (L m eq_refl). lia.
        -- split; [reflexivity | intros n; discriminate].
    + (* a character, without regard to case *)
      destruct s as [|d s].
      * split; [|intros n; discriminate].
        destruct B as [-> | [R' ->]]; simpl; [reflexivity|].
        apply negb_true_iff in A. now rewrite A.
      * unfold slashFree in W. simpl in W. apply andb_true_iff in W. destruct W as [_ W].
        destruct (IH s Q W) as [E L]. simpl. destruct (Regex.eqbI c d).
        -- rewrite E. split; [reflexivity|].
           intros n. destruct (Regex.matchHere q s) as [m|]; [|discriminate].
           intros [= <-]. specialize (L m eq_refl). lia.
        -- split; [reflexivity | intros n; discriminate].
    + (* a class, a fixed number of times *)
      apply negb_true_iff in A. cbn [Regex.matchHere].
      rewrite (@takeExactly_local cls R A B).
      destruct (Regex.takeExactly k cls s) as [rest|] eqn:T;
        [|split; [reflexivity | intros n; discriminate]].
      destruct (@takeExactly_rest cls k s rest T) as [Len F].
      destruct (IH rest Q (F W)) as [E L]. rewrite E. split; [reflexivity|].
      intros n. destruct (Regex.matchHere q rest) as [m|]; [|discriminate].
      intros [= <-]. specialize (L m eq_refl). lia.
    + (* a class, at least some number of times *)
      apply negb_true_iff in A. cbn [Regex.matchHere]. cbn zeta.
      rewrite (@runLength_local cls R A B). split; [reflexivity|].
      intros n. destruct (k <=? Regex.runLength cls s); [|discriminate].
      intros [= <-]. apply runLength_le.
Qed.

Section Segmentwise.

Variable p : Regex.Pattern.
Variable b : string.
Hypothesis p_segment : segmentPattern p = true.

Let by_ : string := String "/" b.

Lemma matchHere_no_slash (c : ascii) (s : string) :
  notSlash c = true -> Regex.matchHere p (String c s) = None.
Proof.
  intros N. destruct p as [|[d | d | k cls | k cls] q]; try discriminate.
  cbn [segmentPattern] in p_segment. apply andb_true_iff in p_segment.
  destruct p_segment as [D _]. apply Ascii.eqb_eq in D. subst d.
  cbn [Regex.matchHere]. unfold notSlash in N. apply negb_true_iff in N.
  rewrite Ascii.eqb_sym in N. now rewrite N.
Qed.

Lemma matchHere_segment (seg R : string) :
  Boundary R -> slashFree seg = true ->
  Regex.matchHere p (String "/" (seg ++ R)) = Regex.matchHere p (String "/" seg)
  /\ forall n, Regex.matchHere p (String "/" seg) = Some (S n) -> n <= String.length seg.
Proof.
  intros B W. destruct p as [|[d | d | k cls | k cls] q]; try discriminate.
  cbn [segmentPattern] in p_segment. apply andb_true_iff in p_segment.
  destruct p_segment as [D Q]. apply Ascii.eqb_eq in D. subst d.
  destruct (@matchHere_local R B q seg Q W) as [E L].
  cbn [Regex.matchHere]. rewrite Ascii.eqb_refl, E. split; [reflexivity|].
  intros n. destruct (Regex.matchHere q seg) as [m|]; [|discriminate].
  intros [= <-]. now apply L.
Qed.

(** Scanning copies a slash-free text. *)
Lemma replaceFrom_slashFree (s R : string) :
  slashFree s = true ->
  Regex.replaceFrom p by_ 0 (s ++ R) = (s ++ Regex.replaceFrom p by_ 0 R)%string.
Proof.
  induction s as [|c s IH]; intros W; [reflexivity|].
  unfold slashFree in W. simpl in W. apply andb_true_iff in W. destruct W as [N W].
  change (String c s ++ R)%string with (String c (s ++ R)).
  cbn [Regex.replaceFrom]. rewrite (@matchHere_no_slash c (s ++ R)%string N).
  cbn [append]. now rewrite (IH W).
Qed.

Lemma replaceFrom_skip (n : nat) :
  forall s R, n <= String.length s ->
  Regex.replaceFrom p by_ n (s ++ R) = Regex.replaceFrom p by_ 0 (Js.substringFrom n s ++ R).
Proof.
  induction n as [|n IH]; intros s R L; [reflexivity|].
  destruct s as [|c s]; simpl in L; [lia|]. simpl. apply IH. lia.
Qed.

Lemma slashFree_substringFrom (n : nat) :
  forall s, slashFree s = true -> slashFree (Js.substringFrom n s) = true.
Proof.
  induction n as [|n IH]; intros s W; [exact W|].
  destruct s as [|c s]; [reflexivity|]. simpl.
  unfold slashFree in W. simpl in W. apply andb_true_iff in W. now apply IH.
Qed.

(** One global replacement works segment by segment. *)
Lemma replaceAll_joinSegments (segs : list string) :
  Forall (fun seg => slashFree seg = true) segs ->
  Regex.replaceAll p by_ (joinSegments segs)
  = joinSegments (map (replaceInSegmentBy p b) segs).
Proof.
  unfold Regex.replaceAll.
  intros H. induction H as [|seg rest W _ IH]; [reflexivity|].
  cbn [joinSegments map].
  destruct (@matchHere_segment seg (joinSegments rest) (joinSegments_Boundary rest) W) as [E L].
  cbn [Regex.replaceFrom]. rewrite E. unfold replaceInSegmentBy at 1.
  destruct (Regex.matchHere p (String "/" seg)) as [[|n]|].
  - rewrite (@replaceFrom_slashFree seg (joinSegments rest) W), IH. reflexivity.
  - rewrite (@replaceFrom_skip n seg (joinSegments rest) (L n eq_refl)).
    rewrite (@replaceFrom_slashFree (Js.substringFrom n seg) (joinSegments rest)
               (@slashFree_substringFrom n seg W)), IH.
    unfold by_. cbn [append joinSegments]. now rewrite string_app_assoc.
  - rewrite (@replaceFrom_slashFree seg (joinSegments rest) W), IH. reflexivity.
Qed.

End Segmentwise.

Lemma slashFree_append (a c : string) :
  slashFree a = true -> slashFree c = true -> slashFree (a ++ c) = true.
Proof.
  unfold slashFree. induction a as [|x a IH]; simpl; intros A C; [exact C|].
  apply andb_true_iff in A. destruct A as [X A]. rewrite X. now apply IH.
Qed.

Lemma replaceInSegment_slashFree (p : Regex.Pattern) (seg : string) :
  slashFree seg = true -> slashFree (replaceInSegment p seg) = true.
Proof.
  intros W. unfold replaceInSegment, replaceInSegmentBy.
  destruct (Regex.matchHere p (String "/" seg)) as [[|n]|]; try exact W.
  apply slashFree_append; [reflexivity | now apply slashFree_substringFrom].
Qed.

(** Each of the four replacements rewrites the path segment by segment,
    and so does their composition. *)
Lemma replaceIds_joinSegments (segs : list string) :
  Forall (fun seg => slashFree seg = true) segs ->
  replaceIds (joinSegments segs) = joinSegments (map normalizeSegment segs).
Proof.
  intros H. unfold replaceIds, normalizeSegment.
  change "/:id" with (String "/" ":id").
  rewrite (@replaceAll_joinSegments uuidPattern ":id" eq_refl segs H).
  rewrite (@replaceAll_joinSegments numericPattern ":id" eq_refl),
    (@replaceAll_joinSegments alphanumericPattern ":id" eq_refl),
    (@replaceAll_joinSegments objectIdPattern ":id" eq_refl).
  - rewrite !map_map. reflexivity.
  - rewrite !Forall_map. eapply Forall_impl; [|exact H].
    intros seg W. cbn beta. now do 3 apply replaceInSegment_slashFree.
  - rewrite !Forall_map. eapply Forall_impl; [|exact H].
    intros seg W. cbn beta. now do 2 apply replaceInSegment_slashFree.
  - rewrite Forall_map. eapply Forall_impl; [|exact H].
    intros seg W. cbn beta. now apply replaceInSegment_slashFree.
Qed.

Lemma runLength_all (cls : ascii -> bool) (s : string) :
  Js.allChars cls s = true -> Regex.runLength cls s = String.length s.
Proof.
  induction s as [|c s IH]; simpl; [reflexivity|].
  intros H. apply andb_true_iff in H. destruct H as [C H]. now rewrite C, IH.
Qed.

Lemma substringFrom_length (s : string) : Js.substringFrom (String.length s) s = EmptyString.
Proof. induction s as [|c s IH]; [reflexivity | exact IH]. Qed.

Lemma takeExactly_Run (n : nat) (cls : ascii -> bool) :
  forall a r, Run n cls a -> Regex.takeExactly n cls (a ++ r) = Some r.
Proof.
  induction n as [|n IH]; intros a r [L A].
  - destruct a; [reflexivity | discriminate].
  - destruct a as [|c a]; [discriminate|]. simpl in *.
    apply andb_true_iff in A. destruct A as [C A]. rewrite C.
    apply IH. split; [now injection L | exact A].
Qed.

(** Rule 2 on a segment of digits, rule 3 on a segment of eight or more
    identifier characters, rule 4 on a segment of 24 hexadecimal digits,
    rule 1 on a segment of UUID shape: the segment becomes :id. *)
Lemma numeric_segment (seg : string) :
  seg <> EmptyString -> Js.allChars Js.isDigit seg = true ->
  replaceInSegment numericPattern seg = ":id".
Proof.
  intros N A. unfold replaceInSegment, replaceInSegmentBy, numericPattern. cbn [Regex.matchHere].
  rewrite Ascii.eqb_refl. cbn zeta. rewrite (@runLength_all Js.isDigit seg A).
  assert (L : (1 <=? String.length seg) = true)
    by (destruct seg; [contradiction | reflexivity]).
  rewrite L. cbn [option_map]. now rewrite substringFrom_length.
Qed.

Lemma alphanumeric_segment (seg : string) :
  8 <= String.length seg -> Js.allChars Regex.idChar seg = true ->
  replaceInSegment alphanumericPattern seg = ":id".
Proof.
  intros L A. unfold replaceInSegment, replaceInSegmentBy, alphanumericPattern. cbn [Regex.matchHere].
  rewrite Ascii.eqb_refl. cbn zeta. rewrite (@runLength_all Regex.idChar seg A).
  apply Nat.leb_le in L. rewrite L. cbn [option_map]. now rewrite substringFrom_length.
Qed.

Lemma objectId_segment (seg : string) :
  Run 24 Regex.hexDigit seg -> replaceInSegment objectIdPattern seg = ":id".
Proof.
  intros R. unfold replaceInSegment, replaceInSegmentBy, objectIdPattern. cbn [Regex.matchHere].
  rewrite Ascii.eqb_refl.
  rewrite <- (string_app_empty seg) at 1. rewrite (@takeExactly_Run 24 Regex.hexDigit seg EmptyString R).
  cbn [Regex.matchHere option_map Nat.add].
  destruct R as [<- _]. now rewrite substringFrom_length.
Qed.

Lemma uuid_segment (seg : string) :
  UuidShape seg -> replaceInSegment uuidPattern seg = ":id".
Proof.
  intros [a [b0 [c [d [e [-> [Ra [Rb [Rc [Rd Re]]]]]]]]]].
  unfold replaceInSegment, replaceInSegmentBy, uuidPattern.
  assert (M : Regex.matchHere
                [ Regex.Lit "/"; Regex.Exactly 8 Regex.hexDigit;
                  Regex.Lit "-"; Regex.Exactly 4 Regex.hexDigit;
                  Regex.Lit "-"; Regex.Exactly 4 Regex.hexDigit;
                  Regex.Lit "-"; Regex.Exactly 4 Regex.hexDigit;
                  Regex.Lit "-"; Regex.Exactly 12 Regex.hexDigit ]
                (String "/" (a ++ "-" ++ b0 ++ "-" ++ c ++ "-" ++ d ++ "-" ++ e))
              = Some 37).
  { cbn [Regex.matchHere]. rewrite Ascii.eqb_refl.
    rewrite (@takeExactly_Run 8 Regex.hexDigit a _ Ra). cbn [append Regex.matchHere]. rewrite Ascii.eqb_refl.
    rewrite (@takeExactly_Run 4 Regex.hexDigit b0 _ Rb). cbn [append Regex.matchHere]. rewrite Ascii.eqb_refl.
    rewrite (@takeExactly_Run 4 Regex.hexDigit c _ Rc). cbn [append Regex.matchHere]. rewrite Ascii.eqb_refl.
    rewrite (@takeExactly_Run 4 Regex.hexDigit d _ Rd). cbn [append Regex.matchHere]. rewrite Ascii.eqb_refl.
    rewrite <- (string_app_empty e). rewrite (@takeExactly_Run 12 Regex.hexDigit e EmptyString Re).
    reflexivity. }
  rewrite M.
  replace 36 with (String.length (a ++ "-" ++ b0 ++ "-" ++ c ++ "-" ++ d ++ "-" ++ e)).
  - now rewrite substringFrom_length.
  - destruct Ra as [La _], Rb as [Lb _], Rc as [Lc _], Rd as [Ld _], Re as [Le _].
    rewrite !string_app_length. simpl. lia.
Qed.

Section NormalizerSegments.

Context {P : Url.Parser}.

(** The normalized form of a URL whose path is a sequence of segments. *)
Lemma normalizeUrl_segmentwise (url : string) (urlObj : Url.URL) (segs : list string) :
  Url.parse url = Some urlObj ->
  Url.pathname urlObj = joinSegments segs ->
  Forall (fun seg => slashFree seg = true) segs ->
  normalizeUrl url = joinSegments (map normalizeSegment segs).
Proof.
  intros E J W. unfold normalizeUrl. rewrite E, J. now apply replaceIds_joinSegments.
Qed.

End NormalizerSegments.

(** The first two examples of the doc comment of [normalizeUrl]. *)
Lemma normalizeUrl_examples :
  normalizeUrl "https://example.com/api/users/123" = "/api/users/:id"
  /\ normalizeUrl "https://example.com/api/users/abc-123-def/posts/456?page=2#top"
     = "/api/users/:id/posts/:id"
  /\ normalizeUrl "/api/users/123" = "/api/users/123".
Proof. repeat split; vm_compute; reflexivity. Qed.

(** The normalizer, rule by rule.  An unparseable string is returned
    unchanged; of a URL the pathname is returned after the four
    replacements, each on the result of the one before.  On a path made
    of segments each replacement works segment by segment: the part of a
    segment that the pattern matches behind the slash gives way to :id.
    So a segment of UUID shape becomes :id under the first, a segment of
    digits under the second, a segment of eight or more identifier
    characters under the third, a segment of 24 hexadecimal digits under
    the fourth, and a segment :id stays as it is under all four. *)
Theorem normalizeUrl_rules :
  (forall (P : Url.Parser) url, Url.parse url = None -> normalizeUrl url = url)
  /\ (forall (P : Url.Parser) url urlObj,
        Url.parse url = Some urlObj ->
        normalizeUrl url =
          Regex.replaceAll objectIdPattern "/:id"
            (Regex.replaceAll alphanumericPattern "/:id"
               (Regex.replaceAll numericPattern "/:id"
                  (Regex.replaceAll uuidPattern "/:id" (Url.pathname urlObj)))))
  /\ (forall p segs,
        In p [uuidPattern; numericPattern; alphanumericPattern; objectIdPattern] ->
        Forall (fun seg => slashFree seg = true) segs ->
        Regex.replaceAll p "/:id" (joinSegments segs)
        = joinSegments (map (replaceInSegment p) segs))
  /\ (forall seg, UuidShape seg -> replaceInSegment uuidPattern seg = ":id")
  /\ (forall seg, seg <> EmptyString -> Js.allChars Js.isDigit seg = true ->
        replaceInSegment numericPattern seg = ":id")
  /\ (forall seg, 8 <= String.length seg -> Js.allChars Regex.idChar seg = true ->
        replaceInSegment alphanumericPattern seg = ":id")
  /\ (forall seg, Run 24 Regex.hexDigit seg -> replaceInSegment objectIdPattern seg = ":id")
  /\ (forall p, In p [uuidPattern; numericPattern; alphanumericPattern; objectIdPattern] ->
        replaceInSegment p ":id" = ":id")
  /\ normalizeUrl "https://example.com/api/users/123" = "/api/users/:id"
  /\ normalizeUrl "https://example.com/api/users/abc-123-def/posts/456"
     = "/api/users/:id/posts/:id".
Proof.
  split; [|split; [|split; [|split; [|split; [|split; [|split; [|split; [|split]]]]]]]].
  - intros P. apply normalizeUrl_unparseable.
  - intros P. apply normalizeUrl_parsed.
  - intros p segs Hp W. change "/:id" with (String "/" ":id").
    apply replaceAll_joinSegments; [|exact W].
    simpl in Hp. destruct Hp as [<- | [<- | [<- | [<- | []]]]]; reflexivity.
  - exact uuid_segment.
  - exact numeric_segment.
  - exact alphanumeric_segment.
  - exact objectId_segment.
  - intros p Hp. simpl in Hp. destruct Hp as [<- | [<- | [<- | [<- | []]]]]; reflexivity.
  - vm_compute. reflexivity.
  - vm_compute. reflexivity.
Qed.

(** C2.  The normalizer returns the pathname of a URL after the four
    replacements, in order, and an unparseable string unchanged.  The
    third example of its doc comment does not hold: for the path
    /api/products/550e8400-e29b-41d4-a716-446655440000 the doc comment and
    the specification give /api/products/:id, and the code returns
    /api/:id/:id, because the third replacement also takes the eight
    letters of products. *)
Theorem normalizeUrl_products_uuid :
  normalizeUrl "https://example.com/api/products/550e8400-e29b-41d4-a716-446655440000"
  = "/api/:id/:id".
Proof. vm_compute. reflexivity. Qed.

(** C3, counterexample.  The pathname of a URL with an opaque path can
    itself parse as a URL: the second normalization then returns the
    pathname of that other URL. *)
Lemma normalizeUrl_not_idempotent :
  normalizeUrl "view-source:https://example.com/users/42" = "https://example.com/users/:id"
  /\ normalizeUrl (normalizeUrl "view-source:https://example.com/users/42") = "/users/:id"
  /\ normalizeUrl (normalizeUrl "view-source:https://example.com/users/42")
     <> normalizeUrl "view-source:https://example.com/users/42".
Proof.
  split; [vm_compute; reflexivity | split; [vm_compute; reflexivity |]].
  vm_compute. discriminate.
Qed.

(** In the model the path of a URL with a special scheme is never empty,
    so its pathname begins with a slash. *)
Lemma pathState_nonempty (special : bool) (s : string) :
  forall revPath buffer, Whatwg.pathState special revPath buffer s <> [].
Proof.
  assert (C : forall revPath buffer,
             rev (if Whatwg.isDoubleDot buffer then EmptyString :: Whatwg.shorten revPath
                  else if Whatwg.isSingleDot buffer then EmptyString :: revPath
                  else buffer :: revPath) <> []).
  { intros revPath buffer E.
    destruct (Whatwg.isDoubleDot buffer); [|destruct (Whatwg.isSingleDot buffer)];
      simpl in E; apply app_eq_nil in E; destruct E; discriminate. }
  induction s as [|c s IH]; intros revPath buffer; cbn [Whatwg.pathState].
  - apply C.
  - destruct (Whatwg.isSlash special c); [apply IH|].
    destruct (_ || _); [apply C | apply IH].
Qed.

Lemma pathStartState_special (s : string) :
  exists t, Whatwg.pathStartState true s = String "/" t.
Proof.
  assert (S : forall x, exists t,
             Whatwg.serializePath (Whatwg.pathState true [] EmptyString x) = String "/" t).
  { intros x. pose proof (@pathState_nonempty true x [] EmptyString) as N.
    destruct (Whatwg.pathState true [] EmptyString x); [contradiction|].
    eexists. reflexivity. }
  unfold Whatwg.pathStartState. destruct s as [|c s]; [apply S|].
  destruct (Whatwg.isSlash true c); apply S.
Qed.

Lemma whatwg_special_pathname (input : string) (urlObj : Url.URL) :
  Whatwg.parse input = Some urlObj ->
  In (Url.protocol urlObj) ["http:"; "https:"; "ws:"; "wss:"; "ftp:"] ->
  exists t, Url.pathname urlObj = String "/" t.
Proof.
  unfold Whatwg.parse.
  destruct (Whatwg.schemeStartState _) as [[scheme rest]|]; [|discriminate].
  destruct (String.eqb scheme "file"); [discriminate|].
  destruct (Whatwg.isSpecial scheme) eqn:SP.
  - destruct (Whatwg.splitAt _ _) as [authority after].
    destruct (Whatwg.authorityState _ _ _); [|discriminate].
    intros [= <-] _. apply pathStartState_special.
  - assert (NS : ~ In (scheme ++ ":")%string ["http:"; "https:"; "ws:"; "wss:"; "ftp:"]).
    { intros H. simpl in H.
      destruct H as [H | [H | [H | [H | [H | []]]]]];
        [ change "http:" with ("http" ++ ":")%string in H
        | change "https:" with ("https" ++ ":")%string in H
        | change "ws:" with ("ws" ++ ":")%string in H
        | change "wss:" with ("wss" ++ ":")%string in H
        | change "ftp:" with ("ftp" ++ ":")%string in H ];
        apply string_app_cancel_r in H; subst scheme; discriminate SP. }
    destruct (Js.startsWith "//" rest).
    + destruct (Whatwg.splitAt _ _) as [authority after].
      destruct (Whatwg.authorityState _ _ _); [|discriminate].
      intros [= <-]. simpl. intros H. contradiction.
    + destruct (Js.startsWith "/" rest); intros [= <-]; simpl; intros H; contradiction.
Qed.

(** Normalization is idempotent on every URL that the model parses with
    one of the schemes http, https, ws, wss and ftp. *)
Lemma normalizeUrl_idempotent_special (url : string) (urlObj : Url.URL) :
  Whatwg.parse url = Some urlObj ->
  In (Url.protocol urlObj) ["http:"; "https:"; "ws:"; "wss:"; "ftp:"] ->
  normalizeUrl (normalizeUrl url) = normalizeUrl url.
Proof.
  intros E S. destruct (whatwg_special_pathname _ E S) as [t T].
  unfold normalizeUrl at 2 3. change (Url.parse url) with (Whatwg.parse url). rewrite E, T.
  destruct (replaceIds_leading_slash t) as [t' ->].
  apply normalizeUrl_unparseable. apply whatwg_rejects_relative.
Qed.

(** C3, amended.  Normalization is idempotent on every string that does
    not parse as a URL and on every URL whose pathname is empty or begins
    with a slash (every URL with a hierarchical path, so every http and
    https URL), for any parser that rejects the empty string and strings
    beginning with a slash, as parsing without a base URL does. *)
Theorem normalizeUrl_idempotent_hierarchical
    (P : Url.Parser) (HP : Url.RejectsRelative P) (u : string) :
  match Url.parse u with
  | Some urlObj =>
      Url.pathname urlObj = EmptyString \/ StartsWith "/" (Url.pathname urlObj)
  | None => True
  end ->
  normalizeUrl (normalizeUrl u) = normalizeUrl u.
Proof.
  destruct HP as [HE HS]. unfold normalizeUrl at 2 3.
  destruct (Url.parse u) as [urlObj|] eqn:E.
  - intros [H | [r H]]; rewrite H.
    + apply normalizeUrl_unparseable. exact HE.
    + simpl. destruct (replaceIds_leading_slash r) as [t ->].
      apply normalizeUrl_unparseable. apply HS.
  - intros _. now apply normalizeUrl_unparseable.
Qed.

Lemma normalizeUrl_idempotent_witness :
  normalizeUrl (normalizeUrl "https://api.x.com/items/42")
  = normalizeUrl "https://api.x.com/items/42".
Proof.
  apply (@normalizeUrl_idempotent_hierarchical whatwg whatwg_rejects_relative
           "https://api.x.com/items/42").
  vm_compute. right. exists "items/42". reflexivity.
Defined.

(** ** The collection matcher *)

(** Induction on a node with the property known of all its children. *)
Lemma Item_nested_ind (Q : Item -> Prop) :
  (forall n r, Q (mkItem n None r)) ->
  (forall n kids r, Forall Q kids -> Q (mkItem n (Some kids) r)) ->
  forall it, Q it.
Proof.
  intros HL HF. fix IH 1. intros [n [kids|] r].
  - apply HF. induction kids as [|k kids IHk]; constructor; [apply IH | exact IHk].
  - apply HL.
Qed.

Lemma find_app {A : Type} (q : A -> bool) (l1 l2 : list A) :
  find q (l1 ++ l2) = match find q l1 with Some x => Some x | None => find q l2 end.
Proof.
  induction l1 as [|a l1 IH]; simpl; [reflexivity|].
  destruct (q a); [reflexivity | exact IH].
Qed.

Lemma find_FirstWhere {A : Type} (q : A -> bool) (Q : A -> Prop) (l : list A) :
  (forall x, q x = true <-> Q x) -> FirstWhere Q l (find q l).
Proof.
  intros HQ. induction l as [|a l IH]; simpl.
  - intros y [].
  - destruct (q a) eqn:E.
    + exists [], l. split; [reflexivity|]. split; [now apply HQ | intros y []].
    + assert (NQ : ~ Q a) by (intros qa; apply HQ in qa; congruence).
      destruct (find q l) as [x|]; simpl in *.
      * destruct IH as [pre [post [-> [Qx Hpre]]]].
        exists (a :: pre), post. split; [reflexivity|]. split; [exact Qx|].
        intros y [<- | Hy]; [exact NQ | now apply Hpre].
      * intros y [<- | Hy]; [exact NQ | now apply IH].
Qed.

Section Search.

Variable test : RequestDef -> bool.

Let visit (i : nat) (k : Item) : option Ref := option_map (under i) (searchItem test k).

Lemma firstFrom_leaves (l : list Item) (i : nat) :
  Forall (fun k => option_map snd (searchItem test k) = find (passes test) (leavesOf k)) l ->
  option_map snd (firstFrom visit i l) = find (passes test) (flat_map leavesOf l).
Proof.
  intros H; revert i. induction H as [|k l Hk _ IH]; intros i; simpl; [reflexivity|].
  rewrite find_app, <- Hk. unfold visit at 1.
  destruct (searchItem test k) as [[p m]|]; simpl; [reflexivity | apply IH].
Qed.

Lemma searchItem_leaves (it : Item) :
  folderOrLeaf it = true ->
  option_map snd (searchItem test it) = find (passes test) (leavesOf it).
Proof.
  induction it as [n r | n kids r IH] using Item_nested_ind; intros W.
  - simpl. unfold passes. simpl. destruct r as [r|]; [|reflexivity].
    destruct (test r); reflexivity.
  - destruct r as [r|]; [discriminate|]. simpl in W.
    change (searchItem test (mkItem n (Some kids) None))
      with (match firstFrom visit 0 kids with Some m => Some m | None => None end).
    change (leavesOf (mkItem n (Some kids) None)) with (flat_map leavesOf kids).
    rewrite <- (firstFrom_leaves (l := kids) 0).
    + destruct (firstFrom visit 0 kids); reflexivity.
    + rewrite forallb_forall in W. rewrite Forall_forall in *.
      intros k Hk. apply IH; [exact Hk | now apply W].
Qed.

(** In a document the search returns the first leaf, in depth-first
    order, whose request passes the test. *)
Lemma searchRecursive_leaves (items : list Item) :
  Document items ->
  option_map snd (searchRecursive test items) = find (passes test) (leaves items).
Proof.
  intros W. unfold searchRecursive, leaves. apply (firstFrom_leaves (l := items) 0).
  unfold Document in W. rewrite forallb_forall in W. rewrite Forall_forall.
  intros k Hk. apply searchItem_leaves. now apply W.
Qed.

Lemma firstFrom_sound (l : list Item) :
  Forall (fun k => forall p m, searchItem test k = Some (p, m) ->
                               getIn p k = Some m /\ passes test m = true) l ->
  forall (i : nat) (p : Path) (m : Item),
  firstFrom visit i l = Some (p, m) ->
  exists j p', p = (i + j) :: p' /\
               match nth_error l j with Some k => getIn p' k | None => None end = Some m /\
               passes test m = true.
Proof.
  intros H. induction H as [|k l Hk _ IH]; intros i p m; simpl; [discriminate|].
  unfold visit at 1. destruct (searchItem test k) as [[p' m']|]; simpl.
  - intros [= <- <-]. destruct (Hk _ _ eq_refl) as [G T].
    exists 0, p'. rewrite Nat.add_0_r. repeat split; assumption.
  - intros F. destruct (IH _ _ _ F) as [j [p' [-> [G T]]]].
    exists (S j), p'. rewrite Nat.add_succ_r. repeat split; assumption.
Qed.

Lemma searchItem_sound (it : Item) (p : Path) (m : Item) :
  searchItem test it = Some (p, m) -> getIn p it = Some m /\ passes test m = true.
Proof.
  revert p m. induction it as [n r | n kids r IH] using Item_nested_ind; intros p m.
  - simpl. destruct r as [r|]; [|discriminate].
    destruct (test r) eqn:T; [|discriminate].
    intros [= <- <-]. split; [reflexivity | exact T].
  - change (searchItem test (mkItem n (Some kids) r))
      with (match firstFrom visit 0 kids with
            | Some m => Some m
            | None => match r with
                      | Some r' => if test r' then Some ([], mkItem n (Some kids) r) else None
                      | None => None
                      end
            end).
    destruct (firstFrom visit 0 kids) as [[p' m']|] eqn:F.
    + intros [= <- <-]. destruct (firstFrom_sound IH _ F) as [j [q [-> [G T]]]].
      split; [exact G | exact T].
    + destruct r as [r|]; [|discriminate].
      destruct (test r) eqn:T; [|discriminate].
      intros [= <- <-]. split; [reflexivity | exact T].
Qed.

(** The reference that the search returns leads to the node it returns,
    and that node has a request that passes the test. *)
Lemma searchRecursive_sound (items : list Item) (p : Path) (m : Item) :
  searchRecursive test items = Some (p, m) ->
  getAt p items = Some m /\ passes test m = true.
Proof.
  intros F. unfold searchRecursive in F.
  assert (H : Forall (fun k => forall p m, searchItem test k = Some (p, m) ->
                                          getIn p k = Some m /\ passes test m = true) items).
  { rewrite Forall_forall. intros k _ p' m'. apply searchItem_sound. }
  destruct (firstFrom_sound H _ F) as [j [q [-> [G T]]]].
  split; [exact G | exact T].
Qed.

End Search.

Lemma optionStringEqb_Some (a : string) (b : option string) :
  optionStringEqb (Some a) b = true <-> b = Some a.
Proof.
  destruct b as [b|]; simpl; [|split; discriminate].
  rewrite String.eqb_eq. split; [now intros -> | now intros [= ->]].
Qed.

Lemma find_all_false {A : Type} (q : A -> bool) (l : list A) :
  (forall y, In y l -> q y = false) -> find q l = None.
Proof.
  induction l as [|a l IH]; simpl; intros H; [reflexivity|].
  rewrite (H a (or_introl eq_refl)). apply IH. intros y Hy. apply H. now right.
Qed.

Section MatcherFacts.

Context {P : Url.Parser}.

Lemma passes_matchesPattern (capturedUrl : string) (it : Item) :
  passes (matchesPattern capturedUrl) it = true <-> SamePattern capturedUrl it.
Proof.
  unfold passes, SamePattern, matchesPattern. destruct (request it) as [r|].
  - destruct (extractPostmanUrl r) as [u|] eqn:E.
    + rewrite optionStringEqb_Some. split.
      * intros H. exists r, u. repeat split; assumption.
      * intros [r' [u' [[= <-] [E' H]]]]. congruence.
    + split; [discriminate | intros [r' [u' [[= <-] [H _]]]]; congruence].
  - split; [discriminate | intros [r' [u' [H _]]]; discriminate].
Qed.

Lemma passes_matchesPatternAndMethod (capturedUrl method : string) (it : Item) :
  passes (matchesPatternAndMethod capturedUrl method) it = true
  <-> SamePattern capturedUrl it /\ SameMethod method it.
Proof.
  unfold passes, SamePattern, SameMethod, matchesPatternAndMethod.
  destruct (request it) as [r|].
  - destruct (extractPostmanUrl r) as [u|] eqn:E.
    + rewrite andb_true_iff, optionStringEqb_Some, String.eqb_eq. split.
      * intros [H M]. split; [exists r, u | exists r]; repeat split; assumption.
      * intros [[r' [u' [[= <-] [E' H]]]] [r'' [[= <-] M]]]. split; [congruence | assumption].
    + split; [discriminate | intros [[r' [u' [[= <-] [H _]]]] _]; congruence].
  - split; [discriminate | intros [[r' [u' [H _]]] _]; discriminate].
Qed.

Lemma findMatchingRequest_FirstWhere (capturedUrl : string) (items : list Item) :
  Document items ->
  FirstWhere (SamePattern capturedUrl) (leaves items)
    (option_map snd (findMatchingRequest capturedUrl items)).
Proof.
  intros W. unfold findMatchingRequest. rewrite (searchRecursive_leaves _ W).
  apply find_FirstWhere. apply passes_matchesPattern.
Qed.

Lemma findMatchingRequestWithMethod_FirstWhere (capturedUrl method : string)
    (items : list Item) :
  Document items ->
  FirstWhere (fun it => SamePattern capturedUrl it /\ SameMethod method it) (leaves items)
    (option_map snd (findMatchingRequestWithMethod capturedUrl method items)).
Proof.
  intros W. unfold findMatchingRequestWithMethod. rewrite (searchRecursive_leaves _ W).
  apply find_FirstWhere. apply passes_matchesPatternAndMethod.
Qed.

Lemma findMatchingRequest_sound (capturedUrl : string) (items : list Item) (p : Path) (m : Item) :
  findMatchingRequest capturedUrl items = Some (p, m) ->
  getAt p items = Some m /\ SamePattern capturedUrl m.
Proof.
  intros F. destruct (searchRecursive_sound _ _ F) as [G T].
  split; [exact G | now apply passes_matchesPattern].
Qed.

End MatcherFacts.

(** Outside the document model: a node that has both children and a
    request of its own is tried after its children. *)
Lemma findMatchingRequest_children_first :
  findMatchingRequest "https://api.x.com/items/99"
    [ mkItem "Both" (Some [item42])
        (Some (mkRequestDef (Some "GET") [] (UrlString "https://api.x.com/items/1") None None)) ]
  = Some ([0; 0], item42).
Proof. vm_compute. reflexivity. Qed.

(** C4.  In every document (a tree whose nodes are folders or leaves) and
    for every captured URL, the pattern-only matcher returns the first
    leaf, depth first in the order of the children, whose normalized URL
    is the normalized captured URL, and null when there is none; the
    reference it returns leads to that leaf.  A leaf whose URL cannot be
    extracted never matches, and the search goes on past it.  The
    pattern+method matcher returns the first leaf that also has the
    queried method, compared without regard to case.  With a leaf for
    https://api.x.com/items/42 behind a leaf without a URL, the captured
    URL https://api.x.com/items/99 finds the leaf; with the method POST
    against the leaf's GET the pattern+method matcher finds nothing. *)
Theorem findMatchingRequest_first_leaf :
  (forall (P : Url.Parser) (capturedUrl : string) (items : list Item),
     Document items ->
     FirstWhere (SamePattern capturedUrl) (leaves items)
       (option_map snd (findMatchingRequest capturedUrl items)))
  /\ (forall (P : Url.Parser) (capturedUrl : string) (items : list Item) p m,
        findMatchingRequest capturedUrl items = Some (p, m) -> getAt p items = Some m)
  /\ (forall (P : Url.Parser) (capturedUrl : string) (it : Item) r,
        request it = Some r -> extractPostmanUrl r = Threw -> ~ SamePattern capturedUrl it)
  /\ (forall (P : Url.Parser) (capturedUrl method : string) (items : list Item),
        Document items ->
        FirstWhere (fun it => SamePattern capturedUrl it /\ SameMethod method it) (leaves items)
          (option_map snd (findMatchingRequestWithMethod capturedUrl method items)))
  /\ findMatchingRequest "https://api.x.com/items/99" itemsTree = Some ([0; 1], item42)
  /\ findMatchingRequestWithMethod "https://api.x.com/items/99" "POST" itemsTree = None
  /\ findMatchingRequestWithMethod "https://api.x.com/items/99" "get" itemsTree
     = Some ([0; 1], item42).
Proof.
  split; [|split; [|split; [|split; [|split; [|split]]]]].
  - intros P. apply findMatchingRequest_FirstWhere.
  - intros P capturedUrl items p m F. now apply (findMatchingRequest_sound _ _ F).
  - intros P capturedUrl it r R T [r' [u [R' [E _]]]]. congruence.
  - intros P. apply findMatchingRequestWithMethod_FirstWhere.
  - vm_compute. reflexivity.
  - vm_compute. reflexivity.
  - vm_compute. reflexivity.
Qed.

Lemma findMatchingRequest_first_leaf_witness :
  FirstWhere (SamePattern "https://api.x.com/items/99") (leaves itemsTree)
    (option_map snd (findMatchingRequest "https://api.x.com/items/99" itemsTree)).
Proof.
  apply (proj1 findMatchingRequest_first_leaf whatwg "https://api.x.com/items/99" itemsTree).
  reflexivity.
Defined.

(** C9.  A leaf that states no method is taken to have the method GET:
    when the queried method is GET in any case and the normalized URLs
    agree, the pattern+method matcher returns the leaf, alone in a
    collection or anywhere in a document where no earlier leaf matches. *)
Theorem findMatchingRequestWithMethod_default_GET
    (P : Url.Parser) (capturedUrl queried n : string) (r : RequestDef) :
  method r = None ->
  Js.toUpperCase queried = "GET" ->
  SamePattern capturedUrl (mkItem n None (Some r)) ->
  findMatchingRequestWithMethod capturedUrl queried [mkItem n None (Some r)]
    = Some ([0], mkItem n None (Some r))
  /\ forall items pre post,
       Document items ->
       leaves items = pre ++ mkItem n None (Some r) :: post ->
       (forall y, In y pre -> ~ (SamePattern capturedUrl y /\ SameMethod queried y)) ->
       option_map snd (findMatchingRequestWithMethod capturedUrl queried items)
         = Some (mkItem n None (Some r)).
Proof.
  intros M G S.
  assert (T : passes (matchesPatternAndMethod capturedUrl queried) (mkItem n None (Some r)) = true).
  { apply passes_matchesPatternAndMethod. split; [exact S|].
    exists r. split; [reflexivity|]. unfold postmanMethod. now rewrite M. }
  split.
  - unfold findMatchingRequestWithMethod, searchRecursive. simpl.
    unfold passes in T. simpl in T. now rewrite T.
  - intros items pre post W L F.
    unfold findMatchingRequestWithMethod. rewrite (searchRecursive_leaves _ W), L, find_app.
    rewrite find_all_false.
    + simpl. now rewrite T.
    + intros y Hy. destruct (passes _ y) eqn:E; [|reflexivity].
      exfalso. apply (F y Hy). now apply passes_matchesPatternAndMethod.
Qed.

Lemma findMatchingRequestWithMethod_default_GET_witness :
  findMatchingRequestWithMethod "https://api.x.com/items/7" "get" [listItems]
  = Some ([0], listItems).
Proof.
  refine (proj1 (@findMatchingRequestWithMethod_default_GET whatwg
                   "https://api.x.com/items/7" "get" "List items"
                   (mkRequestDef None [] (UrlObject (Some "https://api.x.com/items/42")) None None)
                   _ _ _)).
  - reflexivity.
  - reflexivity.
  - eexists; eexists. split; [reflexivity | split; reflexivity].
Defined.

(** ** The capture buffer *)

Lemma removelast_firstn_length {A : Type} (l : list A) (n : nat) :
  List.length l = S n -> removelast l = firstn n l.
Proof.
  revert n. induction l as [|a l IH]; intros n H; [discriminate|].
  destruct l as [|b l].
  - injection H as <-. reflexivity.
  - destruct n as [|n]; [discriminate|].
    change (removelast (a :: b :: l)) with (a :: removelast (b :: l)).
    rewrite (IH n); [reflexivity | simpl in *; lia].
Qed.

(** [unshift] then the bounded [pop] keeps the newest [max] entries. *)
Lemma limitTo_firstn (max : nat) (x : CapturedRequest.t) (buffer : list CapturedRequest.t) :
  List.length buffer <= max ->
  limitTo max (x :: buffer) = firstn max (x :: buffer).
Proof.
  intros H. unfold limitTo. destruct (max <? List.length (x :: buffer)) eqn:E.
  - apply Nat.ltb_lt in E. simpl in E.
    apply removelast_firstn_length. simpl. lia.
  - apply Nat.ltb_ge in E. symmetry. now apply firstn_all2.
Qed.

Lemma firstn_app_firstn {A : Type} (n : nat) (a b : list A) :
  firstn n (a ++ firstn n b) = firstn n (a ++ b).
Proof.
  rewrite !firstn_app, firstn_firstn. f_equal. f_equal. lia.
Qed.

Section BufferFacts.

Context {P : Url.Parser}.

#[local] Arguments firstn : simpl never.

(** One event either leaves the buffer as it is or puts one request in
    front of it and cuts it to its bound. *)
Lemma step_buffer (st : Capture) (e : Event) :
  capturedRequests (fst (step st e)) =
    match e with
    | BeforeSendHeaders now random details =>
        if admitted details
        then limitTo MAX_REQUESTS (buildRequest now random details st :: capturedRequests st)
        else capturedRequests st
    | _ => capturedRequests st
    end.
Proof.
  destruct e as [d | now random d | h c | | [|]]; simpl; try reflexivity.
  - unfold onBeforeRequest.
    destruct (negb (shouldCaptureRequest (detailsUrl d))); [reflexivity|].
    destruct (negb (isApiRequestType (detailsType d))); [reflexivity|].
    destruct (requestBody d); reflexivity.
  - unfold onBeforeSendHeaders, admitted.
    destruct (shouldCaptureRequest (detailsUrl d)); simpl; [|reflexivity].
    destruct (isApiRequestType (detailsType d)); simpl; [|reflexivity].
    destruct (Url.parse _); [|reflexivity].
    destruct (targetsHost _ _ _); reflexivity.
Qed.

Lemma run_cons (st : Capture) (e : Event) (rest : list Event) :
  run st (e :: rest) =
    (fst (run (fst (step st e)) rest), snd (step st e) :: snd (run (fst (step st e)) rest)).
Proof.
  simpl. destruct (step st e) as [st' out]. simpl.
  destruct (run st' rest) as [st'' outs]. reflexivity.
Qed.

(** The buffer after a run: the recorded requests, newest first, in front
    of the earlier entries, cut to the bound. *)
Lemma run_buffer (events : list Event) (st : Capture) :
  List.length (capturedRequests st) <= MAX_REQUESTS ->
  capturedRequests (fst (run st events))
  = firstn MAX_REQUESTS (rev (recorded st events) ++ capturedRequests st).
Proof.
  revert st. induction events as [|e rest IH]; intros st H.
  - simpl. symmetry. now apply firstn_all2.
  - rewrite run_cons. cbn [fst]. cbn [recorded].
    pose proof (step_buffer st e) as B.
    assert (B' : capturedRequests (fst (step st e)) =
                 firstn MAX_REQUESTS
                   (rev (match e with
                         | BeforeSendHeaders now random details =>
                             if admitted details then [buildRequest now random details st] else []
                         | _ => []
                         end) ++ capturedRequests st)).
    { rewrite B. destruct e as [d | now random d | h c | | b]; simpl;
        try (symmetry; now apply firstn_all2).
      destruct (admitted d); simpl; [now apply limitTo_firstn|].
      symmetry; now apply firstn_all2. }
    rewrite IH.
    + rewrite B', firstn_app_firstn, rev_app_distr, <- app_assoc. reflexivity.
    + rewrite B'. apply firstn_le_length.
Qed.

End BufferFacts.

(** C5.  From the start of the service worker and after any sequence of
    events the buffer holds the most recent recorded requests, newest
    first, and never more than 100 of them: each recorded request goes to
    the front and the entry at the back leaves when there are more than
    100.  After 150 recorded requests the buffer holds exactly the last
    100 of them, newest first; the oldest 50 are gone. *)
Theorem capture_buffer_bounded :
  (forall (P : Url.Parser) (events : list Event),
     capturedRequests (fst (run initialCapture events))
       = firstn 100 (rev (recorded initialCapture events))
     /\ List.length (capturedRequests (fst (run initialCapture events))) <= 100)
  /\ (forall (P : Url.Parser) (events : list Event),
        List.length (recorded initialCapture events) = 150 ->
        capturedRequests (fst (run initialCapture events))
          = rev (skipn 50 (recorded initialCapture events))
        /\ List.length (capturedRequests (fst (run initialCapture events))) = 100)
  /\ List.length (recorded initialCapture (fetches 150)) = 150
  /\ map CapturedRequest.timestamp (capturedRequests (fst (run initialCapture (fetches 150))))
     = map N.of_nat (rev (seq 50 100)).
Proof.
  assert (G : forall (P : Url.Parser) (events : list Event),
             capturedRequests (fst (run initialCapture events))
             = firstn 100 (rev (recorded initialCapture events))).
  { intros P events. rewrite run_buffer by (simpl; lia).
    simpl. now rewrite app_nil_r. }
  split; [|split; [|split]].
  - intros P events. split; [apply G|]. rewrite G. apply firstn_le_length.
  - intros P events L. rewrite G.
    assert (E : firstn 100 (rev (recorded initialCapture events))
                = rev (skipn 50 (recorded initialCapture events))).
    { rewrite <- (firstn_skipn 50 (recorded initialCapture events)) at 1.
      rewrite rev_app_distr, firstn_app.
      assert (L' : List.length (rev (skipn 50 (recorded initialCapture events))) = 100).
      { rewrite length_rev, length_skipn, L. reflexivity. }
      rewrite L', Nat.sub_diag, firstn_O, app_nil_r.
      apply firstn_all2. lia. }
    rewrite E. split; [reflexivity|]. rewrite length_rev, length_skipn, L. reflexivity.
  - vm_compute. reflexivity.
  - vm_compute. reflexivity.
Qed.

Lemma capture_buffer_bounded_witness :
  capturedRequests (fst (run initialCapture (fetches 150)))
    = rev (skipn 50 (recorded initialCapture (fetches 150)))
  /\ List.length (capturedRequests (fst (run initialCapture (fetches 150)))) = 100.
Proof.
  apply (proj1 (proj2 capture_buffer_bounded) whatwg (fetches 150)).
  vm_compute. reflexivity.
Defined.

(** ** The capture session *)

Section SessionFacts.

Context {P : Url.Parser}.

Lemma step_armed (host cid : string) (cb : Callback) (c y : nat) (st : Capture) (e : Event) :
  Armed host cid cb c y st ->
  isTraffic e = true ->
  let matching := filter (hasUrlHost host) (recorded st [e]) in
  Armed host cid cb
    (c + List.length matching)
    (y + (if syncSucceeded e then 1 else 0))
    (fst (step st e))
  /\ effectsOf [snd (step st e)] = map (Invoke cb) matching.
Proof.
  intros [CS CB] T. unfold Armed.
  destruct e as [d | now random d | h c' | | [|]]; try discriminate; cbn [recorded step fst snd].
  - (* onBeforeRequest *)
    rewrite !Nat.add_0_r. split; [|reflexivity].
    unfold onBeforeRequest.
    destruct (negb (shouldCaptureRequest (detailsUrl d))); [now split|].
    destruct (negb (isApiRequestType (detailsType d))); [now split|].
    destruct (requestBody d); now split.
  - (* onBeforeSendHeaders *)
    unfold onBeforeSendHeaders, admitted.
    destruct (shouldCaptureRequest (detailsUrl d)); cbn [negb andb app filter List.length map];
      [|rewrite !Nat.add_0_r; now repeat split].
    destruct (isApiRequestType (detailsType d)); cbn [negb andb app filter List.length map];
      [|rewrite !Nat.add_0_r; now repeat split].
    unfold hasUrlHost, targetsHost. rewrite CS, CB. cbn [isCapturing targetHost andb].
    change (CapturedRequest.url (buildRequest now random d st)) with (detailsUrl d).
    destruct (Url.parse (detailsUrl d)) as [urlObj|];
      [|cbn; rewrite !Nat.add_0_r; now repeat split].
    rewrite (String.eqb_sym host). destruct (String.eqb (Url.host urlObj) host);
      cbn; rewrite ?Nat.add_0_r, ?app_nil_r; now repeat split.
  - (* a successful upsert *)
    cbn. rewrite CS. cbn. rewrite !Nat.add_0_r. now repeat split.
  - (* a failed upsert *)
    cbn. rewrite !Nat.add_0_r. now repeat split.
Qed.

Lemma effectsOf_cons (o : Output) (outputs : list Output) :
  effectsOf (o :: outputs) = effectsOf [o] ++ effectsOf outputs.
Proof. unfold effectsOf. cbn [flat_map]. now rewrite app_nil_r. Qed.

Lemma recorded_cons (st : Capture) (e : Event) (rest : list Event) :
  recorded st (e :: rest) = recorded st [e] ++ recorded (fst (step st e)) rest.
Proof. cbn [recorded]. now rewrite app_nil_r. Qed.

Lemma run_armed (host cid : string) (cb : Callback) (events : list Event) :
  forall (c y : nat) (st : Capture),
  Armed host cid cb c y st ->
  forallb isTraffic events = true ->
  let matching := filter (hasUrlHost host) (recorded st events) in
  Armed host cid cb
    (c + List.length matching)
    (y + List.length (filter syncSucceeded events))
    (fst (run st events))
  /\ effectsOf (snd (run st events)) = map (Invoke cb) matching.
Proof.
  induction events as [|e rest IH]; intros c y st A T.
  - cbn. rewrite !Nat.add_0_r. split; [exact A | reflexivity].
  - cbn [forallb] in T. apply andb_true_iff in T. destruct T as [Te Tr].
    destruct (step_armed e A Te) as [A1 E1].
    destruct (IH _ _ _ A1 Tr) as [A2 E2].
    rewrite run_cons, recorded_cons. cbn [fst snd].
    rewrite filter_app, length_app, map_app.
    split.
    + replace (c + (List.length (filter (hasUrlHost host) (recorded st [e])) +
                    List.length (filter (hasUrlHost host) (recorded (fst (step st e)) rest))))
        with (c + List.length (filter (hasUrlHost host) (recorded st [e])) +
              List.length (filter (hasUrlHost host) (recorded (fst (step st e)) rest))) by lia.
      replace (y + List.length (filter syncSucceeded (e :: rest)))
        with (y + (if syncSucceeded e then 1 else 0) + List.length (filter syncSucceeded rest)).
      * exact A2.
      * cbn [filter]. destruct (syncSucceeded e); cbn [List.length]; lia.
    + rewrite effectsOf_cons. now rewrite E1, E2.
Qed.

End SessionFacts.

(** C8.  Between START_CAPTURE for a host and STOP_CAPTURE, whatever the
    state before: every request that is recorded and whose URL has that
    host is handed to the capture callback, in order, and counted in
    capturedCount; every upsert that settles successfully is counted in
    syncedCount; STOP_CAPTURE answers with the state holding these two
    counts and leaves the session idle, without a callback.  Three
    captures for the host (and one for another host) with two successful
    upserts and a failed one give capturedCount 3 and syncedCount 2. *)
Theorem capture_session_counts :
  (forall (P : Url.Parser) (st0 : Capture) (host cid : string) (events : list Event),
     forallb isTraffic events = true ->
     let armed := fst (step st0 (StartCapture host cid)) in
     let matching := filter (hasUrlHost host) (recorded armed events) in
     let st := fst (run armed events) in
     effectsOf (snd (run armed events)) = map (Invoke (UpsertInto cid)) matching
     /\ snd (step st StopCapture)
        = FinalState (mkCaptureState true (Some host) (Some cid)
                        (List.length matching)
                        (List.length (filter syncSucceeded events)))
     /\ captureState (fst (step st StopCapture)) = idleState
     /\ onCaptureCallback (fst (step st StopCapture)) = None)
  /\ last (snd (run initialCapture
                  (StartCapture "api.x.com" "col-1" :: sessionTraffic ++ [StopCapture])))
          (Effects [])
     = FinalState (mkCaptureState true (Some "api.x.com") (Some "col-1") 3 2)
  /\ captureState (fst (run initialCapture
                          (StartCapture "api.x.com" "col-1" :: sessionTraffic ++ [StopCapture])))
     = idleState.
Proof.
  split; [|split; vm_compute; reflexivity].
  intros P st0 host cid events T armed matching st.
  assert (A : Armed host cid (UpsertInto cid) 0 0 armed) by (split; reflexivity).
  destruct (run_armed events A T) as [[CS CB] E].
  split; [exact E|].
  cbn [step stopCapture fst snd]. fold st in CS. rewrite CS.
  repeat split.
Qed.

Lemma capture_session_counts_witness :
  snd (step (fst (run (fst (step initialCapture (StartCapture "api.x.com" "col-1")))
                      sessionTraffic))
            StopCapture)
  = FinalState (mkCaptureState true (Some "api.x.com") (Some "col-1") 3 2).
Proof.
  exact (proj1 (proj2 (proj1 capture_session_counts whatwg initialCapture
                         "api.x.com" "col-1" sessionTraffic eq_refl))).
Defined.

(** ** The sync orchestrator *)

Lemma findIndex_split {A : Type} (q : A -> bool) (l : list A) :
  match findIndex q l with
  | Some i =>
      exists pre a post, l = pre ++ a :: post /\ List.length pre = i /\ q a = true /\
                         forall x, In x pre -> q x = false
  | None => forall x, In x l -> q x = false
  end.
Proof.
  induction l as [|a l IH]; simpl.
  - intros x [].
  - destruct (q a) eqn:E.
    + exists [], a, l. repeat split; try assumption. intros x [].
    + destruct (findIndex q l) as [i|]; simpl.
      * destruct IH as [pre [b [post [-> [L [Q N]]]]]].
        exists (a :: pre), b, post. repeat split; simpl; try congruence.
        intros x [<- | Hx]; [exact E | now apply N].
      * intros x [<- | Hx]; [exact E | now apply IH].
Qed.

Lemma updateNth_app {A : Type} (f : A -> A) (pre : list A) (a : A) (post : list A) :
  updateNth (List.length pre) f (pre ++ a :: post) = pre ++ f a :: post.
Proof. induction pre as [|x pre IH]; simpl; [reflexivity | now rewrite IH]. Qed.

Lemma isAuthorization_Named (h : RequestHeader) :
  isAuthorization h = true <-> Named "authorization" h.
Proof. unfold isAuthorization, Named. apply String.eqb_eq. Qed.

Lemma isAuthorization_false (h : RequestHeader) :
  isAuthorization h = false -> ~ Named "authorization" h.
Proof. intros E N. apply isAuthorization_Named in N. congruence. Qed.

Lemma writeAuthorization_spec (v : string) (hs : list RequestHeader) :
  AuthorizationSet v hs (writeAuthorization v hs).
Proof.
  unfold writeAuthorization, AuthorizationSet.
  pose proof (findIndex_split isAuthorization hs) as S.
  destruct (findIndex isAuthorization hs) as [i|].
  - left. destruct S as [pre [h [post [-> [<- [Q N]]]]]].
    exists pre, h, post. repeat split.
    + now apply isAuthorization_Named.
    + intros x Hx. apply isAuthorization_false. now apply N.
    + apply (updateNth_app (fun h0 => mkHeader (key h0) v)).
  - right. split; [|reflexivity].
    intros x Hx. apply isAuthorization_false. now apply S.
Qed.

Lemma nth_error_updateNth {A : Type} (f : A -> A) (l : list A) (i : nat) :
  nth_error (updateNth i f l) i = option_map f (nth_error l i).
Proof.
  revert i. induction l as [|a l IH]; intros [|i]; simpl; try reflexivity. apply IH.
Qed.

Lemma getIn_updateIn (f : Item -> Item) (p : Path) :
  forall it m, getIn p it = Some m -> getIn p (updateIn p f it) = Some (f m).
Proof.
  induction p as [|i p IH]; intros it m.
  - simpl. now intros [= ->].
  - destruct it as [n [kids|] r]; simpl; [|discriminate].
    rewrite nth_error_updateNth.
    destruct (nth_error kids i) as [k|]; simpl; [apply IH | discriminate].
Qed.

(** The object a reference leads to is the one that was mutated. *)
Lemma getAt_updateAt (f : Item -> Item) (p : Path) (items : list Item) (m : Item) :
  getAt p items = Some m -> getAt p (updateAt p f items) = Some (f m).
Proof.
  destruct p as [|i p]; simpl; [discriminate|].
  rewrite nth_error_updateNth.
  destruct (nth_error items i) as [k|]; simpl; [apply getIn_updateIn | discriminate].
Qed.

Section UpdateFirst.

Variable test : RequestDef -> bool.
Variable f : Item -> Item.
Hypothesis f_leaf : forall x, item x = None -> item (f x) = None.

Let visit (i : nat) (k : Item) : option Ref := option_map (under i) (searchItem test k).

Lemma leavesOf_leaf (x : Item) : item x = None -> leavesOf x = [x].
Proof. destruct x as [n [kids|] r]; [discriminate | reflexivity]. Qed.

Lemma firstFrom_update (l : list Item) :
  Forall (fun k => folderOrLeaf k = true /\
                   forall p m, searchItem test k = Some (p, m) ->
                     exists pre post,
                       leavesOf k = pre ++ m :: post /\ find (passes test) pre = None /\
                       leavesOf (updateIn p f k) = pre ++ f m :: post) l ->
  forall i p m,
  firstFrom visit i l = Some (p, m) ->
  exists j p' pre post,
    p = (i + j) :: p' /\
    flat_map leavesOf l = pre ++ m :: post /\ find (passes test) pre = None /\
    flat_map leavesOf (updateNth j (updateIn p' f) l) = pre ++ f m :: post.
Proof.
  intros H. induction H as [|k l [W Hk] _ IH]; intros i p m; simpl; [discriminate|].
  unfold visit at 1. destruct (searchItem test k) as [[p' m']|] eqn:E; simpl.
  - intros [= <- <-]. destruct (Hk _ _ eq_refl) as [pre [post [L [N U]]]].
    exists 0, p', pre, (post ++ flat_map leavesOf l).
    rewrite Nat.add_0_r. simpl. rewrite L, U, <- !app_assoc. repeat split. exact N.
  - intros F. destruct (IH _ _ _ F) as [j [p' [pre [post [-> [L [N U]]]]]]].
    exists (S j), p', (leavesOf k ++ pre), post.
    rewrite Nat.add_succ_r. simpl. rewrite L, U, <- !app_assoc. repeat split.
    rewrite find_app, N.
    pose proof (searchItem_leaves test k W) as SL. rewrite E in SL. simpl in SL.
    now rewrite <- SL.
Qed.

Lemma searchItem_update (it : Item) :
  folderOrLeaf it = true ->
  forall p m, searchItem test it = Some (p, m) ->
  exists pre post,
    leavesOf it = pre ++ m :: post /\ find (passes test) pre = None /\
    leavesOf (updateIn p f it) = pre ++ f m :: post.
Proof.
  induction it as [n r | n kids r IH] using Item_nested_ind; intros W p m.
  - simpl. destruct r as [r|]; [|discriminate].
    destruct (test r); [|discriminate]. intros [= <- <-].
    exists [], []. repeat split. simpl. apply leavesOf_leaf. now apply f_leaf.
  - destruct r as [r|]; [discriminate|]. simpl in W.
    change (searchItem test (mkItem n (Some kids) None))
      with (match firstFrom visit 0 kids with Some m => Some m | None => None end).
    destruct (firstFrom visit 0 kids) as [[p' m']|] eqn:F; [|discriminate].
    intros [= <- <-].
    assert (H : Forall (fun k => folderOrLeaf k = true /\
                   forall p m, searchItem test k = Some (p, m) ->
                     exists pre post,
                       leavesOf k = pre ++ m :: post /\ find (passes test) pre = None /\
                       leavesOf (updateIn p f k) = pre ++ f m :: post) kids).
    { rewrite forallb_forall in W. rewrite Forall_forall in *.
      intros k Hk. split; [now apply W | apply IH; [exact Hk | now apply W]]. }
    destruct (firstFrom_update H _ F) as [j [q [pre [post [-> [L [N U]]]]]]].
    exists pre, post. simpl. repeat split; assumption.
Qed.

(** In a document, mutating the object that the search returns changes
    the first leaf that passes the test and no other leaf. *)
Lemma searchRecursive_update (items : list Item) (p : Path) (m : Item) :
  Document items ->
  searchRecursive test items = Some (p, m) ->
  exists pre post,
    leaves items = pre ++ m :: post /\
    (forall y, In y pre -> passes test y = false) /\
    leaves (updateAt p f items) = pre ++ f m :: post.
Proof.
  intros W F. unfold Document in W.
  assert (H : Forall (fun k => folderOrLeaf k = true /\
                 forall p m, searchItem test k = Some (p, m) ->
                   exists pre post,
                     leavesOf k = pre ++ m :: post /\ find (passes test) pre = None /\
                     leavesOf (updateIn p f k) = pre ++ f m :: post) items).
  { rewrite forallb_forall in W. rewrite Forall_forall.
    intros k Hk. split; [now apply W | apply searchItem_update; now apply W]. }
  destruct (firstFrom_update H _ F) as [j [q [pre [post [-> [L [N U]]]]]]].
  exists pre, post. repeat split; try assumption.
  intros y Hy. pose proof (find_none _ _ N y Hy) as E. exact E.
Qed.

End UpdateFirst.

Section UpdateAll.

Variable test : RequestDef -> bool.
Variable g : RequestDef -> RequestDef.

Let collect (i : nat) (k : Item) : list Ref := map (under i) (collectItem test k).
Let mutateIn (it : Item) (ref : Ref) : Item := updateIn (fst ref) (onRequest g) it.
Let mutate (items : list Item) (ref : Ref) : list Item := updateAt (fst ref) (onRequest g) items.

Lemma allFrom_cons (i : nat) (k : Item) (l : list Item) :
  allFrom collect i (k :: l) = collect i k ++ allFrom collect (S i) l.
Proof. reflexivity. Qed.

(** Mutations below the child at position [i] stay inside that child. *)
Lemma mutate_under (refs : list Ref) (done : list Item) (k : Item) (todo : list Item) :
  fold_left mutate (map (under (List.length done)) refs) (done ++ k :: todo)
  = done ++ fold_left mutateIn refs k :: todo.
Proof.
  revert k. induction refs as [|[p x] refs IH]; intros k; [reflexivity|].
  cbn [map fold_left]. unfold mutate at 2, under. cbn [fst snd updateAt].
  rewrite updateNth_app. apply IH.
Qed.

Lemma mutate_allFrom (todo : list Item) :
  Forall (fun k => fold_left mutateIn (collectItem test k) k = updateRequests test g k) todo ->
  forall done,
  fold_left mutate (allFrom collect (List.length done) todo) (done ++ todo)
  = done ++ map (updateRequests test g) todo.
Proof.
  intros H. induction H as [|k todo Hk _ IH]; intros done; [reflexivity|].
  rewrite allFrom_cons, fold_left_app.
  change (collect (List.length done) k)
    with (map (under (List.length done)) (collectItem test k)).
  rewrite mutate_under, Hk.
  replace (S (List.length done)) with (List.length (done ++ [updateRequests test g k]))
    by (rewrite length_app; simpl; lia).
  replace (done ++ updateRequests test g k :: todo)
    with ((done ++ [updateRequests test g k]) ++ todo) by (now rewrite <- app_assoc).
  rewrite IH, <- app_assoc. reflexivity.
Qed.

(** A mutation through a path that goes below a folder is a mutation of
    its children. *)
Lemma mutateIn_children (n : string) (r : option RequestDef) (i : nat) (l : list Item) :
  forall kids,
  fold_left mutateIn (allFrom collect i l) (mkItem n (Some kids) r)
  = mkItem n (Some (fold_left mutate (allFrom collect i l) kids)) r.
Proof.
  revert i. induction l as [|k l IH]; intros i kids; [reflexivity|].
  rewrite allFrom_cons, !fold_left_app, <- IH. f_equal.
  unfold collect. clear IH. revert kids.
  induction (collectItem test k) as [|[p x] refs IHr]; intros kids; [reflexivity|].
  cbn [map fold_left]. rewrite <- IHr. reflexivity.
Qed.

Lemma mutateIn_collectItem (it : Item) :
  fold_left mutateIn (collectItem test it) it = updateRequests test g it.
Proof.
  induction it as [n r | n kids r IH] using Item_nested_ind.
  - cbn [collectItem updateRequests option_map app].
    destruct r as [r|]; [|reflexivity]. cbn [option_map].
    destruct (test r); reflexivity.
  - change (collectItem test (mkItem n (Some kids) r))
      with (allFrom collect 0 kids ++
            match r with
            | Some r' => if test r' then [([], mkItem n (Some kids) r)] else []
            | None => []
            end).
    rewrite fold_left_app, mutateIn_children.
    pose proof (mutate_allFrom IH []) as E. cbn [List.length app] in E. rewrite E.
    cbn [app updateRequests option_map].
    destruct r as [r|]; [|reflexivity]. cbn [option_map].
    destruct (test r); reflexivity.
Qed.

(** Mutating every object that the collecting search returns gives the
    tree with every request that passes the test rewritten. *)
Lemma mutate_collectRecursive (items : list Item) :
  fold_left mutate (collectRecursive test items) items = map (updateRequests test g) items.
Proof.
  assert (H : Forall (fun k => fold_left mutateIn (collectItem test k) k
                               = updateRequests test g k) items).
  { rewrite Forall_forall. intros k _. apply mutateIn_collectItem. }
  exact (mutate_allFrom H []).
Qed.

Lemma allFrom_leaves (l : list Item) (i : nat) :
  Forall (fun k => map snd (collectItem test k) = filter (passes test) (leavesOf k)) l ->
  map snd (allFrom collect i l) = filter (passes test) (flat_map leavesOf l).
Proof.
  intros H; revert i. induction H as [|k l Hk _ IH]; intros i; [reflexivity|].
  rewrite allFrom_cons, map_app, IH. cbn [flat_map]. rewrite filter_app, <- Hk.
  f_equal. unfold collect. rewrite map_map. reflexivity.
Qed.

Lemma collectItem_leaves (it : Item) :
  folderOrLeaf it = true ->
  map snd (collectItem test it) = filter (passes test) (leavesOf it).
Proof.
  induction it as [n r | n kids r IH] using Item_nested_ind; intros W.
  - cbn. unfold passes. cbn. destruct r as [r|]; [|reflexivity].
    destruct (test r); reflexivity.
  - destruct r as [r|]; [discriminate|]. simpl in W.
    change (collectItem test (mkItem n (Some kids) None)) with (allFrom collect 0 kids ++ []).
    rewrite app_nil_r. apply allFrom_leaves.
    rewrite forallb_forall in W. rewrite Forall_forall in *.
    intros k Hk. apply IH; [exact Hk | now apply W].
Qed.

(** In a document the collecting search returns the leaves that pass the
    test, in depth-first order. *)
Lemma collectRecursive_leaves (items : list Item) :
  Document items ->
  map snd (collectRecursive test items) = filter (passes test) (leaves items).
Proof.
  intros W. apply allFrom_leaves. unfold Document in W.
  rewrite forallb_forall in W. rewrite Forall_forall.
  intros k Hk. apply collectItem_leaves. now apply W.
Qed.

End UpdateAll.

Lemma setAuthorization_leaf (v : string) (x : Item) :
  item x = None -> item (setAuthorization v x) = None.
Proof. destruct x as [n kids r]; simpl; trivial. Qed.

Section OrchestratorFacts.

Context {P : Url.Parser}.
Variable remote : Remote.

(** The run of update-by-match once the key is configured and the
    collection was fetched. *)
Lemma updateTokenInCollection_run (cid apiKey : string) (req : CapturedRequest.t)
    (collection : Collection) :
  getPostmanApiKey remote = Some apiKey ->
  getResponse remote cid = inr collection ->
  updateTokenInCollection remote cid req [] =
    match findMatchingRequest (CapturedRequest.url req) (itemsOf collection) with
    | None =>
        (inl (ErrorThrown
                "No matching request found in collection. The URL pattern does not match any existing requests."),
         [Get cid])
    | Some ref =>
        let updated := mutateAt ref (setAuthorization (newAuthValueOf req)) collection in
        (match putResponse remote cid updated with
         | None => inr (mkUpdateResult true (name (snd ref)))
         | Some e => inl (ErrorThrown ("Failed to update token: " ++ describeAxios e)%string)
         end,
         [Get cid; Put cid updated])
    end.
Proof.
  intros K G.
  unfold updateTokenInCollection, tryCatch, bind, getCollection, tryCatch, bind,
    getApiHeaders, axiosGet, axiosPut, ret, throw.
  rewrite K, G. cbn [app].
  destruct (findMatchingRequest _ _) as [ref|]; [|reflexivity].
  fold (newAuthValueOf req). cbn zeta.
  destruct (putResponse remote cid _); reflexivity.
Qed.

Lemma updateTokenForHost_run (cid host authValue apiKey : string) (authType : AuthType)
    (collection : Collection) :
  getPostmanApiKey remote = Some apiKey ->
  getResponse remote cid = inr collection ->
  let v := if AuthType_eqb authType bearer then ("Bearer " ++ authValue)%string
           else authValue in
  let matches := findAllRequestsForHost host (itemsOf collection) in
  let updated :=
    fold_left (fun c request => mutateAt request (setAuthorization v) c) matches collection in
  updateTokenForHost remote cid host authValue authType [] =
    match matches with
    | [] =>
        (inl (ErrorThrown ("No requests found for host " ++ doubleQuote ++ host ++ doubleQuote
                           ++ " in this collection.")%string),
         [Get cid])
    | _ :: _ =>
        (match putResponse remote cid updated with
         | None => inr (mkBulkResult (List.length matches) (List.length matches)
                          (map (fun request => name (snd request)) matches))
         | Some e => inl (ErrorThrown ("Failed to update tokens: " ++ describeAxios e)%string)
         end,
         [Get cid; Put cid updated])
    end.
Proof.
  intros K G v matches updated.
  unfold updateTokenForHost, tryCatch, bind, getCollection, tryCatch, bind,
    getApiHeaders, axiosGet, axiosPut, ret, throw.
  rewrite K, G. cbn [app]. fold matches. fold v.
  destruct matches as [|m ms] eqn:E; [reflexivity|].
  fold updated. destruct (putResponse remote cid updated); reflexivity.
Qed.

End OrchestratorFacts.

(** C6.  With the API key configured and the collection fetched:
    when the pattern-only match finds no leaf, update-by-match throws the
    no-matching-request error and sends no PUT; when it finds a leaf, it
    sends exactly one PUT, after the GET, whose document is the fetched
    one with the request of the matched leaf changed in its header list
    only: the value of its first Authorization header replaced, or an
    Authorization header added at the end when it has none.  The value
    written is the credential behind the word Bearer for a bearer request
    and the raw credential otherwise.  In a document every other leaf is
    as it was fetched. *)
Theorem updateTokenInCollection_by_match
    (P : Url.Parser) (remote : Remote) (cid apiKey : string)
    (req : CapturedRequest.t) (collection : Collection) :
  getPostmanApiKey remote = Some apiKey ->
  getResponse remote cid = inr collection ->
  (findMatchingRequest (CapturedRequest.url req) (itemsOf collection) = None ->
   updateTokenInCollection remote cid req [] =
     (inl (ErrorThrown
             "No matching request found in collection. The URL pattern does not match any existing requests."),
      [Get cid]))
  /\ (forall p m,
      findMatchingRequest (CapturedRequest.url req) (itemsOf collection) = Some (p, m) ->
      exists v r hs' updated,
        (CapturedRequest.authType req = bearer ->
         forall t, CapturedRequest.authValue req = Some t -> v = ("Bearer " ++ t)%string)
        /\ (CapturedRequest.authType req <> bearer ->
            forall t, CapturedRequest.authValue req = Some t -> v = t)
        /\ request m = Some r
        /\ AuthorizationSet v (header r) hs'
        /\ snd (updateTokenInCollection remote cid req []) = [Get cid; Put cid updated]
        /\ (putResponse remote cid updated = None ->
            fst (updateTokenInCollection remote cid req [])
            = inr (mkUpdateResult true (name m)))
        /\ collectionInfo updated = collectionInfo collection
        /\ getAt p (itemsOf updated)
           = Some (mkItem (name m) (item m) (Some (withHeader hs' r)))
        /\ (Document (itemsOf collection) ->
            exists pre post,
              leaves (itemsOf collection) = pre ++ m :: post
              /\ (forall y, In y pre -> ~ SamePattern (CapturedRequest.url req) y)
              /\ leaves (itemsOf updated)
                 = pre ++ mkItem (name m) (item m) (Some (withHeader hs' r)) :: post)).
Proof.
  intros K G.
  pose proof (@updateTokenInCollection_run P remote cid apiKey req collection K G) as R.
  split.
  - intros F. rewrite F in R. exact R.
  - intros p m F. rewrite F in R. cbn zeta in R.
    destruct (findMatchingRequest_sound _ _ F) as [GA [r [u [RQ _]]]].
    exists (newAuthValueOf req), r, (writeAuthorization (newAuthValueOf req) (header r)),
      (mutateAt (p, m) (setAuthorization (newAuthValueOf req)) collection).
    assert (SM : setAuthorization (newAuthValueOf req) m
                 = mkItem (name m) (item m)
                     (Some (withHeader (writeAuthorization (newAuthValueOf req) (header r)) r))).
    { destruct m as [n kids rq]. simpl in RQ. subst rq. reflexivity. }
    split; [|split; [|split; [|split; [|split; [|split; [|split; [|split]]]]]]].
    + intros B t V. unfold newAuthValueOf. now rewrite B, V.
    + intros B t V. unfold newAuthValueOf. rewrite V.
      destruct (CapturedRequest.authType req); try reflexivity. contradiction.
    + exact RQ.
    + apply writeAuthorization_spec.
    + now rewrite R.
    + intros PR. rewrite R, PR. reflexivity.
    + reflexivity.
    + cbn [mutateAt itemsOf collectionItem fst]. rewrite <- SM. now apply getAt_updateAt.
    + intros W.
      destruct (@searchRecursive_update (matchesPattern (CapturedRequest.url req))
                  (setAuthorization (newAuthValueOf req))
                  (setAuthorization_leaf (newAuthValueOf req))
                  (itemsOf collection) p m W F)
        as [pre [post [L [N U]]]].
      exists pre, post. split; [exact L|]. split.
      * intros y Hy S. apply passes_matchesPattern in S. rewrite (N y Hy) in S. discriminate.
      * cbn [mutateAt itemsOf collectionItem fst]. now rewrite <- SM.
Qed.

Lemma updateTokenInCollection_by_match_witness :
  exists updated,
    snd (updateTokenInCollection (remoteHolding hostCollection) "col-1" orderRequest [])
    = [Get "col-1"; Put "col-1" updated]
    /\ fst (updateTokenInCollection (remoteHolding hostCollection) "col-1" orderRequest [])
       = inr (mkUpdateResult true "Get order").
Proof.
  destruct (proj2 (@updateTokenInCollection_by_match whatwg (remoteHolding hostCollection)
                     "col-1" "PMAK-1" orderRequest hostCollection eq_refl eq_refl)
              [1; 0] (bearerLeaf "Get order" "https://api.h.com/orders/17") eq_refl)
    as [v [r [hs' [updated [_ [_ [_ [_ [W [O _]]]]]]]]]].
  exists updated. split; [exact W | exact (O eq_refl)].
Defined.

(** Every request in the buffer was built by the capture path. *)
Lemma recorded_Classified {P : Url.Parser} (events : list Event) :
  forall st req, In req (recorded st events) -> Classified req.
Proof.
  induction events as [|e rest IH]; intros st req; [intros []|].
  cbn [recorded]. rewrite in_app_iff. intros [H | H]; [|now apply IH in H].
  destruct e as [d | now random d | h c | | b]; try contradiction.
  destruct (admitted d); [|contradiction].
  destruct H as [<- | []]. split; reflexivity.
Qed.

Lemma In_firstn {A : Type} (n : nat) (l : list A) (x : A) : In x (firstn n l) -> In x l.
Proof.
  intros H. rewrite <- (firstn_skipn n l). apply in_or_app. now left.
Qed.

Lemma buffer_Classified {P : Url.Parser} (events : list Event) (req : CapturedRequest.t) :
  In req (capturedRequests (fst (run initialCapture events))) -> Classified req.
Proof.
  rewrite run_buffer by (simpl; lia). intros H. apply In_firstn in H.
  rewrite app_nil_r in H. apply in_rev in H. now apply recorded_Classified in H.
Qed.

(** A classified request without a credential has the type none and no value. *)
Lemma Classified_no_credential (req : CapturedRequest.t) :
  Classified req ->
  CapturedRequest.authType req = none \/ CapturedRequest.authValue req = None ->
  newAuthValueOf req = EmptyString.
Proof.
  intros [T V] H.
  pose proof (detectAuthType_value (CapturedRequest.headers req)) as D.
  rewrite <- T, <- V in D.
  assert (N : CapturedRequest.authType req = none) by (destruct H; [assumption | now apply D]).
  assert (A : CapturedRequest.authValue req = None) by now apply D.
  unfold newAuthValueOf. now rewrite N, A.
Qed.

(** C10.  Update-by-match asks for no credential.  For every request in
    the capture buffer whose auth type is none or whose auth value is
    absent, once the key is configured, the collection fetched and a
    pattern match found, the UPDATE_TOKEN handler writes the empty string
    as the value of the matched leaf's Authorization header (replacing
    the value of the first such header, or adding the header with an
    empty value) and still sends its one PUT. *)
Theorem updateToken_without_credential
    (P : Url.Parser) (remote : Remote) (events : list Event)
    (requestId cid apiKey : string) (req : CapturedRequest.t)
    (collection : Collection) (p : Path) (m : Item) :
  getCapturedRequest requestId (fst (run initialCapture events)) = Some req ->
  CapturedRequest.authType req = none \/ CapturedRequest.authValue req = None ->
  getPostmanApiKey remote = Some apiKey ->
  getResponse remote cid = inr collection ->
  findMatchingRequest (CapturedRequest.url req) (itemsOf collection) = Some (p, m) ->
  exists r hs' updated,
    request m = Some r
    /\ AuthorizationSet EmptyString (header r) hs'
    /\ getAt p (itemsOf updated) = Some (mkItem (name m) (item m) (Some (withHeader hs' r)))
    /\ snd (updateTokenInCollection remote cid req []) = [Get cid; Put cid updated]
    /\ snd (handleUpdateToken remote requestId cid (fst (run initialCapture events)) [])
       = [Get cid; Put cid updated]
    /\ (putResponse remote cid updated = None ->
        fst (handleUpdateToken remote requestId cid (fst (run initialCapture events)) [])
        = inr (mkResponse true
                 (Some ("Token updated in " ++ doubleQuote ++ name m ++ doubleQuote ++ "!")%string)
                 None)).
Proof.
  intros B C K G F.
  assert (CL : Classified req).
  { apply (buffer_Classified events). unfold getCapturedRequest in B.
    now apply find_some in B. }
  pose proof (Classified_no_credential CL C) as V.
  pose proof (@updateTokenInCollection_run P remote cid apiKey req collection K G) as R.
  rewrite F, V in R. cbn zeta in R.
  destruct (findMatchingRequest_sound _ _ F) as [GA [r [u [RQ _]]]].
  exists r, (writeAuthorization EmptyString (header r)),
    (mutateAt (p, m) (setAuthorization EmptyString) collection).
  assert (SM : setAuthorization EmptyString m
               = mkItem (name m) (item m)
                   (Some (withHeader (writeAuthorization EmptyString (header r)) r))).
  { destruct m as [n kids rq]. simpl in RQ. subst rq. reflexivity. }
  assert (HR : handleUpdateToken remote requestId cid (fst (run initialCapture events)) []
               = (match putResponse remote cid
                          (mutateAt (p, m) (setAuthorization EmptyString) collection) with
                  | None =>
                      inr (mkResponse true
                             (Some ("Token updated in " ++ doubleQuote ++ name m
                                    ++ doubleQuote ++ "!")%string) None)
                  | Some e =>
                      inr (mkResponse false None
                             (Some ("Failed to update token: " ++ describeAxios e)%string))
                  end,
                  [Get cid; Put cid (mutateAt (p, m) (setAuthorization EmptyString) collection)])).
  { unfold handleUpdateToken, tryCatch, bind. rewrite B, R.
    destruct (putResponse remote cid _); reflexivity. }
  split; [exact RQ|]. split; [apply writeAuthorization_spec|]. split; [|split; [|split]].
  - cbn [mutateAt itemsOf collectionItem fst]. rewrite <- SM. now apply getAt_updateAt.
  - now rewrite R.
  - now rewrite HR.
  - intros PR. now rewrite HR, PR.
Qed.

Lemma updateToken_without_credential_witness :
  exists updated,
    snd (handleUpdateToken (remoteHolding hostCollection) "2-b" "col-1"
           (fst (run initialCapture
                   [BeforeSendHeaders 2 "b" (fetchOf "https://api.h.com/ping")])) [])
    = [Get "col-1"; Put "col-1" updated]
    /\ getAt [2] (itemsOf updated)
       = Some (mkItem "Ping" None
                 (Some (mkRequestDef (Some "GET") [mkHeader "Authorization" EmptyString]
                          (UrlString "https://api.h.com/ping") None None))).
Proof.
  destruct (@updateToken_without_credential whatwg (remoteHolding hostCollection)
              [BeforeSendHeaders 2 "b" (fetchOf "https://api.h.com/ping")]
              "2-b" "col-1" "PMAK-1"
              (CapturedRequest.mk "2-b" 2 "GET" "https://api.h.com/ping"
                 [mkHeader "Accept" "*/*"] None none None)
              hostCollection [2] (getLeaf "Ping" "https://api.h.com/ping")
              eq_refl (or_introl eq_refl) eq_refl eq_refl eq_refl)
    as [r [hs' [updated [RQ [[[pre [h [post [E _]]]] | [_ HS]] [GA [_ [W _]]]]]]]].
  - injection RQ as <-. destruct pre; discriminate E.
  - exists updated. split; [exact W|]. injection RQ as <-. rewrite GA, HS. reflexivity.
Defined.

Lemma fold_mutateAt (f : Item -> Item) (refs : list Ref) :
  forall items info,
  fold_left (fun c request => mutateAt request f c) refs (mkCollection (Some items) info)
  = mkCollection (Some (fold_left (fun l ref => updateAt (fst ref) f l) refs items)) info.
Proof.
  induction refs as [|ref refs IH]; intros items info; [reflexivity|].
  cbn [fold_left]. unfold mutateAt at 2. cbn [itemsOf collectionItem collectionInfo].
  apply IH.
Qed.

(** C7.  With the API key configured and the collection fetched: when no
    request of the collection has the target host, the bulk rotation
    throws the no-requests-for-host error and sends no PUT; otherwise it
    sends exactly one PUT, after the GET, whose document is the fetched
    one with the Authorization header written (first one replaced, or one
    added) in every request whose URL host is the target host and in no
    other, and it returns the number of these requests and their names.
    The value written is the credential behind the word Bearer for the
    type bearer, the credential itself otherwise.  In a document the
    requests found are the leaves with that host, depth first.  For a
    collection with three leaves for api.h.com and one for api.y.com the
    rotation for api.h.com updates the three leaves in one PUT and
    reports updatedCount 3. *)
Theorem updateTokenForHost_bulk :
  (forall (P : Url.Parser) (remote : Remote) (cid host authValue apiKey : string)
          (authType : AuthType) (collection : Collection),
     getPostmanApiKey remote = Some apiKey ->
     getResponse remote cid = inr collection ->
     let matches := findAllRequestsForHost host (itemsOf collection) in
     (matches = [] ->
      updateTokenForHost remote cid host authValue authType [] =
        (inl (ErrorThrown ("No requests found for host " ++ doubleQuote ++ host ++ doubleQuote
                           ++ " in this collection.")%string),
         [Get cid]))
     /\ (matches <> [] ->
         exists v updated,
           (authType = bearer -> v = ("Bearer " ++ authValue)%string)
           /\ (authType <> bearer -> v = authValue)
           /\ snd (updateTokenForHost remote cid host authValue authType [])
              = [Get cid; Put cid updated]
           /\ collectionInfo updated = collectionInfo collection
           /\ itemsOf updated
              = map (updateRequests (hasHost host) (withAuthorization v)) (itemsOf collection)
           /\ (forall r, AuthorizationSet v (header r) (header (withAuthorization v r))
                         /\ withAuthorization v r
                            = mkRequestDef (method r) (header (withAuthorization v r))
                                (url r) (body r) (auth r))
           /\ (putResponse remote cid updated = None ->
               fst (updateTokenForHost remote cid host authValue authType [])
               = inr (mkBulkResult (List.length matches) (List.length matches)
                        (map (fun ref => name (snd ref)) matches))))
     /\ (Document (itemsOf collection) ->
         map snd matches = filter (passes (hasHost host)) (leaves (itemsOf collection))))
  /\ updateTokenForHost (remoteHolding hostCollection) "col-1" "api.h.com" "new" bearer []
     = (inr (mkBulkResult 3 3 ["List users"; "Get order"; "Ping"]),
        [Get "col-1"; Put "col-1" rotatedCollection]).
Proof.
  split; [|vm_compute; reflexivity].
  intros P remote cid host authValue apiKey authType collection K G matches.
  pose proof (@updateTokenForHost_run P remote cid host authValue apiKey authType
                collection K G) as R.
  cbn zeta in R. fold matches in R.
  split; [|split].
  - intros E. rewrite E in R. exact R.
  - intros NE.
    set (v := if AuthType_eqb authType bearer then ("Bearer " ++ authValue)%string
              else authValue) in *.
    assert (I : exists items, collectionItem collection = Some items).
    { destruct (collectionItem collection) as [items|] eqn:CI; [now exists items|].
      exfalso. apply NE. unfold matches, itemsOf. rewrite CI. reflexivity. }
    destruct I as [items CI].
    assert (U : fold_left (fun c request => mutateAt request (setAuthorization v) c)
                  matches collection
                = mkCollection
                    (Some (map (updateRequests (hasHost host) (withAuthorization v))
                             (itemsOf collection)))
                    (collectionInfo collection)).
    { destruct collection as [ci info]. simpl in CI. subst ci.
      rewrite fold_mutateAt. cbn [itemsOf collectionItem collectionInfo].
      unfold matches, findAllRequestsForHost, setAuthorization.
      cbn [itemsOf collectionItem]. now rewrite mutate_collectRecursive. }
    rewrite U in R.
    exists v, (mkCollection
                 (Some (map (updateRequests (hasHost host) (withAuthorization v))
                          (itemsOf collection)))
                 (collectionInfo collection)).
    destruct matches as [|m0 ms] eqn:EM; [contradiction|].
    split; [|split; [|split; [|split; [|split; [|split]]]]].
    + intros ->. reflexivity.
    + intros B. unfold v. destruct authType; try reflexivity. contradiction.
    + now rewrite R.
    + reflexivity.
    + reflexivity.
    + intros r. split; [apply writeAuthorization_spec | reflexivity].
    + intros PR. rewrite R, PR. reflexivity.
  - intros W. apply collectRecursive_leaves. exact W.
Qed.

Lemma updateTokenForHost_bulk_witness :
  map snd (findAllRequestsForHost "api.h.com" (itemsOf hostCollection))
  = filter (passes (hasHost "api.h.com")) (leaves (itemsOf hostCollection)).
Proof.
  refine (proj2 (proj2 (proj1 updateTokenForHost_bulk whatwg (remoteHolding hostCollection)
                          "col-1" "api.h.com" "new" "PMAK-1" bearer hostCollection
                          eq_refl eq_refl)) _).
  reflexivity.
Defined.

(* ================================================================== *)
(** * Part III — more properties of the program *)
(* ================================================================== *)

(** ** The matchers together *)

Lemma hd_error_app {A : Type} (a b : list A) :
  hd_error (a ++ b) = match hd_error a with Some x => Some x | None => hd_error b end.
Proof. destruct a; reflexivity. Qed.

Lemma hd_error_map {A B : Type} (f : A -> B) (l : list A) :
  hd_error (map f l) = option_map f (hd_error l).
Proof. destruct l; reflexivity. Qed.

Lemma NoDup_map_cons {A : Type} (a : A) (l : list (list A)) :
  NoDup l -> NoDup (map (cons a) l).
Proof.
  induction 1 as [|x l N _ IH]; simpl; constructor; [|exact IH].
  rewrite in_map_iff. intros [y [E Hy]]. injection E as ->. contradiction.
Qed.

Section SearchAll.

Variable test : RequestDef -> bool.

Let visit (i : nat) (k : Item) : option Ref := option_map (under i) (searchItem test k).
Let collect (i : nat) (k : Item) : list Ref := map (under i) (collectItem test k).

Lemma firstFrom_hd (l : list Item) :
  Forall (fun k => searchItem test k = hd_error (collectItem test k)) l ->
  forall i, firstFrom visit i l = hd_error (allFrom collect i l).
Proof.
  intros H. induction H as [|k l Hk _ IH]; intros i; [reflexivity|].
  cbn [firstFrom allFrom]. rewrite hd_error_app. unfold visit at 1, collect at 1.
  rewrite hd_error_map, Hk. destruct (hd_error (collectItem test k)); simpl; [reflexivity|].
  apply IH.
Qed.

Lemma searchItem_hd (it : Item) : searchItem test it = hd_error (collectItem test it).
Proof.
  induction it as [n r | n kids r IH] using Item_nested_ind.
  - cbn. destruct r as [r|]; [|reflexivity]. destruct (test r); reflexivity.
  - change (searchItem test (mkItem n (Some kids) r))
      with (match firstFrom visit 0 kids with
            | Some m => Some m
            | None => match r with
                      | Some r' => if test r' then Some ([], mkItem n (Some kids) r) else None
                      | None => None
                      end
            end).
    change (collectItem test (mkItem n (Some kids) r))
      with (allFrom collect 0 kids ++
            match r with
            | Some r' => if test r' then [([], mkItem n (Some kids) r)] else []
            | None => []
            end).
    rewrite hd_error_app, (firstFrom_hd IH).
    destruct (hd_error (allFrom collect 0 kids)); [reflexivity|].
    destruct r as [r|]; [|reflexivity]. destruct (test r); reflexivity.
Qed.

(** The first-match search returns the first result of the collecting
    search. *)
Lemma searchRecursive_hd (items : list Item) :
  searchRecursive test items = hd_error (collectRecursive test items).
Proof.
  apply firstFrom_hd. rewrite Forall_forall. intros k _. apply searchItem_hd.
Qed.

Lemma allFrom_In (l : list Item) (q : Path) (m : Item) :
  forall i,
  In (q, m) (allFrom collect i l) <->
  exists j k p', q = (i + j) :: p' /\ nth_error l j = Some k /\ In (p', m) (collectItem test k).
Proof.
  induction l as [|a l IH]; intros i.
  - simpl. split; [intros [] | intros [[|j] [k [p' [_ [H _]]]]]; discriminate].
  - cbn [allFrom]. rewrite in_app_iff, IH. unfold collect at 1. rewrite in_map_iff. split.
    + intros [[[p' x] [E H]] | [j [k [p' [-> [N H]]]]]].
      * unfold under in E. cbn [fst snd] in E. injection E as <- <-.
        exists 0, a, p'. rewrite Nat.add_0_r. repeat split. exact H.
      * exists (S j), k, p'. rewrite Nat.add_succ_r. repeat split; assumption.
    + intros [[|j] [k [p' [-> [N H]]]]].
      * left. simpl in N. injection N as ->. exists (p', m).
        rewrite Nat.add_0_r. split; [reflexivity | exact H].
      * right. exists j, k, p'. rewrite Nat.add_succ_r. repeat split; assumption.
Qed.

Lemma collectItem_In (it : Item) :
  forall p m, In (p, m) (collectItem test it) <-> getIn p it = Some m /\ passes test m = true.
Proof.
  induction it as [n r | n kids r IH] using Item_nested_ind; intros p m.
  - cbn [collectItem app]. split.
    + destruct r as [r|]; [|intros []]. destruct (test r) eqn:T; [|intros []].
      intros [[= <- <-] | []]. split; [reflexivity | exact T].
    + intros [G T]. destruct p as [|i p]; [|discriminate].
      injection G as <-. unfold passes in T. cbn in T.
      destruct r as [r|]; [|discriminate]. rewrite T. now left.
  - change (collectItem test (mkItem n (Some kids) r))
      with (allFrom collect 0 kids ++
            match r with
            | Some r' => if test r' then [([], mkItem n (Some kids) r)] else []
            | None => []
            end).
    rewrite in_app_iff, allFrom_In. split.
    + intros [[j [k [p' [-> [N H]]]]] | H].
      * cbn [getIn Nat.add]. rewrite N. apply (proj1 (Forall_forall _ _) IH k).
        -- now apply nth_error_In in N.
        -- exact H.
      * destruct r as [r|]; [|destruct H]. destruct (test r) eqn:T; [|destruct H].
        destruct H as [[= <- <-] | []]. split; [reflexivity | exact T].
    + intros [G T]. destruct p as [|i p].
      * right. injection G as <-. unfold passes in T. cbn in T.
        destruct r as [r|]; [|discriminate]. rewrite T. now left.
      * left. cbn [getIn] in G. destruct (nth_error kids i) as [k|] eqn:N; [|discriminate].
        exists i, k, p. repeat split; [exact N|].
        apply (proj1 (Forall_forall _ _) IH k); [now apply nth_error_In in N | now split].
Qed.

(** The collecting search returns the nodes of the tree that have a
    request passing the test, and nothing else. *)
Lemma collectRecursive_In (items : list Item) (p : Path) (m : Item) :
  In (p, m) (collectRecursive test items) <-> getAt p items = Some m /\ passes test m = true.
Proof.
  change (collectRecursive test items) with (allFrom collect 0 items).
  rewrite allFrom_In. split.
  - intros [j [k [p' [-> [N H]]]]]. cbn [getAt Nat.add]. rewrite N.
    now apply collectItem_In.
  - intros [G T]. destruct p as [|i p]; [discriminate|].
    cbn [getAt] in G. destruct (nth_error items i) as [k|] eqn:N; [|discriminate].
    exists i, k, p. repeat split; [exact N|]. apply collectItem_In. now split.
Qed.

Lemma allFrom_paths (l : list Item) :
  forall i q m, In (q, m) (allFrom collect i l) -> exists j p', q = (i + j) :: p'.
Proof.
  intros i q m H. apply allFrom_In in H. destruct H as [j [k [p' [-> _]]]]. now exists j, p'.
Qed.

Lemma allFrom_NoDup (l : list Item) :
  Forall (fun k => NoDup (map fst (collectItem test k))) l ->
  forall i, NoDup (map fst (allFrom collect i l)).
Proof.
  intros H. induction H as [|k l Hk _ IH]; intros i; [constructor|].
  cbn [allFrom]. rewrite map_app. apply NoDup_app.
  - unfold collect. rewrite map_map. cbn [under fst].
    change (fun x : Ref => i :: fst x) with (fun x : Ref => (fun p => i :: p) (fst x)).
    rewrite <- map_map. now apply NoDup_map_cons.
  - apply IH.
  - intros q Hq Hq'. rewrite in_map_iff in Hq, Hq'.
    destruct Hq as [[q1 m1] [E1 H1]]. destruct Hq' as [[q2 m2] [E2 H2]].
    cbn [fst] in *. subst q1 q2.
    unfold collect in H1. rewrite in_map_iff in H1. destruct H1 as [[p1 x1] [E1 _]].
    unfold under in E1. cbn [fst snd] in E1. injection E1 as E1 _.
    destruct (allFrom_paths _ _ _ _ H2) as [j [p' E2]]. rewrite E2 in E1.
    injection E1 as E1 _. lia.
Qed.

Lemma collectItem_NoDup (it : Item) : NoDup (map fst (collectItem test it)).
Proof.
  induction it as [n r | n kids r IH] using Item_nested_ind.
  - cbn. destruct r as [r|]; [|constructor]. destruct (test r); [|constructor].
    constructor; [intros [] | constructor].
  - change (collectItem test (mkItem n (Some kids) r))
      with (allFrom collect 0 kids ++
            match r with
            | Some r' => if test r' then [([], mkItem n (Some kids) r)] else []
            | None => []
            end).
    rewrite map_app. apply NoDup_app.
    + now apply allFrom_NoDup.
    + destruct r as [r|]; [|constructor]. destruct (test r); [|constructor].
      constructor; [intros [] | constructor].
    + intros q Hq Hq'. rewrite in_map_iff in Hq. destruct Hq as [[q1 m1] [E1 H1]].
      cbn [fst] in E1. subst q1. destruct (allFrom_paths _ _ _ _ H1) as [j [p' ->]].
      destruct r as [r|]; [|destruct Hq']. destruct (test r); [|destruct Hq'].
      destruct Hq' as [E | []]. discriminate E.
Qed.

Lemma collectRecursive_NoDup (items : list Item) :
  NoDup (map fst (collectRecursive test items)).
Proof.
  apply allFrom_NoDup. rewrite Forall_forall. intros k _. apply collectItem_NoDup.
Qed.

End SearchAll.

(** [findMatchingRequest] and [findAllMatchingRequests] agree: the single
    match is the first of all matches, and there is none exactly when the
    list of all matches is empty. *)
Theorem findMatchingRequest_head :
  forall (P : Url.Parser) (capturedUrl : string) (postmanRequests : list Item),
    findMatchingRequest capturedUrl postmanRequests
    = hd_error (findAllMatchingRequests capturedUrl postmanRequests).
Proof. intros P capturedUrl postmanRequests. apply searchRecursive_hd. Qed.

(** [findAllMatchingRequests] returns every node of the tree, at any
    depth and folder or not, whose request has a URL that can be
    extracted and normalizes to the normalized captured URL; it returns
    nothing else, and no node twice. *)
Theorem findAllMatchingRequests_exact :
  forall (P : Url.Parser) (capturedUrl : string) (postmanRequests : list Item),
    (forall p m,
       In (p, m) (findAllMatchingRequests capturedUrl postmanRequests)
       <-> getAt p postmanRequests = Some m /\ SamePattern capturedUrl m)
    /\ NoDup (map fst (findAllMatchingRequests capturedUrl postmanRequests)).
Proof.
  intros P capturedUrl postmanRequests. split.
  - intros p m. unfold findAllMatchingRequests.
    rewrite collectRecursive_In, passes_matchesPattern. reflexivity.
  - apply collectRecursive_NoDup.
Qed.

Lemma passes_hasHost {P : Url.Parser} (h : string) (it : Item) :
  passes (hasHost h) it = true <-> HasHost h it.
Proof.
  unfold passes, HasHost, hasHost. destruct (request it) as [r|].
  - destruct (extractPostmanUrl r) as [u|] eqn:E.
    + destruct (Url.parse _) as [urlObj|] eqn:U.
      * rewrite String.eqb_eq. split.
        -- intros H. exists r, u, urlObj. repeat split; assumption.
        -- intros [r' [u' [o [[= <-] [E' [U' H]]]]]].
           rewrite E in E'. injection E' as <-. rewrite U in U'. now injection U' as <-.
      * split; [discriminate|]. intros [r' [u' [o [[= <-] [E' [U' _]]]]]].
        rewrite E in E'. injection E' as <-. rewrite U in U'. discriminate.
    + split; [discriminate | intros [r' [u' [o [[= <-] [E' _]]]]]; congruence].
  - split; [discriminate | intros [r' [u' [o [H _]]]]; discriminate].
Qed.

(** [findAllRequestsForHost] returns every node of the tree, at any
    depth and folder or not, whose request has a URL that can be
    extracted, parses and has the host; it returns nothing else, and no
    node twice.  A request whose URL does not parse, a URL with a
    variable in place of the host for one, is never returned. *)
Theorem findAllRequestsForHost_exact :
  forall (P : Url.Parser) (host : string) (postmanRequests : list Item),
    (forall p m,
       In (p, m) (findAllRequestsForHost host postmanRequests)
       <-> getAt p postmanRequests = Some m /\ HasHost host m)
    /\ NoDup (map fst (findAllRequestsForHost host postmanRequests)).
Proof.
  intros P host postmanRequests. split.
  - intros p m. unfold findAllRequestsForHost.
    rewrite collectRecursive_In, passes_hasHost. reflexivity.
  - apply collectRecursive_NoDup.
Qed.

(** The matcher of the upsert refines the matcher of update-by-match: a
    node found by pattern and method is one of the pattern matches, so
    the pattern-only search finds a node as well. *)
Theorem findMatchingRequestWithMethod_refines
    (P : Url.Parser) (capturedUrl method : string) (postmanRequests : list Item) (ref : Ref) :
  findMatchingRequestWithMethod capturedUrl method postmanRequests = Some ref ->
  In ref (findAllMatchingRequests capturedUrl postmanRequests)
  /\ exists first, findMatchingRequest capturedUrl postmanRequests = Some first.
Proof.
  intros F. destruct ref as [p m].
  destruct (searchRecursive_sound _ _ F) as [G T].
  apply passes_matchesPatternAndMethod in T. destruct T as [T _].
  assert (I : In (p, m) (findAllMatchingRequests capturedUrl postmanRequests)).
  { unfold findAllMatchingRequests. apply collectRecursive_In.
    split; [exact G | now apply passes_matchesPattern]. }
  split; [exact I|].
  unfold findMatchingRequest. rewrite searchRecursive_hd.
  fold (findAllMatchingRequests capturedUrl postmanRequests).
  destruct (findAllMatchingRequests capturedUrl postmanRequests) as [|x l]; [destruct I|].
  now exists x.
Qed.

Lemma findMatchingRequestWithMethod_refines_witness :
  In ([0; 1], item42) (findAllMatchingRequests "https://api.x.com/items/7" itemsTree)
  /\ exists first, findMatchingRequest "https://api.x.com/items/7" itemsTree = Some first.
Proof.
  apply (@findMatchingRequestWithMethod_refines whatwg "https://api.x.com/items/7" "get"
           itemsTree ([0; 1], item42)).
  vm_compute. reflexivity.
Defined.

(** The matchers look at the captured URL through its normalized form
    only: two captured URLs with the same normalized form (the same
    path pattern, whatever their scheme, host, port, query, fragment and
    the values of their id segments) find the same requests. *)
Theorem matchers_see_pattern_only
    (P : Url.Parser) (url1 url2 method : string) (postmanRequests : list Item) :
  normalizeUrl url1 = normalizeUrl url2 ->
  findMatchingRequest url1 postmanRequests = findMatchingRequest url2 postmanRequests
  /\ findAllMatchingRequests url1 postmanRequests
     = findAllMatchingRequests url2 postmanRequests
  /\ findMatchingRequestWithMethod url1 method postmanRequests
     = findMatchingRequestWithMethod url2 method postmanRequests.
Proof.
  intros H.
  unfold findMatchingRequest, findAllMatchingRequests, findMatchingRequestWithMethod,
    matchesPattern, matchesPatternAndMethod.
  rewrite H. repeat split.
Qed.

Lemma matchers_see_pattern_only_witness :
  findMatchingRequest "https://api.x.com/items/42" itemsTree
  = findMatchingRequest "http://staging.y.org:8080/items/7?page=2#top" itemsTree.
Proof.
  apply (@matchers_see_pattern_only whatwg "https://api.x.com/items/42"
           "http://staging.y.org:8080/items/7?page=2#top" "GET" itemsTree).
  vm_compute. reflexivity.
Defined.

(** ** The display helper *)

Lemma substring_0_length (n : nat) (s : string) :
  String.length (String.substring 0 n s) = Nat.min n (String.length s).
Proof.
  revert s. induction n as [|n IH]; intros [|c s]; simpl; try reflexivity.
  now rewrite IH.
Qed.

Lemma substring_0_split (n : nat) (s : string) :
  (String.substring 0 n s ++ Js.substringFrom n s)%string = s.
Proof.
  revert s. induction n as [|n IH]; intros [|c s]; simpl; try reflexivity.
  now rewrite IH.
Qed.

Lemma substringFrom_length_minus (n : nat) (s : string) :
  String.length (Js.substringFrom n s) = String.length s - n.
Proof.
  revert s. induction n as [|n IH]; intros [|c s]; simpl; try reflexivity. apply IH.
Qed.

Lemma substringFrom_add (n k : nat) (s : string) :
  Js.substringFrom (n + k) s = Js.substringFrom k (Js.substringFrom n s).
Proof.
  revert s. induction n as [|n IH]; intros s; [reflexivity|].
  destruct s as [|c s]; simpl; [now destruct k | apply IH].
Qed.

(** The text shown for a credential.  It has at most 40 characters.  A
    bearer or basic credential of more than 40 characters is shown as its
    first 20 and its last 10 characters around three dots, so at least 11
    characters in between are not shown; an API key of more than 20
    characters as its first 15 characters and three dots; shorter ones
    are shown whole.  A cookie is shown as the words Session cookie, and
    nothing is shown for the type none or for an empty credential. *)
Theorem extractTokenForDisplay_masks :
  forall (authValue : string) (authType : AuthType),
    let shown := extractTokenForDisplay authValue authType in
    String.length shown <= 40
    /\ (authType = bearer \/ authType = basic ->
        (String.length authValue <= 40 -> shown = authValue)
        /\ (40 < String.length authValue ->
            exists first hidden last,
              authValue = (first ++ hidden ++ last)%string
              /\ String.length first = 20 /\ String.length last = 10
              /\ 10 < String.length hidden
              /\ shown = (first ++ "..." ++ last)%string))
    /\ (authType = apikey ->
        (String.length authValue <= 20 -> shown = authValue)
        /\ (20 < String.length authValue ->
            exists first hidden,
              authValue = (first ++ hidden)%string
              /\ String.length first = 15 /\ 5 < String.length hidden
              /\ shown = (first ++ "...")%string))
    /\ (authType = cookie -> authValue <> EmptyString -> shown = "Session cookie")
    /\ (authType = none \/ authValue = EmptyString -> shown = EmptyString).
Proof.
  intros v t shown.
  assert (long : 40 < String.length v ->
            exists first hidden last,
              v = (first ++ hidden ++ last)%string
              /\ String.length first = 20 /\ String.length last = 10
              /\ 10 < String.length hidden
              /\ (jsSubstring 0 20 v ++ "..." ++ Js.substringFrom (String.length v - 10) v)%string
                 = (first ++ "..." ++ last)%string).
  { intros L. unfold jsSubstring. cbn [Nat.sub].
    exists (String.substring 0 20 v),
      (String.substring 0 (String.length v - 30) (Js.substringFrom 20 v)),
      (Js.substringFrom (String.length v - 10) v).
    assert (E : Js.substringFrom (String.length v - 10) v
                = Js.substringFrom (String.length v - 30) (Js.substringFrom 20 v)).
    { rewrite <- substringFrom_add. f_equal. lia. }
    split; [|split; [|split; [|split]]].
    - rewrite E, substring_0_split, substring_0_split. reflexivity.
    - rewrite substring_0_length. lia.
    - rewrite substringFrom_length_minus. lia.
    - rewrite substring_0_length, substringFrom_length_minus. lia.
    - reflexivity. }
  assert (key : 20 < String.length v ->
            exists first hidden,
              v = (first ++ hidden)%string
              /\ String.length first = 15 /\ 5 < String.length hidden
              /\ (jsSubstring 0 15 v ++ "...")%string = (first ++ "...")%string).
  { intros L. unfold jsSubstring. cbn [Nat.sub].
    exists (String.substring 0 15 v), (Js.substringFrom 15 v).
    split; [|split; [|split]].
    - now rewrite substring_0_split.
    - rewrite substring_0_length. lia.
    - rewrite substringFrom_length_minus. lia.
    - reflexivity. }
  assert (len3 : forall a b, String.length (a ++ "..." ++ b)%string
                             = String.length a + 3 + String.length b).
  { intros a b. rewrite !string_app_length. simpl. lia. }
  assert (body : v <> EmptyString ->
            extractTokenForDisplay v t =
              match t with
              | bearer | basic =>
                  if 40 <? String.length v
                  then (jsSubstring 0 20 v ++ "..."
                        ++ Js.substringFrom (String.length v - 10) v)%string
                  else v
              | apikey =>
                  if 20 <? String.length v then (jsSubstring 0 15 v ++ "...")%string else v
              | cookie => "Session cookie"
              | none => EmptyString
              end).
  { destruct v; [congruence | reflexivity]. }
  unfold shown. destruct (string_dec v EmptyString) as [-> | NE].
  { simpl. split; [lia|]. split; [intros _; split; [reflexivity | simpl; lia]|].
    split; [intros _; split; [reflexivity | simpl; lia]|].
    split; [intros _ H; now elim H | reflexivity]. }
  rewrite (body NE). clear body.
  split; [|split; [|split; [|split]]].
  - destruct t.
    + destruct (40 <? String.length v) eqn:L; [|apply Nat.ltb_ge in L; exact L].
      apply Nat.ltb_lt in L. destruct (long L) as [a [h [b [_ [La [Lb [_ ->]]]]]]].
      rewrite len3. lia.
    + destruct (40 <? String.length v) eqn:L; [|apply Nat.ltb_ge in L; exact L].
      apply Nat.ltb_lt in L. destruct (long L) as [a [h [b [_ [La [Lb [_ ->]]]]]]].
      rewrite len3. lia.
    + destruct (20 <? String.length v) eqn:L; [|apply Nat.ltb_ge in L; lia].
      apply Nat.ltb_lt in L. destruct (key L) as [a [h [_ [La [_ ->]]]]].
      rewrite string_app_length. simpl. lia.
    + simpl. lia.
    + simpl. lia.
  - intros T. split.
    + intros L. apply Nat.ltb_ge in L. destruct T as [-> | ->]; now rewrite L.
    + intros L. destruct (long L) as [a [h [b [E [La [Lb [Lh R]]]]]]].
      exists a, h, b. apply Nat.ltb_lt in L.
      destruct T as [-> | ->]; rewrite L; repeat split; assumption.
  - intros ->. split.
    + intros L. apply Nat.ltb_ge in L. now rewrite L.
    + intros L. destruct (key L) as [a [h [E [La [Lh R]]]]].
      exists a, h. apply Nat.ltb_lt in L. rewrite L. repeat split; assumption.
  - intros -> _. reflexivity.
  - intros [-> | E]; [reflexivity | contradiction].
Qed.

(** ** The similarity score *)

Lemma countMatches_sym (a b : list string) : countMatches a b = countMatches b a.
Proof.
  revert b. induction a as [|x a IH]; intros [|y b]; simpl; try reflexivity.
  now rewrite IH, String.eqb_sym.
Qed.

Lemma countMatches_le (a b : list string) :
  countMatches a b <= Nat.min (List.length a) (List.length b).
Proof.
  revert b. induction a as [|x a IH]; intros [|y b]; simpl; try lia.
  specialize (IH b). destruct (String.eqb x y); lia.
Qed.

Lemma countMatches_all (a b : list string) :
  countMatches a b = Nat.max (List.length a) (List.length b) <-> a = b.
Proof.
  split.
  - revert b. induction a as [|x a IH]; intros [|y b]; simpl; try discriminate; [reflexivity|].
    pose proof (countMatches_le a b) as L. destruct (String.eqb x y) eqn:E; [|lia].
    apply String.eqb_eq in E. intros H. f_equal; [exact E | apply IH; lia].
  - intros <-. induction a as [|x a IH]; simpl; [reflexivity|].
    rewrite String.eqb_refl, IH, Nat.max_id. reflexivity.
Qed.

Lemma ratio_nonneg (a d : nat) : QArith_base.Qle (ratio 0 1) (ratio a d).
Proof. unfold QArith_base.Qle, ratio. simpl. lia. Qed.

Lemma ratio_le_one (a d : nat) : d <> 0 -> a <= d -> QArith_base.Qle (ratio a d) (ratio 1 1).
Proof.
  intros D L. unfold QArith_base.Qle, ratio. simpl.
  rewrite <- (Znat.positive_nat_Z (Pos.of_nat d)), Pnat.Nat2Pos.id by exact D. lia.
Qed.

Lemma ratio_one (a d : nat) : d <> 0 -> QArith_base.Qeq (ratio a d) (ratio 1 1) <-> a = d.
Proof.
  intros D. unfold QArith_base.Qeq, ratio. simpl.
  rewrite <- (Znat.positive_nat_Z (Pos.of_nat d)), Pnat.Nat2Pos.id by exact D. lia.
Qed.

(** The similarity score lies between 0 and 1 and does not depend on the
    order of its two arguments.  It is 1 exactly when the two normalized
    URLs are equal or have the same non-empty segments in the same
    order, one of them at least; empty segments do not count. *)
Theorem calculateUrlSimilarity_score :
  forall (P : Url.Parser) (url1 url2 : string),
    let score := calculateUrlSimilarity url1 url2 in
    QArith_base.Qle (ratio 0 1) score
    /\ QArith_base.Qle score (ratio 1 1)
    /\ calculateUrlSimilarity url2 url1 = score
    /\ (QArith_base.Qeq score (ratio 1 1) <->
        normalizeUrl url1 = normalizeUrl url2
        \/ (segmentsOf (normalizeUrl url1) = segmentsOf (normalizeUrl url2)
            /\ segmentsOf (normalizeUrl url1) <> [])).
Proof.
  intros P url1 url2 score. unfold score, calculateUrlSimilarity. cbn zeta.
  rewrite (String.eqb_sym (normalizeUrl url2)).
  rewrite (Nat.max_comm (List.length (segmentsOf (normalizeUrl url2)))).
  rewrite (countMatches_sym (segmentsOf (normalizeUrl url2))).
  destruct (String.eqb (normalizeUrl url1) (normalizeUrl url2)) eqn:E.
  - apply String.eqb_eq in E. repeat split; try (unfold QArith_base.Qle; simpl; lia).
    now left.
  - apply String.eqb_neq in E.
    set (s1 := segmentsOf (normalizeUrl url1)). set (s2 := segmentsOf (normalizeUrl url2)).
    destruct (Nat.max (List.length s1) (List.length s2) =? 0) eqn:M.
    + apply Nat.eqb_eq in M. repeat split; try (unfold QArith_base.Qle; simpl; lia).
      * intros H. unfold QArith_base.Qeq in H. simpl in H. lia.
      * intros [H | [_ H]]; [contradiction|].
        assert (Z : List.length s1 = 0) by lia. destruct s1; [now elim H | discriminate Z].
    + apply Nat.eqb_neq in M. pose proof (countMatches_le s1 s2) as L.
      split; [|split; [|split; [reflexivity|]]].
      * apply ratio_nonneg.
      * apply ratio_le_one; [exact M | lia].
      * rewrite (ratio_one _ M), countMatches_all. split.
        -- intros H. right. split; [exact H|]. intros Z. rewrite <- H, Z in M. now apply M.
        -- intros [H | [H _]]; [contradiction | exact H].
Qed.

(** ** The capture state over a run *)

Lemma mapGet_mapSet_same {V : Type} (k : string) (v : V) (m : JsMap V) :
  mapGet k (mapSet k v m) = Some v.
Proof.
  induction m as [|[k' v'] m IH]; simpl.
  - now rewrite String.eqb_refl.
  - destruct (String.eqb k k') eqn:E; simpl; [now rewrite String.eqb_refl | now rewrite E].
Qed.

Lemma mapGet_mapSet_other {V : Type} (k k' : string) (v : V) (m : JsMap V) :
  k <> k' -> mapGet k (mapSet k' v m) = mapGet k m.
Proof.
  intros N. apply String.eqb_neq in N.
  induction m as [|[k2 v2] m IH]; simpl.
  - now rewrite N.
  - destruct (String.eqb k' k2) eqn:E; simpl.
    + apply String.eqb_eq in E. subst k2. now rewrite N.
    + now rewrite IH.
Qed.

Lemma mapSet_keys {V : Type} (k : string) (v : V) (m : JsMap V) (x : string) :
  In x (map fst (mapSet k v m)) <-> x = k \/ In x (map fst m).
Proof.
  induction m as [|[k' v'] m IH]; simpl.
  - split; [intros [<- | []]; now left | intros [-> | []]; now left].
  - destruct (String.eqb k k') eqn:E; simpl.
    + apply String.eqb_eq in E. subst k'. intuition.
    + rewrite IH. intuition.
Qed.

Lemma mapSet_NoDup {V : Type} (k : string) (v : V) (m : JsMap V) :
  NoDup (map fst m) -> NoDup (map fst (mapSet k v m)).
Proof.
  induction m as [|[k' v'] m IH]; simpl; intros H.
  - constructor; [intros [] | constructor].
  - inversion H as [|? ? N H']; subst.
    destruct (String.eqb k k') eqn:E; simpl.
    + apply String.eqb_eq in E. subst k'. now constructor.
    + constructor; [|now apply IH]. rewrite mapSet_keys. intros [-> | I]; [|contradiction].
      now rewrite String.eqb_refl in E.
Qed.

Lemma mapSet_In {V : Type} (k : string) (v : V) (m : JsMap V) (k' : string) (v' : V) :
  In (k', v') (mapSet k v m) -> (k' = k /\ v' = v) \/ In (k', v') m.
Proof.
  induction m as [|[k2 v2] m IH]; simpl.
  - intros [[= <- <-] | []]. now left.
  - destruct (String.eqb k k2); simpl.
    + intros [[= <- <-] | H]; [now left | right; now right].
    + intros [H | H]; [right; now left|]. destruct (IH H) as [H' | H']; [now left | right; now right].
Qed.

Lemma mapGet_In {V : Type} (k : string) (v : V) (m : JsMap V) :
  NoDup (map fst m) -> (mapGet k m = Some v <-> In (k, v) m).
Proof.
  induction m as [|[k' v'] m IH]; simpl; intros H.
  - split; [discriminate | intros []].
  - inversion H as [|? ? N H']; subst. destruct (String.eqb k k') eqn:E.
    + apply String.eqb_eq in E. subst k'. split.
      * intros [= ->]. now left.
      * intros [[= ->] | I]; [reflexivity|]. exfalso. apply N.
        apply (in_map fst) in I. exact I.
    + rewrite (IH H'). split; [now right|].
      intros [[= -> ->] | I]; [now rewrite String.eqb_refl in E | exact I].
Qed.

Lemma mapDelete_get {V : Type} (k : string) (m : JsMap V) :
  NoDup (map fst m) ->
  mapGet k (mapDelete k m) = None
  /\ forall k', k' <> k -> mapGet k' (mapDelete k m) = mapGet k' m.
Proof.
  induction m as [|[k2 v2] m IH]; simpl; intros H; [split; reflexivity|].
  inversion H as [|? ? N H']; subst. destruct (IH H') as [G O].
  destruct (String.eqb k k2) eqn:E.
  - apply String.eqb_eq in E. subst k2. split.
    + destruct (mapGet k m) as [v|] eqn:M; [|reflexivity].
      exfalso. apply N. apply mapGet_In in M; [|exact H']. apply (in_map fst) in M. exact M.
    + intros k' D. apply String.eqb_neq in D. now rewrite D.
  - simpl. rewrite E. split; [exact G|].
    intros k' D. destruct (String.eqb k' k2); [reflexivity | now apply O].
Qed.

Lemma mapDelete_NoDup {V : Type} (k : string) (m : JsMap V) :
  NoDup (map fst m) -> NoDup (map fst (mapDelete k m)).
Proof.
  induction m as [|[k2 v2] m IH]; simpl; intros H; [constructor|].
  inversion H as [|? ? N H']; subst. destruct (String.eqb k k2); [exact H'|].
  simpl. constructor; [|now apply IH]. intros I. apply N.
  clear - I. induction m as [|[k3 v3] m IH]; simpl in *; [exact I|].
  destruct (String.eqb k k3); simpl in *; [now right | intuition].
Qed.

Section CaptureFacts.

Context {P : Url.Parser}.

Lemma run_invariant (Inv : Capture -> Prop) :
  (forall st e, Inv st -> Inv (fst (step st e))) ->
  forall events st, Inv st -> Inv (fst (run st events)).
Proof.
  intros S events. induction events as [|e rest IH]; intros st H; [exact H|].
  rewrite run_cons. cbn [fst]. apply IH. now apply S.
Qed.

(** What one event does to the host map. *)
Lemma step_hostMap (st : Capture) (e : Event) :
  hostMap (fst (step st e)) =
    match e with
    | BeforeSendHeaders now random details =>
        if admitted details then
          match Url.parse (detailsUrl details) with
          | Some urlObj =>
              let existingHost := mapGet (Url.host urlObj) (hostMap st) in
              mapSet (Url.host urlObj)
                (mkHostInfo (Url.host urlObj)
                   (match existingHost with Some e => requestCount e | None => 0 end + 1)
                   now
                   (match existingHost with Some e => hasAuth e | None => false end
                    || hasCredential (buildRequest now random details st)))
                (hostMap st)
          | None => hostMap st
          end
        else hostMap st
    | _ => hostMap st
    end.
Proof.
  destruct e as [d | now random d | h c | | [|]]; simpl; try reflexivity.
  - unfold onBeforeRequest.
    destruct (negb (shouldCaptureRequest (detailsUrl d))); [reflexivity|].
    destruct (negb (isApiRequestType (detailsType d))); [reflexivity|].
    destruct (requestBody d); reflexivity.
  - unfold onBeforeSendHeaders, admitted.
    destruct (shouldCaptureRequest (detailsUrl d)); simpl; [|reflexivity].
    destruct (isApiRequestType (detailsType d)); simpl; [|reflexivity].
    destruct (Url.parse (detailsUrl d)); [|reflexivity].
    destruct (targetsHost _ _ _); reflexivity.
Qed.

Lemma run_hostMap (h : string) (events : list Event) :
  forall st seen,
  HostTally h seen (mapGet h (hostMap st)) ->
  HostTally h (seen ++ filter (hasUrlHost h) (recorded st events))
    (mapGet h (hostMap (fst (run st events)))).
Proof.
  induction events as [|e rest IH]; intros st seen H.
  - simpl. now rewrite app_nil_r.
  - rewrite run_cons. cbn [fst recorded]. rewrite filter_app, app_assoc. apply IH.
    rewrite step_hostMap.
    destruct e as [d | now random d | hh c | | b]; cbn [filter]; try (now rewrite app_nil_r).
    destruct (admitted d); [|now rewrite app_nil_r].
    cbn [filter]. unfold hasUrlHost at 1. cbn [buildRequest CapturedRequest.url].
    destruct (Url.parse (detailsUrl d)) as [u|]; [|now rewrite app_nil_r].
    destruct (String.eqb (Url.host u) h) eqn:E.
    + apply String.eqb_eq in E. rewrite E, mapGet_mapSet_same. cbn [HostTally].
      rewrite length_app, existsb_app. cbn [List.length existsb]. rewrite orb_false_r.
      destruct (mapGet h (hostMap st)) as [info|]; cbn [HostTally] in H.
      * destruct H as [_ [C [A _]]]. rewrite C, A.
        repeat split; try reflexivity. intros Z. now apply app_eq_nil in Z.
      * subst seen. repeat split; try reflexivity. discriminate.
    + apply String.eqb_neq in E. rewrite mapGet_mapSet_other by congruence.
      now rewrite app_nil_r.
Qed.

End CaptureFacts.

(** The host map counts, for every host, the requests recorded for it
    since the service worker started: a host has an entry exactly when a
    recorded request had a URL with that host; the entry carries the
    host, the number of these requests, and whether one of them had a
    credential.  The count covers every recorded request, also those
    that the buffer no longer holds. *)
Theorem hostMap_counts_recorded :
  forall (P : Url.Parser) (events : list Event) (h : string),
    let seen := filter (hasUrlHost h) (recorded initialCapture events) in
    match mapGet h (hostMap (fst (run initialCapture events))) with
    | Some info =>
        host info = h
        /\ requestCount info = List.length seen
        /\ hasAuth info = existsb hasCredential seen
        /\ seen <> []
    | None => seen = []
    end.
Proof.
  intros P events h. apply (@run_hostMap P h events initialCapture []). reflexivity.
Qed.

(** ** The host list *)

Lemma insertByLastSeen_perm (x : HostInfo) (l : list HostInfo) :
  Permutation (insertByLastSeen x l) (x :: l).
Proof.
  induction l as [|y l IH]; simpl; [reflexivity|].
  destruct (lastSeen y <=? lastSeen x)%N; [reflexivity|].
  rewrite IH. apply perm_swap.
Qed.

Lemma sortByLastSeen_perm (l : list HostInfo) : Permutation (sortByLastSeen l) l.
Proof.
  induction l as [|x l IH]; simpl; [reflexivity|].
  rewrite insertByLastSeen_perm. now constructor.
Qed.

Lemma insertByLastSeen_sorted (x : HostInfo) (l : list HostInfo) :
  StronglySorted (fun a b => (lastSeen b <= lastSeen a)%N) l ->
  StronglySorted (fun a b => (lastSeen b <= lastSeen a)%N) (insertByLastSeen x l).
Proof.
  induction 1 as [|y l S IH F]; simpl.
  - constructor; constructor.
  - destruct (lastSeen y <=? lastSeen x)%N eqn:E.
    + apply N.leb_le in E. constructor; [now constructor|].
      constructor; [exact E|]. rewrite Forall_forall in *. intros z Hz.
      specialize (F z Hz). cbv beta in F. lia.
    + apply N.leb_gt in E. constructor; [exact IH|].
      rewrite Forall_forall in *. intros z Hz.
      apply (Permutation_in _ (insertByLastSeen_perm x l)) in Hz.
      destruct Hz as [<- | Hz]; [lia | now apply F].
Qed.

Lemma sortByLastSeen_sorted (l : list HostInfo) :
  StronglySorted (fun a b => (lastSeen b <= lastSeen a)%N) (sortByLastSeen l).
Proof.
  induction l as [|x l IH]; simpl; [constructor | now apply insertByLastSeen_sorted].
Qed.

Section HostListFacts.

Context {P : Url.Parser}.

(** The keys of the host map are distinct, and every entry is filed
    under its own host. *)
Lemma step_hostKeys (st : Capture) (e : Event) :
  NoDup (map fst (hostMap st)) /\ (forall k v, In (k, v) (hostMap st) -> host v = k) ->
  NoDup (map fst (hostMap (fst (step st e))))
  /\ (forall k v, In (k, v) (hostMap (fst (step st e))) -> host v = k).
Proof.
  intros [N K]. rewrite step_hostMap.
  destruct e as [d | now random d | hh c | | b]; try (split; assumption).
  destruct (admitted d); [|split; assumption].
  destruct (Url.parse (detailsUrl d)) as [u|]; [|split; assumption].
  cbv zeta. split; [now apply mapSet_NoDup|].
  intros k v I. apply mapSet_In in I. destruct I as [[-> ->] | I]; [reflexivity | now apply K].
Qed.

Lemma run_hostKeys (events : list Event) :
  NoDup (map fst (hostMap (fst (run initialCapture events))))
  /\ (forall k v, In (k, v) (hostMap (fst (run initialCapture events))) -> host v = k).
Proof.
  apply (run_invariant
           (fun st => NoDup (map fst (hostMap st))
                      /\ (forall k v, In (k, v) (hostMap st) -> host v = k))).
  - intros st e. apply step_hostKeys.
  - split; [constructor | intros k v []].
Qed.

End HostListFacts.

(** The host list lists the entries of the host map, every host once,
    the most recently seen first. *)
Theorem getUniqueHosts_listing :
  forall (P : Url.Parser) (events : list Event),
    let st := fst (run initialCapture events) in
    (forall info, In info (getUniqueHosts st) <-> mapGet (host info) (hostMap st) = Some info)
    /\ NoDup (map host (getUniqueHosts st))
    /\ StronglySorted (fun a b => (lastSeen b <= lastSeen a)%N) (getUniqueHosts st).
Proof.
  intros P events st. destruct (run_hostKeys events) as [N K]. fold st in N, K.
  unfold getUniqueHosts. split; [|split].
  - intros info. rewrite (mapGet_In (host info) info _ N). split.
    + intros I. apply (Permutation_in _ (sortByLastSeen_perm _)) in I.
      apply in_map_iff in I. destruct I as [[k v] [E I]]. cbn [snd] in E. subst v.
      now rewrite (K _ _ I).
    + intros I. apply (Permutation_in _ (Permutation_sym (sortByLastSeen_perm _))).
      apply in_map_iff. now exists (host info, info).
  - apply (Permutation_NoDup (Permutation_map host (Permutation_sym (sortByLastSeen_perm _)))).
    rewrite map_map.
    replace (map (fun x => host (snd x)) (hostMap st)) with (map fst (hostMap st)); [exact N|].
    apply map_ext_in. intros [k v] I. cbn [fst snd]. symmetry. now apply K.
  - apply sortByLastSeen_sorted.
Qed.

(** ** The buffer and the session over a run *)

Lemma find_filter {A : Type} (p q : A -> bool) (l : list A) :
  find q (filter p l) = find (fun x => p x && q x) l.
Proof.
  induction l as [|a l IH]; simpl; [reflexivity|].
  destruct (p a); simpl; [|exact IH]. destruct (q a); [reflexivity | exact IH].
Qed.

Lemma endsWith_iff (p s : string) : Js.endsWith p s = true <-> EndsWith p s.
Proof.
  induction s as [|c s IH]; simpl.
  - rewrite orb_false_r, String.eqb_eq. split.
    + intros ->. now exists EmptyString.
    + intros [r H]. destruct r; [now symmetry | discriminate].
  - rewrite orb_true_iff, String.eqb_eq, IH. split.
    + intros [-> | [r ->]]; [now exists EmptyString | now exists (String c r)].
    + intros [r H]. destruct r as [|d r]; [left; now symmetry|].
      right. injection H as _ H. now exists r.
Qed.

Lemma existsb_false_iff {A : Type} (f : A -> bool) (l : list A) :
  existsb f l = false <-> forall x, In x l -> f x = false.
Proof.
  induction l as [|a l IH]; simpl; [split; [intros _ x [] | reflexivity]|].
  rewrite orb_false_iff, IH. split.
  - intros [H1 H2] x [<- | Hx]; [exact H1 | now apply H2].
  - intros H. split; [apply H; now left | intros x Hx; apply H; now right].
Qed.

(** The filter of the listeners, in words: no scheme of the browser
    itself, no extension of a static resource in any letter case. *)
Lemma shouldCaptureRequest_iff (url : string) :
  shouldCaptureRequest url = true <->
  (forall p, In p internalPrefixes -> ~ StartsWith p url)
  /\ (forall ext, In ext staticExtensions -> ~ EndsWith ext (Js.toLowerCase url)).
Proof.
  unfold shouldCaptureRequest. split.
  - intros H.
    destruct (Js.startsWith "chrome://" url) eqn:E1; [discriminate|].
    destruct (Js.startsWith "chrome-extension://" url) eqn:E2; [discriminate|].
    destruct (Js.startsWith "edge://" url) eqn:E3; [discriminate|].
    destruct (Js.startsWith "about:" url) eqn:E4; [discriminate|].
    destruct (Js.startsWith "data:" url) eqn:E5; [discriminate|].
    destruct (Js.startsWith "blob:" url) eqn:E6; [discriminate|].
    cbv zeta in H.
    destruct (existsb _ staticExtensions) eqn:E7; [discriminate|].
    split.
    + intros p I S. apply startsWith_iff in S.
      simpl in I. destruct I as [<- | [<- | [<- | [<- | [<- | [<- | []]]]]]]; congruence.
    + intros ext I S. apply endsWith_iff in S.
      rewrite existsb_false_iff in E7. rewrite (E7 ext I) in S. discriminate.
  - intros [A B].
    assert (N : forall p, In p internalPrefixes -> Js.startsWith p url = false).
    { intros p I. destruct (Js.startsWith p url) eqn:E; [|reflexivity].
      exfalso. apply (A p I). now apply startsWith_iff. }
    rewrite !N by (simpl; tauto). cbv zeta.
    replace (existsb _ staticExtensions) with false; [reflexivity|].
    symmetry. apply existsb_false_iff. intros ext I.
    destruct (Js.endsWith ext (Js.toLowerCase url)) eqn:E; [|reflexivity].
    exfalso. apply (B ext I). now apply endsWith_iff.
Qed.

Section BufferInvariants.

Context {P : Url.Parser}.

Lemma recorded_admitted (events : list Event) :
  forall st req, In req (recorded st events) ->
  shouldCaptureRequest (CapturedRequest.url req) = true.
Proof.
  induction events as [|e rest IH]; intros st req; [intros []|].
  cbn [recorded]. rewrite in_app_iff. intros [H | H]; [|now apply IH in H].
  destruct e as [d | now random d | h c | | b]; try contradiction.
  destruct (admitted d) eqn:A; [|contradiction].
  destruct H as [<- | []]. unfold admitted in A. apply andb_true_iff in A. apply A.
Qed.

Lemma buffer_recorded (events : list Event) (req : CapturedRequest.t) :
  In req (capturedRequests (fst (run initialCapture events))) ->
  In req (recorded initialCapture events).
Proof.
  rewrite run_buffer by (simpl; lia). intros H. apply In_firstn in H.
  rewrite app_nil_r in H. now apply in_rev in H.
Qed.

(** What one event does to the stored bodies. *)
Lemma step_requestBodies (st : Capture) (e : Event) :
  requestBodies (fst (step st e)) =
    match e with
    | BeforeRequest details =>
        if admitted details then
          match requestBody details with
          | Some b => mapSet (requestId details) b (requestBodies st)
          | None => requestBodies st
          end
        else requestBodies st
    | BeforeSendHeaders _ _ details =>
        if admitted details then mapDelete (requestId details) (requestBodies st)
        else requestBodies st
    | _ => requestBodies st
    end.
Proof.
  destruct e as [d | now random d | h c | | [|]]; simpl; try reflexivity.
  - unfold onBeforeRequest, admitted.
    destruct (shouldCaptureRequest (detailsUrl d)); simpl; [|reflexivity].
    destruct (isApiRequestType (detailsType d)); simpl; [|reflexivity].
    destruct (requestBody d); reflexivity.
  - unfold onBeforeSendHeaders, admitted.
    destruct (shouldCaptureRequest (detailsUrl d)); simpl; [|reflexivity].
    destruct (isApiRequestType (detailsType d)); simpl; [|reflexivity].
    destruct (Url.parse (detailsUrl d)); [|reflexivity].
    destruct (targetsHost _ _ _); reflexivity.
Qed.

Lemma run_bodyKeys (events : list Event) :
  NoDup (map fst (requestBodies (fst (run initialCapture events)))).
Proof.
  apply (run_invariant (fun st => NoDup (map fst (requestBodies st)))); [|constructor].
  intros st e N. rewrite step_requestBodies.
  destruct e as [d | now random d | h c | | b]; try assumption.
  - destruct (admitted d); [|assumption].
    destruct (requestBody d); [now apply mapSet_NoDup | assumption].
  - destruct (admitted d); [now apply mapDelete_NoDup | assumption].
Qed.

Lemma step_idle (st : Capture) (e : Event) :
  Idle st -> isTraffic e = true ->
  Idle (fst (step st e)) /\ effectsOf [snd (step st e)] = [].
Proof.
  intros [C [T [I [N B]]]] Tr. unfold Idle.
  destruct e as [d | now random d | h c' | | [|]]; try discriminate; cbn [step fst snd].
  - split; [|reflexivity]. unfold onBeforeRequest.
    destruct (negb (shouldCaptureRequest (detailsUrl d))); [now repeat split|].
    destruct (negb (isApiRequestType (detailsType d))); [now repeat split|].
    destruct (requestBody d); now repeat split.
  - unfold onBeforeSendHeaders.
    destruct (negb (shouldCaptureRequest (detailsUrl d))); [now repeat split|].
    destruct (negb (isApiRequestType (detailsType d))); [now repeat split|].
    destruct (Url.parse _); [|now repeat split].
    unfold targetsHost. rewrite C. cbn [andb fst snd]. now repeat split.
  - cbn. now repeat split.
  - now repeat split.
Qed.

Lemma step_session (st : Capture) (e : Event) :
  Idle st \/ (exists host cid c s, Armed host cid (UpsertInto cid) c s st) ->
  Idle (fst (step st e))
  \/ (exists host cid c s, Armed host cid (UpsertInto cid) c s (fst (step st e))).
Proof.
  intros H. destruct (isTraffic e) eqn:T.
  - destruct H as [I | [host [cid [c [s A]]]]].
    + left. now apply step_idle.
    + right. destruct (step_armed e A T) as [A' _]. do 4 eexists. exact A'.
  - destruct e as [d | now random d | h c' | | b]; try discriminate.
    + right. exists h, c', 0, 0. split; reflexivity.
    + left. repeat split.
Qed.

Lemma getMostRecentRequestWithAuth_find (h : string) (st : Capture) :
  getMostRecentRequestWithAuth h st
  = find (fun req => hasUrlHost h req && hasCredential req) (capturedRequests st).
Proof. unfold getMostRecentRequestWithAuth, getRequestsByHost. apply find_filter. Qed.

(** A request found with a credential type carries a credential value. *)
Lemma getMostRecentRequestWithAuth_credential (events : list Event) (h : string)
    (req : CapturedRequest.t) :
  getMostRecentRequestWithAuth h (fst (run initialCapture events)) = Some req ->
  exists v, CapturedRequest.authValue req = Some v.
Proof.
  intros F. rewrite getMostRecentRequestWithAuth_find in F.
  apply find_some in F. destruct F as [I C].
  apply andb_true_iff in C. destruct C as [_ C].
  apply buffer_recorded in I. apply recorded_Classified in I. destruct I as [T V].
  destruct (CapturedRequest.authValue req) as [v|] eqn:A; [now exists v|].
  exfalso. symmetry in V. apply detectAuthType_value in V.
  unfold hasCredential in C. rewrite T, V in C. discriminate.
Qed.

End BufferInvariants.

(** The most recent request with a credential: the buffer holds the
    newest request first, and the lookup returns the first request of
    the buffer whose URL has the host and whose auth type is not none, if
    there is one.  Such a request always carries a credential value. *)
Theorem getMostRecentRequestWithAuth_newest :
  forall (P : Url.Parser) (events : list Event) (h : string),
    let st := fst (run initialCapture events) in
    FirstWhere (fun req => hasUrlHost h req = true /\ CapturedRequest.authType req <> none)
      (capturedRequests st) (getMostRecentRequestWithAuth h st)
    /\ forall req, getMostRecentRequestWithAuth h st = Some req ->
         exists v, CapturedRequest.authValue req = Some v.
Proof.
  intros P events h st. split.
  - rewrite getMostRecentRequestWithAuth_find. apply find_FirstWhere. intros req.
    rewrite andb_true_iff. unfold hasCredential.
    destruct (CapturedRequest.authType req); simpl; split; intros [A B];
      (split; [exact A|]); congruence.
  - intros req. apply getMostRecentRequestWithAuth_credential.
Qed.

(** Every request in the buffer passed the filter of the listeners: its
    URL has none of the schemes of the browser itself and does not end,
    in any letter case, in the extension of a static resource; and its
    auth fields are those the classifier gives for its headers, so the
    credential value is absent exactly when the type is none. *)
Theorem captured_requests_filtered
    (P : Url.Parser) (events : list Event) (req : CapturedRequest.t) :
  In req (capturedRequests (fst (run initialCapture events))) ->
  (forall p, In p internalPrefixes -> ~ StartsWith p (CapturedRequest.url req))
  /\ (forall ext, In ext staticExtensions ->
        ~ EndsWith ext (Js.toLowerCase (CapturedRequest.url req)))
  /\ Classified req
  /\ (CapturedRequest.authType req = none <-> CapturedRequest.authValue req = None).
Proof.
  intros I. apply buffer_recorded in I.
  pose proof (recorded_admitted _ _ _ I) as A. apply shouldCaptureRequest_iff in A.
  pose proof (recorded_Classified _ _ _ I) as C.
  destruct A as [A1 A2].
  split; [exact A1 | split; [exact A2 | split; [exact C|]]].
  destruct C as [T V]. rewrite T, V. apply detectAuthType_value.
Qed.

Lemma captured_requests_filtered_witness :
  ~ StartsWith "data:" "https://api.h.com/ping"
  /\ ~ EndsWith ".png" (Js.toLowerCase "https://api.h.com/ping").
Proof.
  destruct (@captured_requests_filtered whatwg
              [BeforeSendHeaders 2 "b" (fetchOf "https://api.h.com/ping")]
              (CapturedRequest.mk "2-b" 2 "GET" "https://api.h.com/ping"
                 [mkHeader "Accept" "*/*"] None none None)
              (or_introl eq_refl)) as [A [B _]].
  split; [apply A | apply B]; simpl; tauto.
Defined.

(** At every moment the capture session is either idle (not capturing,
    no target host, no collection, no callback, capturedCount 0) or armed
    for one host with the callback that upserts into the collection of
    that session.  While the session is idle the listeners never invoke
    a callback. *)
Theorem capture_session_invariant :
  forall (P : Url.Parser) (events : list Event),
    let st := fst (run initialCapture events) in
    (Idle st \/ exists host cid c s, Armed host cid (UpsertInto cid) c s st)
    /\ (Idle st ->
        forall now random details,
          snd (step st (BeforeSendHeaders now random details)) = Effects []).
Proof.
  intros P events st. split.
  - apply (run_invariant
             (fun st => Idle st \/ exists host cid c s, Armed host cid (UpsertInto cid) c s st)).
    + intros st' e. apply step_session.
    + left. repeat split.
  - intros I now random details.
    destruct (step_idle (BeforeSendHeaders now random details) I eq_refl) as [_ E].
    cbn [step fst snd] in *. destruct (onBeforeSendHeaders now random details st) as [st' eff].
    cbn [snd effectsOf flat_map] in *. rewrite app_nil_r in E. now rewrite E.
Qed.

(** The body stored for a request is taken out when its headers arrive:
    after the second listener has recorded a request, no body is stored
    under its request id, and the bodies stored under other ids are as
    before. *)
Theorem requestBodies_consumed
    (P : Url.Parser) (events : list Event) (now : N) (random : string) (details : Details) :
  admitted details = true ->
  let before := fst (run initialCapture events) in
  let after := fst (step before (BeforeSendHeaders now random details)) in
  mapGet (requestId details) (requestBodies after) = None
  /\ forall id, id <> requestId details ->
       mapGet id (requestBodies after) = mapGet id (requestBodies before).
Proof.
  intros A before after. unfold after. rewrite step_requestBodies, A.
  apply mapDelete_get. apply run_bodyKeys.
Qed.

Lemma requestBodies_consumed_witness :
  mapGet "1"
    (requestBodies
       (fst (step (fst (run initialCapture
                          [BeforeRequest (mkDetails "1" "https://api.x.com/items" "POST" "fetch"
                                            None (Some "body"))]))
                  (BeforeSendHeaders 5 "r" (fetchOf "https://api.x.com/items")))))
  = None.
Proof.
  apply (@requestBodies_consumed whatwg
           [BeforeRequest (mkDetails "1" "https://api.x.com/items" "POST" "fetch"
                             None (Some "body"))]
           5 "r" (fetchOf "https://api.x.com/items") eq_refl).
Defined.

(** ** The message handlers *)

Section HandlerFacts.

Context {P : Url.Parser} {F : Formatter}.
Variable remote : Remote.

(** A handler body whose results are answers, wrapped in the catch-all
    of the handlers, always answers. *)
Lemma tryCatch_answers (body : Task MessageResponse) (log : list RemoteCall) :
  (forall r log', body log = (inr r, log') -> Answered r) ->
  exists response,
    fst (tryCatch body (fun error => ret (mkResponse false None (Some (errorMessage error))))
           log)
    = inr response
    /\ Answered response.
Proof.
  intros H. unfold tryCatch, ret. destruct (body log) as [[e | r] log'] eqn:B.
  - eexists. split; [reflexivity|]. right. simpl. repeat split. now eexists.
  - exists r. split; [reflexivity|]. now apply (H r log').
Qed.

Lemma bind_answers {A : Type} (op : Task A) (data : A -> string) (log : list RemoteCall) :
  forall r log',
  bind op (fun result => ret (mkResponse true (Some (data result)) None)) log = (inr r, log') ->
  Answered r.
Proof.
  intros r log'. unfold bind, ret. destruct (op log) as [[e | a] log1]; [discriminate|].
  intros [= <- _]. left. simpl. repeat split. now eexists.
Qed.

Lemma ret_failed_answers (message : string) (log : list RemoteCall) :
  forall r log',
  @ret MessageResponse (mkResponse false None (Some message)) log = (inr r, log') ->
  Answered r.
Proof.
  intros r log'. unfold ret. intros [= <- _]. right. simpl. repeat split. now eexists.
Qed.

Lemma getCapturedRequest_miss (id : string) (st : Capture) :
  (forall req, In req (capturedRequests st) -> CapturedRequest.id req <> id) ->
  getCapturedRequest id st = None.
Proof.
  intros H. unfold getCapturedRequest. apply find_all_false.
  intros req I. apply String.eqb_neq. now apply H.
Qed.

End HandlerFacts.

(** The handlers of UPDATE_TOKEN, SAVE_TO_POSTMAN and UPDATE_HOST_TOKEN
    never throw: whatever the state, the remote and the arguments, each
    returns a response, which either reports success with data and no
    error, or failure with the message of the error and no data. *)
Theorem handlers_always_answer :
  forall (P : Url.Parser) (F : Formatter) (remote : Remote) (st : Capture)
         (requestId host collectionId : string) (log : list RemoteCall),
    (exists response,
       fst (handleUpdateToken remote requestId collectionId st log) = inr response
       /\ Answered response)
    /\ (exists response,
          fst (handleSaveToPostman remote requestId collectionId st log) = inr response
          /\ Answered response)
    /\ (exists response,
          fst (handleUpdateHostToken remote host collectionId st log) = inr response
          /\ Answered response).
Proof.
  intros P F remote st requestId host collectionId log. split; [|split].
  - apply tryCatch_answers. destruct (getCapturedRequest requestId st).
    + apply bind_answers with (data := fun result =>
        ("Token updated in " ++ doubleQuote ++ requestName result ++ doubleQuote ++ "!")%string).
    + apply ret_failed_answers.
  - apply tryCatch_answers. destruct (getCapturedRequest requestId st).
    + apply bind_answers with (data := fun result =>
        ("Request " ++ doubleQuote ++ requestName result ++ doubleQuote
         ++ " created successfully in Postman!")%string).
    + apply ret_failed_answers.
  - apply tryCatch_answers. destruct (getMostRecentRequestWithAuth host st).
    + apply bind_answers with (data := fun result =>
        ("Updated token in " ++ Js.decimal (N.of_nat (updatedCount result))
         ++ " requests")%string).
    + apply ret_failed_answers.
Qed.

(** A request that is not in the buffer cannot be saved or updated: the
    handlers answer request-not-found and send nothing to the Postman
    API.  Clearing empties the buffer and the stored bodies, so that
    every id is then not found, and keeps the host map and the capture
    session as they are. *)
Theorem request_not_found :
  forall (P : Url.Parser) (F : Formatter) (remote : Remote) (st : Capture)
         (collectionId : string) (log : list RemoteCall),
    let notFound :=
      mkResponse false None
        (Some "Request not found. It may have been cleared from the capture list.") in
    (forall requestId,
       (forall req, In req (getCapturedRequests st) -> CapturedRequest.id req <> requestId) ->
       handleUpdateToken remote requestId collectionId st log = (inr notFound, log)
       /\ handleSaveToPostman remote requestId collectionId st log = (inr notFound, log))
    /\ (forall requestId,
          handleUpdateToken remote requestId collectionId (clearCapturedRequests st) log
          = (inr notFound, log)
          /\ handleSaveToPostman remote requestId collectionId (clearCapturedRequests st) log
             = (inr notFound, log))
    /\ getCapturedRequests (clearCapturedRequests st) = []
    /\ requestBodies (clearCapturedRequests st) = []
    /\ getUniqueHosts (clearCapturedRequests st) = getUniqueHosts st
    /\ getCaptureState (clearCapturedRequests st) = getCaptureState st
    /\ onCaptureCallback (clearCapturedRequests st) = onCaptureCallback st.
Proof.
  intros P F remote st collectionId log notFound.
  assert (miss : forall st' requestId,
            getCapturedRequest requestId st' = None ->
            handleUpdateToken remote requestId collectionId st' log = (inr notFound, log)
            /\ handleSaveToPostman remote requestId collectionId st' log = (inr notFound, log)).
  { intros st' requestId M. unfold handleUpdateToken, handleSaveToPostman, tryCatch, ret.
    rewrite M. split; reflexivity. }
  split; [|split; [|repeat split]].
  - intros requestId H. apply miss. now apply getCapturedRequest_miss.
  - intros requestId. apply miss. reflexivity.
Qed.

(** UPDATE_HOST_TOKEN.  When the buffer holds no request for the host
    with a credential, the handler answers that no authenticated request
    was found and sends nothing.  Otherwise it runs the bulk rotation
    with the credential and the auth type of the first such request of
    the buffer, which is the most recent one, and answers with the number
    of requests updated, or with the message of the error that the
    rotation threw. *)
Theorem handleUpdateHostToken_rotates :
  forall (P : Url.Parser) (remote : Remote) (events : list Event) (host collectionId : string),
    let st := fst (run initialCapture events) in
    ((forall req, In req (getCapturedRequests st) -> hasUrlHost host req = true ->
                  CapturedRequest.authType req = none) ->
     handleUpdateHostToken remote host collectionId st []
     = (inr (mkResponse false None
               (Some ("No authenticated requests found for host " ++ doubleQuote ++ host
                      ++ doubleQuote)%string)),
        []))
    /\ (forall authRequest,
          getMostRecentRequestWithAuth host st = Some authRequest ->
          exists credential,
            CapturedRequest.authValue authRequest = Some credential
            /\ let rotation :=
                 updateTokenForHost remote collectionId host credential
                   (CapturedRequest.authType authRequest) [] in
               snd (handleUpdateHostToken remote host collectionId st []) = snd rotation
               /\ fst (handleUpdateHostToken remote host collectionId st [])
                  = inr (match fst rotation with
                         | inr result =>
                             mkResponse true
                               (Some ("Updated token in "
                                      ++ Js.decimal (N.of_nat (updatedCount result))
                                      ++ " requests")%string)
                               None
                         | inl error => mkResponse false None (Some (errorMessage error))
                         end)).
Proof.
  intros P remote events host collectionId st. split.
  - intros H.
    assert (M : getMostRecentRequestWithAuth host st = None).
    { rewrite getMostRecentRequestWithAuth_find. apply find_all_false. intros req I.
      destruct (hasUrlHost host req) eqn:U; [|reflexivity].
      unfold hasCredential. now rewrite (H req I U). }
    unfold handleUpdateHostToken, tryCatch, ret. now rewrite M.
  - intros authRequest M.
    destruct (getMostRecentRequestWithAuth_credential events host M) as [credential V].
    exists credential. split; [exact V|]. cbv zeta.
    unfold handleUpdateHostToken, tryCatch, bind, ret. rewrite M, V.
    destruct (updateTokenForHost remote collectionId host credential _ [])
      as [[error | result] log']; split; reflexivity.
Qed.

Lemma handleUpdateHostToken_rotates_witness :
  handleUpdateHostToken (remoteHolding hostCollection) "api.h.com" "col-1"
    (fst (run initialCapture
            [BeforeSendHeaders 1 "a"
               (mkDetails "7" "https://api.h.com/orders/99" "GET" "fetch"
                  (Some [("Authorization", Some "Bearer new")]) None)])) []
  = (inr (mkResponse true (Some "Updated token in 3 requests") None),
     [Get "col-1"; Put "col-1" rotatedCollection]).
Proof.
  destruct (proj2 (@handleUpdateHostToken_rotates whatwg (remoteHolding hostCollection)
                     [BeforeSendHeaders 1 "a"
                        (mkDetails "7" "https://api.h.com/orders/99" "GET" "fetch"
                           (Some [("Authorization", Some "Bearer new")]) None)]
                     "api.h.com" "col-1")
              (CapturedRequest.mk "1-a" 1 "GET" "https://api.h.com/orders/99"
                 [mkHeader "Authorization" "Bearer new"] None bearer (Some "new"))
              eq_refl) as [credential [V [L R]]].
  injection V as <-.
  apply injective_projections; [rewrite R | rewrite L]; vm_compute; reflexivity.
Defined.

(** ** What update-by-match writes, in terms of the captured headers *)

Lemma Classifies_origin (headers : list RequestHeader) (info : AuthInfo) :
  Classifies headers info ->
  match type info with
  | bearer =>
      exists h rest, In h headers /\ Named "authorization" h
                     /\ value h = ("Bearer " ++ rest)%string
                     /\ authInfoValue info = Some (Js.trim rest)
  | basic =>
      exists h rest, In h headers /\ Named "authorization" h
                     /\ value h = ("Basic " ++ rest)%string
                     /\ authInfoValue info = Some (Js.trim rest)
  | apikey => exists h, In h headers /\ ApiKeyRule h /\ authInfoValue info = Some (value h)
  | cookie => exists h, In h headers /\ CookieRule h /\ authInfoValue info = Some (value h)
  | none => authInfoValue info = None
  end.
Proof.
  induction 1 as [h rest r N V | h rest r _ N V | h rest _ _ A | h rest _ _ _ C
                 | h rest info _ _ _ _ _ IH | ]; cbn [type authInfoValue].
  - exists h, r. split; [now left | split; [exact N | split; [exact V | reflexivity]]].
  - exists h, r. split; [now left | split; [exact N | split; [exact V | reflexivity]]].
  - exists h. split; [now left | split; [exact A | reflexivity]].
  - exists h. split; [now left | split; [exact C | reflexivity]].
  - destruct (type info).
    + destruct IH as [x [r [I Q]]]. exists x, r. split; [now right | exact Q].
    + destruct IH as [x [r [I Q]]]. exists x, r. split; [now right | exact Q].
    + destruct IH as [x [I Q]]. exists x. split; [now right | exact Q].
    + destruct IH as [x [I Q]]. exists x. split; [now right | exact Q].
    + exact IH.
  - reflexivity.
Qed.

(** The value that update-by-match writes into the Authorization header,
    for a request of the buffer, in terms of the headers that were
    captured.  Type bearer: the request had an Authorization header
    Bearer x, and Bearer followed by the trimmed x is written, which is
    the captured header value itself when x has no white space around
    it.  Type basic: the request had an Authorization header Basic x,
    and the trimmed x alone is written, without the word Basic.  Types
    apikey and cookie: the value of the API-key header, or of the Cookie
    header, is written.  Type none: the empty string. *)
Theorem update_writes_captured_credential
    (P : Url.Parser) (events : list Event) (req : CapturedRequest.t) :
  In req (getCapturedRequests (fst (run initialCapture events))) ->
  match CapturedRequest.authType req with
  | bearer =>
      exists h rest,
        In h (CapturedRequest.headers req) /\ Named "authorization" h
        /\ value h = ("Bearer " ++ rest)%string
        /\ newAuthValueOf req = ("Bearer " ++ Js.trim rest)%string
        /\ (Js.trim rest = rest -> newAuthValueOf req = value h)
  | basic =>
      exists h rest,
        In h (CapturedRequest.headers req) /\ Named "authorization" h
        /\ value h = ("Basic " ++ rest)%string
        /\ newAuthValueOf req = Js.trim rest
  | apikey =>
      exists h, In h (CapturedRequest.headers req) /\ ApiKeyRule h
                /\ newAuthValueOf req = value h
  | cookie =>
      exists h, In h (CapturedRequest.headers req) /\ CookieRule h
                /\ newAuthValueOf req = value h
  | none => newAuthValueOf req = EmptyString
  end.
Proof.
  intros I. apply buffer_recorded in I. apply recorded_Classified in I.
  destruct I as [T V].
  pose proof (Classifies_origin (detectAuthType_Classifies (CapturedRequest.headers req))) as O.
  rewrite <- T, <- V in O. unfold newAuthValueOf.
  destruct (CapturedRequest.authType req); cbn [AuthType_eqb].
  - destruct O as [h [rest [I [N [E A]]]]]. exists h, rest. rewrite A. cbn [interpolate].
    split; [exact I | split; [exact N | split; [exact E | split; [reflexivity|]]]].
    intros R. now rewrite R, E.
  - destruct O as [h [rest [I [N [E A]]]]]. exists h, rest. rewrite A.
    split; [exact I | split; [exact N | split; [exact E | reflexivity]]].
  - destruct O as [h [I [R A]]]. exists h. rewrite A.
    split; [exact I | split; [exact R | reflexivity]].
  - destruct O as [h [I [R A]]]. exists h. rewrite A.
    split; [exact I | split; [exact R | reflexivity]].
  - now rewrite O.
Qed.

Lemma update_writes_captured_credential_witness :
  exists h rest,
    In h [mkHeader "Authorization" "Basic dXNlcjpwdw=="] /\ Named "authorization" h
    /\ value h = ("Basic " ++ rest)%string
    /\ newAuthValueOf
         (CapturedRequest.mk "1-a" 1 "GET" "https://api.h.com/orders/99"
            [mkHeader "Authorization" "Basic dXNlcjpwdw=="] None basic (Some "dXNlcjpwdw=="))
       = Js.trim rest.
Proof.
  exact (@update_writes_captured_credential whatwg
           [BeforeSendHeaders 1 "a"
              (mkDetails "7" "https://api.h.com/orders/99" "GET" "fetch"
                 (Some [("Authorization", Some "Basic dXNlcjpwdw==")]) None)]
           (CapturedRequest.mk "1-a" 1 "GET" "https://api.h.com/orders/99"
              [mkHeader "Authorization" "Basic dXNlcjpwdw=="] None basic (Some "dXNlcjpwdw=="))
           (or_introl eq_refl)).
Defined.

(** ** The popup side *)

(** A failure of update-by-match reaches the popup with its message.
    For a request of the buffer and the response of the UPDATE_TOKEN
    handler, the popup's [updateToken] returns the data of the response
    when update-by-match returned, and otherwise throws an error with
    the message of the error that update-by-match threw, or with the
    words Failed to update token when that message is empty. *)
Theorem updateToken_reports
    (P : Url.Parser) (remote : Remote) (st : Capture) (requestId collectionId : string)
    (req : CapturedRequest.t) (response : MessageResponse) :
  getCapturedRequest requestId st = Some req ->
  fst (handleUpdateToken remote requestId collectionId st []) = inr response ->
  updateToken (Delivered response)
  = match fst (updateTokenInCollection remote collectionId req []) with
    | inr result =>
        inr (Some ("Token updated in " ++ doubleQuote ++ requestName result
                   ++ doubleQuote ++ "!")%string)
    | inl error => inl (ErrorThrown (Js.orElse (errorMessage error) "Failed to update token"))
    end.
Proof.
  intros G. unfold handleUpdateToken, tryCatch, bind, ret. rewrite G.
  destruct (updateTokenInCollection remote collectionId req []) as [[error | result] log];
    intros [= <-]; reflexivity.
Qed.

Lemma updateToken_reports_witness :
  updateToken
    (Delivered
       (mkResponse false None
          (Some "No matching request found in collection. The URL pattern does not match any existing requests.")))
  = inl (ErrorThrown
           "No matching request found in collection. The URL pattern does not match any existing requests.").
Proof.
  assert (G : getCapturedRequest "2-b"
                (fst (run initialCapture
                        [BeforeSendHeaders 2 "b" (fetchOf "https://api.h.com/ping")]))
              = Some anonymousRequest) by (vm_compute; reflexivity).
  assert (H : fst (handleUpdateToken (remoteHolding (mkCollection None "info")) "2-b" "col-1"
                     (fst (run initialCapture
                             [BeforeSendHeaders 2 "b" (fetchOf "https://api.h.com/ping")])) [])
              = inr (mkResponse false None
                       (Some "No matching request found in collection. The URL pattern does not match any existing requests.")))
    by (vm_compute; reflexivity).
  exact (@updateToken_reports whatwg (remoteHolding (mkCollection None "info")) _
           "2-b" "col-1" anonymousRequest _ G H).
Defined.

(** ** The orchestrator: failures before the write *)

Section GateFacts.

Context {P : Url.Parser} {F : Formatter}.
Variable remote : Remote.

Lemma hasPostmanApiKey_false : hasPostmanApiKey remote = false <-> getPostmanApiKey remote = None.
Proof.
  unfold hasPostmanApiKey, getPostmanApiKey.
  destruct (storedApiKey remote) as [[|c k]|]; simpl; split; try reflexivity; discriminate.
Qed.

Lemma getCollection_no_key (cid : string) (log : list RemoteCall) :
  getPostmanApiKey remote = None ->
  getCollection remote cid log
  = (inl (ErrorThrown "Postman API key not configured. Please add your API key in Settings."),
     log).
Proof.
  intros K. unfold getCollection, tryCatch, bind, getApiHeaders, throw. now rewrite K.
Qed.

Lemma getCollection_failed (cid apiKey : string) (e : AxiosError) :
  getPostmanApiKey remote = Some apiKey ->
  getResponse remote cid = inl e ->
  getCollection remote cid []
  = (inl (ErrorThrown ("Failed to fetch collection: " ++ describeAxios e)%string), [Get cid]).
Proof.
  intros K G. unfold getCollection, tryCatch, bind, getApiHeaders, axiosGet, ret, throw.
  now rewrite K, G.
Qed.

End GateFacts.

(** The API key gates every operation.  A key is configured exactly when
    a non-empty key was saved last; saving the empty string or removing
    the key leaves none.  Without a key the fetch, update-by-match, the
    bulk rotation, create and upsert all throw the not-configured error
    and send no request to the Postman API. *)
Theorem api_key_gate :
  forall (P : Url.Parser) (F : Formatter) (remote : Remote),
    (forall apiKey,
       getPostmanApiKey (savePostmanApiKey apiKey remote)
       = (if String.eqb apiKey EmptyString then None else Some apiKey)
       /\ hasPostmanApiKey (savePostmanApiKey apiKey remote)
          = negb (String.eqb apiKey EmptyString))
    /\ hasPostmanApiKey (removePostmanApiKey remote) = false
    /\ (hasPostmanApiKey remote = false ->
        forall (cid host authValue : string) (authType : AuthType)
               (req : CapturedRequest.t) (log : list RemoteCall),
          let notConfigured :=
            ErrorThrown "Postman API key not configured. Please add your API key in Settings." in
          getCollection remote cid log = (inl notConfigured, log)
          /\ updateTokenInCollection remote cid req log = (inl notConfigured, log)
          /\ updateTokenForHost remote cid host authValue authType log = (inl notConfigured, log)
          /\ createRequestInCollection remote cid req log = (inl notConfigured, log)
          /\ upsertRequestInCollection remote cid req log = (inl notConfigured, log)).
Proof.
  intros P F remote. split; [|split].
  - intros [|c k]; split; reflexivity.
  - reflexivity.
  - intros H cid host authValue authType req log notConfigured.
    apply hasPostmanApiKey_false in H.
    split; [now apply getCollection_no_key|].
    unfold updateTokenInCollection, updateTokenForHost, createRequestInCollection,
      upsertRequestInCollection, tryCatch, bind, getApiHeaders, throw.
    rewrite H. repeat split.
Qed.

Lemma api_key_gate_witness :
  upsertRequestInCollection (removePostmanApiKey (remoteHolding hostCollection))
    "col-1" orderRequest []
  = (inl (ErrorThrown "Postman API key not configured. Please add your API key in Settings."),
     []).
Proof.
  exact (proj2 (proj2 (proj2 (proj2
           (proj2 (proj2 (@api_key_gate whatwg exampleFormatter
                            (removePostmanApiKey (remoteHolding hostCollection))))
              eq_refl "col-1" "api.h.com" "new" bearer orderRequest []))))).
Defined.

(** When the fetch of the collection fails, every operation throws the
    failed-to-fetch error carrying the status text of the response (or
    the message of the error when there is none), whatever operation was
    asked for, and sends no PUT. *)
Theorem fetch_failure_stops
    (P : Url.Parser) (F : Formatter) (remote : Remote) (cid apiKey : string) (e : AxiosError) :
  getPostmanApiKey remote = Some apiKey ->
  getResponse remote cid = inl e ->
  forall (host authValue : string) (authType : AuthType) (req : CapturedRequest.t),
    let failed := ErrorThrown ("Failed to fetch collection: " ++ describeAxios e)%string in
    updateTokenInCollection remote cid req [] = (inl failed, [Get cid])
    /\ updateTokenForHost remote cid host authValue authType [] = (inl failed, [Get cid])
    /\ createRequestInCollection remote cid req [] = (inl failed, [Get cid])
    /\ upsertRequestInCollection remote cid req [] = (inl failed, [Get cid]).
Proof.
  intros K G host authValue authType req failed.
  pose proof (getCollection_failed remote cid K G) as C.
  unfold updateTokenInCollection, updateTokenForHost, createRequestInCollection,
    upsertRequestInCollection, tryCatch, bind, getApiHeaders, ret, throw.
  rewrite K. cbv beta iota. rewrite C. repeat split.
Qed.

Lemma fetch_failure_stops_witness :
  createRequestInCollection (mkRemote (Some "PMAK-1")
                               (fun _ => inl (mkAxiosError (Some "Not Found") "404"))
                               (fun _ _ => None))
    "col-9" orderRequest []
  = (inl (ErrorThrown "Failed to fetch collection: Not Found"), [Get "col-9"]).
Proof.
  exact (proj1 (proj2 (proj2
           (@fetch_failure_stops whatwg exampleFormatter
              (mkRemote (Some "PMAK-1")
                 (fun _ => inl (mkAxiosError (Some "Not Found") "404")) (fun _ _ => None))
              "col-9" "PMAK-1" (mkAxiosError (Some "Not Found") "404") eq_refl eq_refl
              "api.h.com" "new" bearer orderRequest)))).
Defined.

(** ** The orchestrator: create and upsert *)

Lemma header_copy (headers : list RequestHeader) :
  map (fun h => mkHeader (key h) (value h)) headers = headers.
Proof.
  induction headers as [|[k v] l IH]; simpl; [reflexivity | now rewrite IH].
Qed.

Lemma toUpperCase_nonempty (s : string) : s <> EmptyString -> Js.toUpperCase s <> EmptyString.
Proof.
  destruct s as [|c s]; [congruence|]. intros _. simpl. unfold Js.upperChar.
  destruct (_ || _); [discriminate|]. destruct (Js.code c =? 223); discriminate.
Qed.

Lemma updateNth_length {A : Type} (f : A -> A) (l : list A) (i : nat) :
  List.length (updateNth i f l) = List.length l.
Proof.
  revert i. induction l as [|a l IH]; intros [|i]; simpl; try reflexivity. now rewrite IH.
Qed.

Lemma updateNth_idem {A : Type} (f : A -> A) (l : list A) (i : nat) :
  (forall x, f (f x) = f x) -> updateNth i f (updateNth i f l) = updateNth i f l.
Proof.
  intros H. revert i. induction l as [|a l IH]; intros [|i]; simpl; try reflexivity.
  - now rewrite H.
  - now rewrite IH.
Qed.

Lemma updateIn_idem (f : Item -> Item) (p : Path) :
  (forall x, f (f x) = f x) -> forall it, updateIn p f (updateIn p f it) = updateIn p f it.
Proof.
  intros H. induction p as [|i p IH]; intros it; simpl; [apply H|].
  destruct it as [n [kids|] r]; [|reflexivity]. simpl. f_equal. f_equal.
  now apply updateNth_idem.
Qed.

Lemma updateAt_idem (f : Item -> Item) (p : Path) (items : list Item) :
  (forall x, f (f x) = f x) -> updateAt p f (updateAt p f items) = updateAt p f items.
Proof.
  intros H. destruct p as [|i p]; [reflexivity|]. simpl.
  apply updateNth_idem. now apply updateIn_idem.
Qed.

Section Overwrite.

Variable test : RequestDef -> bool.
Variable f : Item -> Item.
Hypothesis f_item : forall x, item (f x) = item x.
Hypothesis f_passes : forall x, passes test (f x) = true.

Let visit (i : nat) (k : Item) : option Ref := option_map (under i) (searchItem test k).

Lemma searchItem_self (n : string) (kids : option (list Item)) (r : option RequestDef) :
  match kids with Some l => firstFrom visit 0 l | None => None end = None ->
  passes test (mkItem n kids r) = true ->
  searchItem test (mkItem n kids r) = Some ([], mkItem n kids r).
Proof.
  intros K T. unfold passes in T. cbn in T.
  change (searchItem test (mkItem n kids r))
    with (match match kids with Some l => firstFrom visit 0 l | None => None end with
          | Some m => Some m
          | None => match r with
                    | Some r' => if test r' then Some ([], mkItem n kids r) else None
                    | None => None
                    end
          end).
  rewrite K. destruct r as [r|]; [|discriminate]. now rewrite T.
Qed.

Lemma searchItem_passes (it : Item) :
  passes test it = true -> exists ref, searchItem test it = Some ref.
Proof.
  destruct it as [n kids r]. intros T.
  destruct (match kids with Some l => firstFrom visit 0 l | None => None end) as [m|] eqn:K.
  - exists m.
    change (searchItem test (mkItem n kids r))
      with (match match kids with Some l => firstFrom visit 0 l | None => None end with
            | Some m => Some m
            | None => match r with
                      | Some r' => if test r' then Some ([], mkItem n kids r) else None
                      | None => None
                      end
            end).
    now rewrite K.
  - exists ([], mkItem n kids r). now apply searchItem_self.
Qed.

Lemma firstFrom_push (l : list Item) (x : Item) :
  passes test x = true ->
  forall i, exists ref, firstFrom visit i (l ++ [x]) = Some ref.
Proof.
  intros T. induction l as [|k l IH]; intros i; simpl.
  - unfold visit. destruct (searchItem_passes _ T) as [ref ->]. simpl. now eexists.
  - destruct (visit i k) as [m|]; [now exists m | apply IH].
Qed.

Lemma firstFrom_push_new (l : list Item) (x : Item) :
  item x = None -> passes test x = true ->
  forall i, firstFrom visit i l = None ->
  firstFrom visit i (l ++ [x]) = Some ([i + List.length l], x).
Proof.
  intros K T. induction l as [|k l IH]; intros i; simpl.
  - intros _. unfold visit. destruct x as [n kids r]. simpl in K. subst kids.
    rewrite (searchItem_self n None r eq_refl T). simpl. unfold under. simpl.
    now rewrite Nat.add_0_r.
  - destruct (visit i k) as [m|]; [discriminate|]. intros H.
    rewrite (IH _ H). now rewrite Nat.add_succ_r.
Qed.

Lemma firstFrom_overwrite (l : list Item) :
  Forall (fun k => forall p m, searchItem test k = Some (p, m) ->
                   searchItem test (updateIn p f k) = Some (p, f m)) l ->
  forall i q m,
  firstFrom visit i l = Some (q, m) ->
  exists j p', q = (i + j) :: p'
               /\ firstFrom visit i (updateNth j (updateIn p' f) l) = Some (q, f m).
Proof.
  intros H. induction H as [|k l Hk _ IH]; intros i q m; simpl; [discriminate|].
  unfold visit at 1. destruct (searchItem test k) as [[p' m']|] eqn:E; simpl.
  - intros [= <- <-]. exists 0, p'. rewrite Nat.add_0_r. split; [reflexivity|].
    simpl. unfold visit at 1. now rewrite (Hk _ _ eq_refl).
  - intros Hs. destruct (IH _ _ _ Hs) as [j [p' [-> S']]]. exists (S j), p'.
    rewrite Nat.add_succ_r. split; [reflexivity|].
    simpl. unfold visit at 1. now rewrite E.
Qed.

Lemma searchItem_overwrite (it : Item) :
  forall p m, searchItem test it = Some (p, m) ->
  searchItem test (updateIn p f it) = Some (p, f m).
Proof.
  induction it as [n r | n kids r IH] using Item_nested_ind; intros p m.
  - simpl. destruct r as [r|]; [|discriminate]. destruct (test r) eqn:T; [|discriminate].
    intros [= <- <-]. simpl.
    pose proof (f_item (mkItem n None (Some r))) as K.
    pose proof (f_passes (mkItem n None (Some r))) as Q.
    destruct (f (mkItem n None (Some r))) as [n' kids' r']. simpl in K. subst kids'.
    now apply searchItem_self.
  - change (searchItem test (mkItem n (Some kids) r))
      with (match firstFrom visit 0 kids with
            | Some m => Some m
            | None => match r with
                      | Some r' => if test r' then Some ([], mkItem n (Some kids) r) else None
                      | None => None
                      end
            end).
    destruct (firstFrom visit 0 kids) as [[q x]|] eqn:S.
    + intros [= <- <-]. destruct (firstFrom_overwrite IH _ S) as [j [p' [-> S']]].
      cbn [Nat.add updateIn].
      change (searchItem test (mkItem n (Some (updateNth j (updateIn p' f) kids)) r))
        with (match firstFrom visit 0 (updateNth j (updateIn p' f) kids) with
              | Some m => Some m
              | None => match r with
                        | Some r' =>
                            if test r'
                            then Some ([], mkItem n (Some (updateNth j (updateIn p' f) kids)) r)
                            else None
                        | None => None
                        end
              end).
      now rewrite S'.
    + destruct r as [r|]; [|discriminate]. destruct (test r) eqn:T; [|discriminate].
      intros [= <- <-]. simpl.
      pose proof (f_item (mkItem n (Some kids) (Some r))) as K.
      pose proof (f_passes (mkItem n (Some kids) (Some r))) as Q.
      destruct (f (mkItem n (Some kids) (Some r))) as [n' kids' r']. simpl in K. subst kids'.
      now apply searchItem_self.
Qed.

(** Overwriting the node that the search returns with a node that
    passes the test and keeps the children: the search returns the same
    place again. *)
Lemma searchRecursive_overwrite (items : list Item) (p : Path) (m : Item) :
  searchRecursive test items = Some (p, m) ->
  searchRecursive test (updateAt p f items) = Some (p, f m).
Proof.
  intros S.
  assert (H : Forall (fun k => forall p m, searchItem test k = Some (p, m) ->
                     searchItem test (updateIn p f k) = Some (p, f m)) items).
  { rewrite Forall_forall. intros k _. apply searchItem_overwrite. }
  destruct (firstFrom_overwrite H _ S) as [j [p' [-> S']]]. exact S'.
Qed.

End Overwrite.

Section UpsertFacts.

Context {P : Url.Parser} {F : Formatter}.
Variable remote : Remote.

Lemma getCollection_ok (cid apiKey : string) (collection : Collection) :
  getPostmanApiKey remote = Some apiKey ->
  getResponse remote cid = inr collection ->
  getCollection remote cid [] = (inr collection, [Get cid]).
Proof.
  intros K G. unfold getCollection, tryCatch, bind, getApiHeaders, axiosGet, ret, throw.
  now rewrite K, G.
Qed.

(** The formatted request of a captured request whose URL parses. *)
Lemma formatRequestForPostman_parsed (req : CapturedRequest.t) (u : Url.URL) :
  Url.parse (CapturedRequest.url req) = Some u ->
  formatRequestForPostman req
  = inr (mkItem (CapturedRequest.method req ++ " " ++ Url.pathname u)%string None
           (Some (mkRequestDef (Some (CapturedRequest.method req))
                    (CapturedRequest.headers req)
                    (UrlObject (Some (CapturedRequest.url req)))
                    (formatBody (CapturedRequest.body req))
                    (option_map renderAuth (formatAuth req))))).
Proof. intros E. unfold formatRequestForPostman. now rewrite E, header_copy. Qed.

Lemma createRequestInCollection_run (cid apiKey : string) (req : CapturedRequest.t)
    (collection : Collection) :
  getPostmanApiKey remote = Some apiKey ->
  getResponse remote cid = inr collection ->
  createRequestInCollection remote cid req [] =
    match formatRequestForPostman req with
    | inl error => (inl error, [Get cid])
    | inr newRequest =>
        (match putResponse remote cid (pushItem newRequest collection) with
         | None => inr (mkUpdateResult true (name newRequest))
         | Some e => inl (ErrorThrown ("Failed to create request: " ++ describeAxios e)%string)
         end,
         [Get cid; Put cid (pushItem newRequest collection)])
    end.
Proof.
  intros K G. pose proof (getCollection_ok cid K G) as C.
  unfold createRequestInCollection, tryCatch, bind, getApiHeaders, axiosPut, ret, throw.
  rewrite K. cbv beta iota. rewrite C. cbv beta iota.
  unfold formatRequestForPostman. destruct (Url.parse _); [|reflexivity].
  cbv beta iota zeta. destruct (putResponse remote cid _); reflexivity.
Qed.

Lemma upsertRequestInCollection_run (cid apiKey : string) (req : CapturedRequest.t)
    (collection : Collection) :
  getPostmanApiKey remote = Some apiKey ->
  getResponse remote cid = inr collection ->
  upsertRequestInCollection remote cid req [] =
    match formatRequestForPostman req with
    | inl error => (inl error, [Get cid])
    | inr formattedRequest =>
        let (document, act) :=
          match findMatchingRequestWithMethod (CapturedRequest.url req)
                  (CapturedRequest.method req) (itemsOf collection) with
          | Some ref => (mutateAt ref (overwriteWith formattedRequest) collection, updated)
          | None => (pushItem formattedRequest collection, created)
          end in
        (match putResponse remote cid document with
         | None => inr (UpsertResult.mk act (name formattedRequest))
         | Some e => inl (ErrorThrown ("Failed to upsert request: " ++ describeAxios e)%string)
         end,
         [Get cid; Put cid document])
    end.
Proof.
  intros K G. pose proof (getCollection_ok cid K G) as C.
  unfold upsertRequestInCollection, tryCatch, bind, getApiHeaders, axiosPut, ret, throw.
  rewrite K. cbv beta iota. rewrite C. cbv beta iota zeta.
  unfold formatRequestForPostman. destruct (Url.parse _); [|reflexivity].
  cbv beta iota zeta.
  destruct (findMatchingRequestWithMethod _ _ _) as [ref|];
    cbv beta iota zeta; destruct (putResponse remote cid _); reflexivity.
Qed.

(** A formatted request matches the captured request it was made of, by
    pattern, and by method when the method is not empty. *)
Lemma formatted_matches (req : CapturedRequest.t) (n : string) (kids : option (list Item))
    (b a : option string) :
  let it := mkItem n kids
              (Some (mkRequestDef (Some (CapturedRequest.method req))
                       (CapturedRequest.headers req)
                       (UrlObject (Some (CapturedRequest.url req))) b a)) in
  passes (matchesPattern (CapturedRequest.url req)) it = true
  /\ (CapturedRequest.method req <> EmptyString ->
      passes (matchesPatternAndMethod (CapturedRequest.url req) (CapturedRequest.method req)) it
      = true).
Proof.
  intros it. unfold it, passes, matchesPattern, matchesPatternAndMethod, postmanMethod.
  cbn. rewrite String.eqb_refl. split; [reflexivity|].
  intros M. apply toUpperCase_nonempty in M.
  destruct (Js.toUpperCase (CapturedRequest.method req)) as [|c s] eqn:E; [congruence|].
  cbn [Js.orElse andb]. apply String.eqb_refl.
Qed.

End UpsertFacts.

(** Create.  With the API key configured and the collection fetched,
    a captured request whose URL does not parse makes create throw after
    the GET, without a PUT.  Otherwise create sends exactly one PUT,
    whose document is the fetched one with one leaf added at the end of
    its top level: the leaf is named by the method and the pathname and
    carries the method, the headers and the raw URL of the captured
    request.  Nothing is looked up first, so a leaf is added also when
    the collection has the request already.  Afterwards the pattern
    match of update-by-match finds a request for the same URL. *)
Theorem createRequestInCollection_appends
    (P : Url.Parser) (F : Formatter) (remote : Remote) (cid apiKey : string)
    (req : CapturedRequest.t) (collection : Collection) :
  getPostmanApiKey remote = Some apiKey ->
  getResponse remote cid = inr collection ->
  match Url.parse (CapturedRequest.url req) with
  | None =>
      createRequestInCollection remote cid req []
      = (inl (ErrorThrown invalidUrlMessage), [Get cid])
  | Some u =>
      let leaf :=
        mkItem (CapturedRequest.method req ++ " " ++ Url.pathname u)%string None
          (Some (mkRequestDef (Some (CapturedRequest.method req))
                   (CapturedRequest.headers req)
                   (UrlObject (Some (CapturedRequest.url req)))
                   (formatBody (CapturedRequest.body req))
                   (option_map renderAuth (formatAuth req)))) in
      let document :=
        mkCollection (Some (itemsOf collection ++ [leaf])) (collectionInfo collection) in
      snd (createRequestInCollection remote cid req []) = [Get cid; Put cid document]
      /\ (putResponse remote cid document = None ->
          fst (createRequestInCollection remote cid req [])
          = inr (mkUpdateResult true
                   (CapturedRequest.method req ++ " " ++ Url.pathname u)%string))
      /\ (forall e, putResponse remote cid document = Some e ->
          fst (createRequestInCollection remote cid req [])
          = inl (ErrorThrown ("Failed to create request: " ++ describeAxios e)%string))
      /\ exists first,
           findMatchingRequest (CapturedRequest.url req) (itemsOf document) = Some first
  end.
Proof.
  intros K G. rewrite (createRequestInCollection_run remote cid req K G).
  destruct (Url.parse (CapturedRequest.url req)) as [u|] eqn:E.
  - rewrite (formatRequestForPostman_parsed req E). cbv zeta. unfold pushItem.
    split; [reflexivity|]. split; [|split].
    + intros PR. now rewrite PR.
    + intros e PR. now rewrite PR.
    + apply firstFrom_push. apply formatted_matches.
  - unfold formatRequestForPostman. now rewrite E.
Qed.

Lemma createRequestInCollection_appends_witness :
  snd (createRequestInCollection (remoteHolding hostCollection) "col-1" orderRequest [])
  = [Get "col-1";
     Put "col-1"
       (mkCollection
          (Some (itemsOf hostCollection ++
                 [mkItem "GET /orders/99" None
                    (Some (mkRequestDef (Some "GET") [mkHeader "Authorization" "Bearer new"]
                             (UrlObject (Some "https://api.h.com/orders/99")) None
                             (Some "bearer new")))]))
          "info")].
Proof.
  exact (proj1 (@createRequestInCollection_appends whatwg exampleFormatter
                  (remoteHolding hostCollection) "col-1" "PMAK-1" orderRequest hostCollection
                  eq_refl eq_refl)).
Defined.

(** Upsert.  With the API key configured, the collection fetched and a
    captured request whose URL parses: when the match by pattern and
    method finds a node, upsert overwrites the name and the request of
    that node in place (its children, its place and every other node
    stay) and reports updated; when it finds none, upsert adds the
    formatted request at the end of the top level and reports created.
    Either way it sends exactly one PUT after the GET.  A captured URL
    that does not parse makes upsert throw after the GET, without a PUT,
    also when a node matches. *)
Theorem upsertRequestInCollection_updates_or_creates
    (P : Url.Parser) (F : Formatter) (remote : Remote) (cid apiKey : string)
    (req : CapturedRequest.t) (collection : Collection) :
  getPostmanApiKey remote = Some apiKey ->
  getResponse remote cid = inr collection ->
  match Url.parse (CapturedRequest.url req) with
  | None =>
      upsertRequestInCollection remote cid req []
      = (inl (ErrorThrown invalidUrlMessage), [Get cid])
  | Some u =>
      let formatted :=
        mkItem (CapturedRequest.method req ++ " " ++ Url.pathname u)%string None
          (Some (mkRequestDef (Some (CapturedRequest.method req))
                   (CapturedRequest.headers req)
                   (UrlObject (Some (CapturedRequest.url req)))
                   (formatBody (CapturedRequest.body req))
                   (option_map renderAuth (formatAuth req)))) in
      match findMatchingRequestWithMethod (CapturedRequest.url req)
              (CapturedRequest.method req) (itemsOf collection) with
      | Some (p, m) =>
          exists document,
            snd (upsertRequestInCollection remote cid req []) = [Get cid; Put cid document]
            /\ getAt p (itemsOf document)
               = Some (mkItem (name formatted) (item m) (request formatted))
            /\ List.length (itemsOf document) = List.length (itemsOf collection)
            /\ (Document (itemsOf collection) ->
                exists pre post,
                  leaves (itemsOf collection) = pre ++ m :: post
                  /\ leaves (itemsOf document) = pre ++ formatted :: post)
            /\ (putResponse remote cid document = None ->
                fst (upsertRequestInCollection remote cid req [])
                = inr (UpsertResult.mk updated (name formatted)))
            /\ (forall e, putResponse remote cid document = Some e ->
                fst (upsertRequestInCollection remote cid req [])
                = inl (ErrorThrown ("Failed to upsert request: " ++ describeAxios e)%string))
      | None =>
          let document :=
            mkCollection (Some (itemsOf collection ++ [formatted]))
              (collectionInfo collection) in
          snd (upsertRequestInCollection remote cid req []) = [Get cid; Put cid document]
          /\ (putResponse remote cid document = None ->
              fst (upsertRequestInCollection remote cid req [])
              = inr (UpsertResult.mk created (name formatted)))
          /\ (forall e, putResponse remote cid document = Some e ->
              fst (upsertRequestInCollection remote cid req [])
              = inl (ErrorThrown ("Failed to upsert request: " ++ describeAxios e)%string))
      end
  end.
Proof.
  intros K G. rewrite (upsertRequestInCollection_run remote cid req K G).
  destruct (Url.parse (CapturedRequest.url req)) as [u|] eqn:E.
  - rewrite (formatRequestForPostman_parsed req E). cbv zeta.
    set (formatted := mkItem _ None _).
    destruct (findMatchingRequestWithMethod _ _ _) as [[p m]|] eqn:S.
    + exists (mutateAt (p, m) (overwriteWith formatted) collection).
      destruct (searchRecursive_sound _ _ S) as [GA _].
      split; [reflexivity|]. split; [|split; [|split; [|split]]].
      * cbn [mutateAt itemsOf collectionItem fst].
        now rewrite (getAt_updateAt (overwriteWith formatted) _ _ GA).
      * cbn [mutateAt itemsOf collectionItem fst]. destruct p as [|i p]; [reflexivity|].
        apply updateNth_length.
      * intros W.
        destruct (@searchRecursive_update _ (overwriteWith formatted) (fun x H => H)
                    _ _ _ W S) as [pre [post [L [_ U]]]].
        exists pre, post. split; [exact L|].
        cbn [mutateAt itemsOf collectionItem fst]. rewrite U. unfold overwriteWith.
        assert (leafM : item m = None).
        { assert (I : In m (leaves (itemsOf collection))) by (rewrite L; apply in_elt).
          clear - I. unfold leaves in I. apply in_flat_map in I. destruct I as [k [_ I]].
          revert m I. induction k as [n r | n kids r IH] using Item_nested_ind; intros m I.
          - destruct I as [<- | []]. reflexivity.
          - simpl in I. apply in_flat_map in I. destruct I as [k' [Hk I]].
            rewrite Forall_forall in IH. now apply (IH k' Hk). }
        now rewrite leafM.
      * intros PR. now rewrite PR.
      * intros e PR. now rewrite PR.
    + unfold pushItem. split; [reflexivity|].
      split; [intros PR | intros e PR]; now rewrite PR.
  - unfold formatRequestForPostman. now rewrite E.
Qed.

Lemma upsertRequestInCollection_updates_or_creates_witness :
  exists document,
    snd (upsertRequestInCollection (remoteHolding hostCollection) "col-1" orderRequest [])
    = [Get "col-1"; Put "col-1" document]
    /\ getAt [1; 0] (itemsOf document)
       = Some (mkItem "GET /orders/99" None
                 (Some (mkRequestDef (Some "GET") [mkHeader "Authorization" "Bearer new"]
                          (UrlObject (Some "https://api.h.com/orders/99")) None
                          (Some "bearer new")))).
Proof.
  pose proof (@upsertRequestInCollection_updates_or_creates whatwg exampleFormatter
                (remoteHolding hostCollection) "col-1" "PMAK-1" orderRequest hostCollection
                eq_refl eq_refl) as H.
  assert (E : Url.parse (CapturedRequest.url orderRequest)
              = Some (Url.mkURL "https:" "api.h.com" "/orders/99"))
    by (vm_compute; reflexivity).
  assert (S : findMatchingRequestWithMethod (CapturedRequest.url orderRequest)
                (CapturedRequest.method orderRequest) (itemsOf hostCollection)
              = Some ([1; 0], bearerLeaf "Get order" "https://api.h.com/orders/17"))
    by (vm_compute; reflexivity).
  rewrite E in H. cbv zeta in H. rewrite S in H.
  destruct H as [document [W [GA _]]].
  exists document. split; [exact W | exact GA].
Defined.

(** Upsert is idempotent.  For a captured request with a URL that parses
    and a method that is not empty: the document that an upsert writes
    holds a node matching the request, so an upsert of the same request
    into that document reports updated and writes the same document
    again; repeating a request does not add a second leaf. *)
Theorem upsertRequestInCollection_idempotent
    (P : Url.Parser) (F : Formatter) (remote : Remote) (cid apiKey : string)
    (req : CapturedRequest.t) (collection : Collection) (u : Url.URL) :
  getPostmanApiKey remote = Some apiKey ->
  getResponse remote cid = inr collection ->
  Url.parse (CapturedRequest.url req) = Some u ->
  CapturedRequest.method req <> EmptyString ->
  exists document,
    snd (upsertRequestInCollection remote cid req []) = [Get cid; Put cid document]
    /\ forall (again : Remote) (apiKey' : string),
         getPostmanApiKey again = Some apiKey' ->
         getResponse again cid = inr document ->
         snd (upsertRequestInCollection again cid req []) = [Get cid; Put cid document]
         /\ (putResponse again cid document = None ->
             fst (upsertRequestInCollection again cid req [])
             = inr (UpsertResult.mk updated
                      (CapturedRequest.method req ++ " " ++ Url.pathname u)%string)).
Proof.
  intros K G E M. rewrite (upsertRequestInCollection_run remote cid req K G).
  rewrite (formatRequestForPostman_parsed req E). cbv zeta.
  set (formatted := mkItem _ None _).
  set (test := matchesPatternAndMethod (CapturedRequest.url req) (CapturedRequest.method req)).
  assert (T : forall x, passes test (overwriteWith formatted x) = true).
  { intros x. unfold overwriteWith, formatted. cbn [name request].
    now apply (proj2 (formatted_matches req _ (item x) _ _)). }
  assert (I : forall x, overwriteWith formatted (overwriteWith formatted x)
                        = overwriteWith formatted x) by reflexivity.
  assert (again_run : forall (again : Remote) (apiKey' : string) (document : Collection) ref,
            getPostmanApiKey again = Some apiKey' ->
            getResponse again cid = inr document ->
            findMatchingRequestWithMethod (CapturedRequest.url req)
              (CapturedRequest.method req) (itemsOf document) = Some ref ->
            mutateAt ref (overwriteWith formatted) document = document ->
            snd (upsertRequestInCollection again cid req []) = [Get cid; Put cid document]
            /\ (putResponse again cid document = None ->
                fst (upsertRequestInCollection again cid req [])
                = inr (UpsertResult.mk updated
                         (CapturedRequest.method req ++ " " ++ Url.pathname u)%string))).
  { intros again apiKey' document ref K' G' S' D.
    rewrite (upsertRequestInCollection_run again cid req K' G').
    rewrite (formatRequestForPostman_parsed req E). cbv zeta. fold formatted.
    rewrite S', D. split; [reflexivity|]. intros PR. now rewrite PR. }
  destruct (findMatchingRequestWithMethod _ _ (itemsOf collection)) as [[p m]|] eqn:S.
  - exists (mutateAt (p, m) (overwriteWith formatted) collection).
    split; [reflexivity|]. intros again apiKey' K' G'.
    apply (again_run again apiKey' _ (p, overwriteWith formatted m) K' G').
    + cbn [mutateAt itemsOf collectionItem fst].
      apply (searchRecursive_overwrite test (overwriteWith formatted) (fun x => eq_refl) T).
      exact S.
    + unfold mutateAt. cbn [itemsOf collectionItem collectionInfo fst].
      now rewrite updateAt_idem.
  - exists (pushItem formatted collection).
    split; [reflexivity|]. intros again apiKey' K' G'.
    apply (again_run again apiKey' _ ([List.length (itemsOf collection)], formatted) K' G').
    + unfold pushItem. cbn [itemsOf collectionItem].
      apply (firstFrom_push_new test (itemsOf collection) formatted eq_refl
               (proj2 (formatted_matches req _ None _ _) M) 0 S).
    + unfold mutateAt, pushItem. cbn [itemsOf collectionItem collectionInfo fst updateAt].
      now rewrite updateNth_app.
Qed.

Lemma upsertRequestInCollection_idempotent_witness :
  exists document,
    snd (upsertRequestInCollection (remoteHolding hostCollection) "col-1" orderRequest [])
    = [Get "col-1"; Put "col-1" document]
    /\ snd (upsertRequestInCollection (remoteHolding document) "col-1" orderRequest [])
       = [Get "col-1"; Put "col-1" document].
Proof.
  assert (E : Url.parse (CapturedRequest.url orderRequest)
              = Some (Url.mkURL "https:" "api.h.com" "/orders/99"))
    by (vm_compute; reflexivity).
  assert (M : CapturedRequest.method orderRequest <> EmptyString) by discriminate.
  destruct (@upsertRequestInCollection_idempotent whatwg exampleFormatter
              (remoteHolding hostCollection) "col-1" "PMAK-1" orderRequest hostCollection
              (Url.mkURL "https:" "api.h.com" "/orders/99")
              eq_refl eq_refl E M) as [document [W A]].
  exists document. split; [exact W|].
  exact (proj1 (A (remoteHolding document) "PMAK-1" eq_refl eq_refl)).
Defined.

(** ** The shape of the documents that are written *)

Lemma forallb_updateNth {A : Type} (q : A -> bool) (f : A -> A) (l : list A) (i : nat) :
  forallb q l = true ->
  (forall k, nth_error l i = Some k -> q (f k) = true) ->
  forallb q (updateNth i f l) = true.
Proof.
  revert i. induction l as [|a l IH]; intros [|i]; simpl; intros H K; try reflexivity.
  - apply andb_true_iff in H. destruct H as [_ H]. now rewrite (K a eq_refl), H.
  - apply andb_true_iff in H. destruct H as [Ha H]. rewrite Ha. simpl. now apply IH.
Qed.

Lemma folderOrLeaf_updateIn (f : Item -> Item) (p : Path) :
  forall it m,
  folderOrLeaf it = true -> getIn p it = Some m -> folderOrLeaf (f m) = true ->
  folderOrLeaf (updateIn p f it) = true.
Proof.
  induction p as [|i p IH]; intros it m W G Fm.
  - simpl in *. injection G as ->. exact Fm.
  - destruct it as [n [kids|] r]; [|discriminate G]. destruct r as [r|]; [discriminate W|].
    simpl in *. apply forallb_updateNth; [exact W|].
    intros k N. rewrite N in G. apply (IH k m); [|exact G | exact Fm].
    rewrite forallb_forall in W. apply W. now apply nth_error_In in N.
Qed.

Lemma folderOrLeaf_getIn (p : Path) :
  forall it m, folderOrLeaf it = true -> getIn p it = Some m -> folderOrLeaf m = true.
Proof.
  induction p as [|i p IH]; intros it m W G.
  - simpl in G. now injection G as <-.
  - destruct it as [n [kids|] r]; [|discriminate G]. destruct r as [r|]; [discriminate W|].
    simpl in *. destruct (nth_error kids i) as [k|] eqn:N; [|discriminate G].
    apply (IH k m); [|exact G]. rewrite forallb_forall in W. apply W.
    now apply nth_error_In in N.
Qed.

Lemma Document_getAt (items : list Item) (p : Path) (m : Item) :
  Document items -> getAt p items = Some m -> folderOrLeaf m = true.
Proof.
  unfold Document. intros W G. destruct p as [|i p]; [discriminate G|]. simpl in G.
  destruct (nth_error items i) as [k|] eqn:N; [|discriminate G].
  apply (@folderOrLeaf_getIn p k m); [|exact G]. rewrite forallb_forall in W. apply W.
  now apply nth_error_In in N.
Qed.

Lemma Document_updateAt (f : Item -> Item) (items : list Item) (p : Path) (m : Item) :
  Document items -> getAt p items = Some m -> folderOrLeaf (f m) = true ->
  Document (updateAt p f items).
Proof.
  unfold Document. intros W G Fm. destruct p as [|i p]; [discriminate G|]. simpl in *.
  apply forallb_updateNth; [exact W|].
  intros k N. rewrite N in G. apply (@folderOrLeaf_updateIn f p k m); [|exact G | exact Fm].
  rewrite forallb_forall in W. apply W. now apply nth_error_In in N.
Qed.

Lemma forallb_map_same {A : Type} (q : A -> bool) (f : A -> A) (l : list A) :
  (forall x, In x l -> q (f x) = q x) -> forallb q (map f l) = forallb q l.
Proof.
  induction l as [|a l IH]; simpl; intros H; [reflexivity|].
  rewrite (H a (or_introl eq_refl)), IH; [reflexivity|]. intros x Hx. apply H. now right.
Qed.

Lemma folderOrLeaf_updateRequests (test : RequestDef -> bool) (g : RequestDef -> RequestDef)
    (it : Item) :
  folderOrLeaf (updateRequests test g it) = folderOrLeaf it.
Proof.
  induction it as [n r | n kids r IH] using Item_nested_ind; [reflexivity|].
  destruct r as [r|]; [reflexivity|]. simpl.
  apply forallb_map_same. rewrite Forall_forall in IH. exact IH.
Qed.

Lemma folderOrLeaf_onRequest (g : RequestDef -> RequestDef) (it : Item) :
  folderOrLeaf (onRequest g it) = folderOrLeaf it.
Proof. destruct it as [n [kids|] [r|]]; reflexivity. Qed.

(** The writers keep the shape of a document.  When the fetched
    collection is a document (every node a folder without a request or
    a leaf), every document that update-by-match, the bulk rotation,
    create or upsert sends in a PUT is a document as well. *)
Theorem writers_keep_document
    (P : Url.Parser) (F : Formatter) (remote : Remote) (cid apiKey host authValue : string)
    (authType : AuthType) (req : CapturedRequest.t) (collection : Collection) :
  getPostmanApiKey remote = Some apiKey ->
  getResponse remote cid = inr collection ->
  Document (itemsOf collection) ->
  forall document,
    In (Put cid document) (snd (updateTokenInCollection remote cid req []))
    \/ In (Put cid document) (snd (updateTokenForHost remote cid host authValue authType []))
    \/ In (Put cid document) (snd (createRequestInCollection remote cid req []))
    \/ In (Put cid document) (snd (upsertRequestInCollection remote cid req [])) ->
    Document (itemsOf document).
Proof.
  intros K G W document.
  assert (one : forall d, In (Put cid document) [Get cid; Put cid d] -> document = d).
  { intros d [H | [H | []]]; [discriminate H | now injection H]. }
  assert (zero : ~ In (Put cid document) [Get cid]).
  { intros [H | []]. discriminate H. }
  intros [H | [H | [H | H]]].
  - rewrite (updateTokenInCollection_run remote cid req K G) in H.
    destruct (findMatchingRequest _ _) as [[p m]|] eqn:S; [|now apply zero in H].
    cbv zeta in H. cbn [snd] in H. apply one in H. subst document.
    destruct (searchRecursive_sound _ _ S) as [GA _].
    cbn [mutateAt itemsOf collectionItem fst].
    apply (@Document_updateAt _ _ _ _ W GA). unfold setAuthorization.
    rewrite folderOrLeaf_onRequest. exact (@Document_getAt _ _ _ W GA).
  - pose proof (@updateTokenForHost_run P remote cid host authValue apiKey authType
                  collection K G) as R.
    cbv zeta in R. rewrite R in H. clear R.
    destruct (findAllRequestsForHost host (itemsOf collection)) as [|x l] eqn:M;
      [now apply zero in H|].
    cbn [snd] in H. apply one in H. subst document. rewrite <- M.
    destruct collection as [[items|] info]; [|discriminate M].
    rewrite fold_mutateAt. cbn [itemsOf collectionItem] in *.
    unfold findAllRequestsForHost, setAuthorization. rewrite mutate_collectRecursive.
    unfold Document in *. rewrite forallb_map_same; [exact W|].
    intros k _. apply folderOrLeaf_updateRequests.
  - rewrite (createRequestInCollection_run remote cid req K G) in H.
    unfold formatRequestForPostman in H.
    destruct (Url.parse (CapturedRequest.url req)) as [u|]; [|now apply zero in H].
    cbn [snd] in H. apply one in H. subst document.
    unfold pushItem, Document in *. cbn [itemsOf collectionItem].
    rewrite forallb_app, W. reflexivity.
  - rewrite (upsertRequestInCollection_run remote cid req K G) in H.
    unfold formatRequestForPostman in H.
    destruct (Url.parse (CapturedRequest.url req)) as [u|]; [|now apply zero in H].
    destruct (findMatchingRequestWithMethod _ _ _) as [[p m]|] eqn:S.
    + cbn [snd] in H. apply one in H. subst document.
      destruct (searchRecursive_sound _ _ S) as [GA T].
      cbn [mutateAt itemsOf collectionItem fst].
      apply (@Document_updateAt _ _ _ _ W GA).
      pose proof (@Document_getAt _ _ _ W GA) as Wm.
      destruct m as [n [kids|] [r|]]; try reflexivity; discriminate.
    + cbn [snd] in H. apply one in H. subst document.
      unfold pushItem, Document in *. cbn [itemsOf collectionItem].
      rewrite forallb_app, W. reflexivity.
Qed.

Lemma writers_keep_document_witness : Document (itemsOf rotatedCollection).
Proof.
  apply (@writers_keep_document whatwg exampleFormatter (remoteHolding hostCollection)
           "col-1" "PMAK-1" "api.h.com" "new" bearer orderRequest hostCollection
           eq_refl eq_refl eq_refl rotatedCollection).
  right. left. vm_compute. right. left. reflexivity.
Defined.

